(** * AutoPkg runner: a shallow embedding of [autopkg/autopkg-runner.py]

    The script configures AutoPkg, registers recipe repositories, runs
    recipes and, in upload mode, mirrors the local munki repository onto an
    SFTP server.  Every method of [AutoPkgRunner] is translated to a function
    in a small state-and-exception monad [Py]; the external world (spawned
    processes, the network, the SFTP server, the local disk) is an explicit
    environment [Env] and an explicit [World] state; a computation reads the
    events so far and returns the events it adds, in the order the script
    performs them. *)

From Stdlib Require Import ZArith Ascii String List Lia Bool.
From stdpp Require Import base option list gmap strings pretty.

Open Scope string_scope.
Open Scope list_scope.
Open Scope Z_scope.

(** ** Python exceptions and results *)

(** Subclasses of [Exception] the script distinguishes.  Every other
    subclass of [Exception] behaves alike and is [OtherException]. *)
Inductive pyexc : Type :=
| FileNotFoundError
| CalledProcessError (returncode : Z) (cmd : list string) (err : option string)
| AuthenticationException
| SSHException
| OtherException (what : string).

(** What a Python computation can raise.  [SystemExit] derives from
    [BaseException], not from [Exception]: an [except Exception] clause
    does not catch it. *)
Inductive raised : Type :=
| Exc (e : pyexc)
| SystemExit (code : Z).

Inductive outcome (A : Type) : Type :=
| Ok (a : A)
| Raise (r : raised).
Arguments Ok {A} a.
Arguments Raise {A} r.

(** ** Strings the way the script uses them *)

Definition slash : ascii := "/"%char.

Definition is_slash (a : ascii) : bool := Ascii.eqb a slash.

(** [s.rstrip('/')] *)
Fixpoint rstrip_slash (s : string) : string :=
  match s with
  | EmptyString => EmptyString
  | String a s' =>
      match rstrip_slash s' with
      | EmptyString => if is_slash a then EmptyString else String a EmptyString
      | r => String a r
      end
  end.

(** [s.split('/')]: one more part than there are slashes. *)
Fixpoint split_slash (s : string) : list string :=
  match s with
  | EmptyString => [EmptyString]
  | String a s' =>
      if is_slash a then EmptyString :: split_slash s'
      else match split_slash s' with
           | h :: t => String a h :: t
           | [] => [String a EmptyString]
           end
  end.

Fixpoint has_slash (s : string) : bool :=
  match s with
  | EmptyString => false
  | String a s' => is_slash a || has_slash s'
  end.

(** [needle in hay] on strings. *)
Fixpoint contains (needle hay : string) : bool :=
  String.prefix needle hay ||
  match hay with
  | EmptyString => false
  | String _ hay' => contains needle hay'
  end.

(** [' '.join(command)] *)
Definition join_words (command : list string) : string := String.concat " " command.

(** Python truthiness of a value that is a string or [None]. *)
Definition truthy (o : option string) : bool :=
  match o with
  | Some s => negb (String.eqb s "")
  | None => false
  end.

(** [os.path.isabs] and [os.path.join] of [posixpath]. *)
Definition os_path_isabs (p : string) : bool :=
  match p with
  | String a _ => is_slash a
  | EmptyString => false
  end.

Fixpoint ends_with_slash (s : string) : bool :=
  match s with
  | EmptyString => false
  | String a EmptyString => is_slash a
  | String _ s' => ends_with_slash s'
  end.

Definition os_path_join (a b : string) : string :=
  if os_path_isabs b then b
  else if String.eqb a "" || ends_with_slash a then a +:+ b
  else a +:+ "/" +:+ b.

(** [posixpath.dirname], used by the model of the server. *)
Fixpoint dir_part (s : string) : string :=
  match s with
  | EmptyString => EmptyString
  | String a s' =>
      if has_slash s' then String a (dir_part s')
      else if is_slash a then "/" else EmptyString
  end.

Definition dirname (p : string) : string :=
  let head := dir_part p in
  match rstrip_slash head with
  | EmptyString => head
  | r => r
  end.

(** ** Data *)

Definition bytes : Type := list Byte.byte.

(** The local directory tree: [Dir] lists its entries in the order
    [os.listdir] returns them. *)
#[local] Unset Elimination Schemes.
Inductive node : Type :=
| File (content : bytes)
| Dir (entries : list (string * node)).
#[local] Set Elimination Schemes.

(** What the SFTP server stores at a path. *)
Inductive rnode : Type :=
| RFile (content : bytes)
| RDir.

(** One entry of [repos] in config.yaml: [repo.get('name')], [repo.get('url')]. *)
Record Repo : Type := { repo_name : option string; repo_url : option string }.

(** The mapping loaded from config.yaml; [None] is a key that is absent. *)
Record Config : Type := {
  repo_path : option string;
  repos : list Repo;
  recipes : list string;
  sftp_host : option string;
  sftp_port : option Z;
  sftp_user : option string;
  sftp_password : option string
}.

(** ** Events and the world *)

Inductive level : Type := DEBUG | INFO | WARNING | ERROR.

Definition environ_t : Type := list (string * string).

(** The primitives through which the script touches the outside.  [Put]
    carries the bytes read from the local file and sent to the server. *)
Inductive call : Type :=
| Spawn (command : list string) (child_env : environ_t)
| Connect (host : string) (port : Z)
| StartClient
| AuthPassword (username password : string)
| OpenSftp
| Stat (path : string)
| Mkdir (path : string)
| Put (localpath remotepath : string) (content : bytes)
| CloseSftp
| CloseTransport.

(** [Op c None]: the primitive returned; [Op c (Some e)]: it raised [e]. *)
Inductive event : Type :=
| Log (lvl : level) (msg : string)
| Op (c : call) (r : option pyexc).

Record CompletedProcess : Type := {
  returncode : Z;
  stdout : option string;
  stderr : option string
}.

(** Why a process could not be started. *)
Inductive launch_error : Type :=
| NotFound
| LaunchFailed (what : string).

Definition launch_exc (l : launch_error) : pyexc :=
  match l with
  | NotFound => FileNotFoundError
  | LaunchFailed s => OtherException s
  end.

(** What a started process did: exit status, standard output, standard error. *)
Record ProcessRun : Type := { p_status : Z; p_out : string; p_err : string }.

(** The state the script runs in: the files on the SFTP server, the
    process environment [os.environ], and the local variables [transport]
    and [sftp] of [upload_repo] (whether they hold an object or [None]). *)
Record World : Type := {
  remote : gmap string rnode;
  environ : environ_t;
  transport : bool;
  sftp : bool
}.

(** The machine and the network the script runs against.  [spawn] and
    [fault] see the events so far (oldest first), so any deterministic
    behaviour of the external tools and of the connection can be expressed. *)
Record Env : Type := {
  script_dir : string;
  os_path_abspath : string -> string;
  local_fs : string -> option node;
  have_paramiko : bool;
  spawn : list event -> list string -> launch_error + ProcessRun;
  fault : list event -> call -> option pyexc
}.

(** ** The monad *)

(** A computation reads the history of events and the world, and returns
    its outcome, the new world and the events it performed. *)
Definition Py (A : Type) : Type := list event -> World -> outcome A * World * list event.

Definition ret {A} (a : A) : Py A := fun _ w => (Ok a, w, []).

Definition bind {A B} (m : Py A) (k : A -> Py B) : Py B :=
  fun h w =>
    match m h w with
    | (Ok a, w1, t1) =>
        match k a (h ++ t1) w1 with
        | (r, w2, t2) => (r, w2, t1 ++ t2)
        end
    | (Raise r, w1, t1) => (Raise r, w1, t1)
    end.

Notation "x <- m ;; k" := (bind m (fun x => k))
  (at level 100, m at next level, k at level 200, right associativity).
Notation "m ;; k" := (bind m (fun _ => k))
  (at level 100, k at level 200, right associativity).

Definition throw {A} (r : raised) : Py A := fun _ w => (Raise r, w, []).

(** [raise e] for an exception and [sys.exit(code)] *)
Definition raise_exc {A} (e : pyexc) : Py A := throw (Exc e).
Definition sys_exit {A} (code : Z) : Py A := throw (SystemExit code).

(** [try: m  except Exception as e: handler e] *)
Definition try_except {A} (m : Py A) (handler : pyexc -> Py A) : Py A :=
  fun h w =>
    match m h w with
    | (Raise (Exc e), w1, t1) =>
        match handler e (h ++ t1) w1 with
        | (r, w2, t2) => (r, w2, t1 ++ t2)
        end
    | r => r
    end.

(** [try: m  except: pass] (a bare except catches everything). *)
Definition try_pass (m : Py unit) : Py unit :=
  fun h w =>
    match m h w with
    | (_, w1, t1) => (Ok tt, w1, t1)
    end.

(** [try: m  finally: f] *)
Definition try_finally {A} (m : Py A) (f : Py unit) : Py A :=
  fun h w =>
    match m h w with
    | (r, w1, t1) =>
        match f (h ++ t1) w1 with
        | (Ok _, w2, t2) => (r, w2, t1 ++ t2)
        | (Raise x, w2, t2) => (Raise x, w2, t1 ++ t2)
        end
    end.

Definition for_each {A} (body : A -> Py unit) : list A -> Py unit :=
  fix go (l : list A) : Py unit :=
    match l with
    | [] => ret tt
    | x :: xs => body x ;; go xs
    end.

Definition log (lvl : level) (msg : string) : Py unit :=
  fun _ w => (Ok tt, w, [Log lvl msg]).

(** [os.environ[k] = v] *)
Fixpoint env_set (k v : string) (e : environ_t) : environ_t :=
  match e with
  | [] => [(k, v)]
  | (k', v') :: e' => if String.eqb k k' then (k, v) :: e' else (k', v') :: env_set k v e'
  end.

Definition set_environ (k v : string) : Py unit :=
  fun _ w => (Ok tt, {| remote := remote w; environ := env_set k v (environ w);
                        transport := transport w; sftp := sftp w |}, []).

Definition get_environ : Py environ_t := fun _ w => (Ok (environ w), w, []).

Definition set_transport (b : bool) : Py unit :=
  fun _ w => (Ok tt, {| remote := remote w; environ := environ w;
                        transport := b; sftp := sftp w |}, []).

Definition set_sftp (b : bool) : Py unit :=
  fun _ w => (Ok tt, {| remote := remote w; environ := environ w;
                        transport := transport w; sftp := b |}, []).

Definition get_transport : Py bool := fun _ w => (Ok (transport w), w, []).
Definition get_sftp : Py bool := fun _ w => (Ok (sftp w), w, []).

Definition set_remote (fs : gmap string rnode) (w : World) : World :=
  {| remote := fs; environ := environ w; transport := transport w; sftp := sftp w |}.

(** [str(e)] as it appears in the log messages. *)
Definition show_exc (e : pyexc) : string :=
  match e with
  | FileNotFoundError => "No such file"
  | CalledProcessError rc command _ =>
      "Command '" +:+ join_words command +:+ "' returned non-zero exit status " +:+ pretty rc
  | AuthenticationException => "Authentication failed."
  | SSHException => "SSH error"
  | OtherException s => s
  end.

(** ** The SFTP server *)

(** The server keeps one entry per path.  [stat] reports a missing path
    as [FileNotFoundError]; [mkdir] needs a free path below an existing
    directory; [put] needs an existing parent directory and replaces
    whatever file is at the path. *)
Definition srv_stat (fs : gmap string rnode) (p : string) : option pyexc :=
  match fs !! p with
  | Some _ => None
  | None => Some FileNotFoundError
  end.

Definition srv_mkdir (fs : gmap string rnode) (p : string) : option pyexc * gmap string rnode :=
  match fs !! p with
  | Some _ => (Some (OtherException "Failure"), fs)
  | None =>
      match fs !! dirname p with
      | Some RDir => (None, <[p := RDir]> fs)
      | _ => (Some FileNotFoundError, fs)
      end
  end.

Definition srv_put (fs : gmap string rnode) (p : string) (c : bytes) : option pyexc * gmap string rnode :=
  match fs !! p with
  | Some RDir => (Some (OtherException "Failure"), fs)
  | _ =>
      match fs !! dirname p with
      | Some RDir => (None, <[p := RFile c]> fs)
      | _ => (Some FileNotFoundError, fs)
      end
  end.

(** The exit status of the process when [main] ends with [r]: 0 when it
    returns, the argument of [sys.exit], 1 for an uncaught exception. *)
Definition exit_code (r : outcome unit) : Z :=
  match r with
  | Ok _ => 0
  | Raise (SystemExit c) => c
  | Raise (Exc _) => 1
  end.

Definition FAIL_RECIPES_WITHOUT_TRUST_INFO : string := "FAIL_RECIPES_WITHOUT_TRUST_INFO".

(** ** The methods of [AutoPkgRunner] *)

Section Runner.

Variable env : Env.
Variable config : Config.

(** A primitive of the connection: the environment may make it fail;
    otherwise the server decides. *)
Definition remote_call (c : call)
    (sem : gmap string rnode -> option pyexc * gmap string rnode) : Py unit :=
  fun h w =>
    match fault env h c with
    | Some e => (Raise (Exc e), w, [Op c (Some e)])
    | None =>
        let '(r, fs) := sem (remote w) in
        (match r with Some e => Raise (Exc e) | None => Ok tt end,
         set_remote fs w, [Op c r])
    end.

Definition no_effect (fs : gmap string rnode) : option pyexc * gmap string rnode := (None, fs).

Definition sftp_stat (path : string) : Py unit :=
  remote_call (Stat path) (fun fs => (srv_stat fs path, fs)).
Definition sftp_mkdir (path : string) : Py unit :=
  remote_call (Mkdir path) (fun fs => srv_mkdir fs path).
Definition sftp_put (localpath remotepath : string) (content : bytes) : Py unit :=
  remote_call (Put localpath remotepath content) (fun fs => srv_put fs remotepath content).

Definition os_path_exists (p : string) : bool :=
  match local_fs env p with Some _ => true | None => false end.

(** [subprocess.run(command, check=check, capture_output=capture_output,
    text=True)], with [env=child_env] when given. *)
Definition subprocess_run (command : list string) (check capture_output : bool)
    (child_env : option environ_t) : Py CompletedProcess :=
  fun h w =>
    let e := match child_env with Some e => e | None => environ w end in
    match spawn env h command with
    | inl err => (Raise (Exc (launch_exc err)), w, [Op (Spawn command e) (Some (launch_exc err))])
    | inr p =>
        let result := {| returncode := p_status p;
                         stdout := if capture_output then Some (p_out p) else None;
                         stderr := if capture_output then Some (p_err p) else None |} in
        if check && negb (p_status p =? 0)
        then (Raise (Exc (CalledProcessError (p_status p) command (stderr result))),
              w, [Op (Spawn command e) None])
        else (Ok result, w, [Op (Spawn command e) None])
    end.

Definition _run_command (command : list string) (check capture_output : bool)
    : Py (option CompletedProcess) :=
  try_except
    (log DEBUG ("Running command: " +:+ join_words command);;
     result <- subprocess_run command check capture_output None;;
     ret (Some result))
    (fun e =>
       match e with
       | CalledProcessError _ _ err =>
           log ERROR ("Command failed: " +:+ join_words command);;
           (match err with
            | Some s => if negb (String.eqb s "") then log ERROR ("Error output: " +:+ s) else ret tt
            | None => ret tt
            end);;
           if check then raise_exc e else ret None
       | FileNotFoundError =>
           log ERROR ("Command not found: " +:+ hd "" command);;
           log ERROR "Make sure AutoPkg is installed and in PATH";;
           sys_exit 1
       | _ => raise_exc e
       end).

(** The path resolution shared by [configure_munki_repo] and [upload_repo]. *)
Definition resolve_repo_path (repo_path : string) : string :=
  let repo_path :=
    if negb (os_path_isabs repo_path) then os_path_join (script_dir env) repo_path
    else repo_path in
  os_path_abspath env repo_path.

Definition configure_munki_repo : Py unit :=
  let repo_path := repo_path config in
  if negb (truthy repo_path) then
    log WARNING "No repo_path specified in config, skipping MUNKI_REPO configuration"
  else
    let repo_path := resolve_repo_path (default "" repo_path) in
    if negb (os_path_exists repo_path) then
      log WARNING ("MUNKI_REPO path does not exist: " +:+ repo_path);;
      log WARNING "Skipping MUNKI_REPO configuration"
    else
      log INFO ("Configuring MUNKI_REPO: " +:+ repo_path);;
      try_except
        (_run_command ["defaults"; "write"; "com.github.autopkg"; "MUNKI_REPO"; repo_path]
                      true false;;
         log INFO "MUNKI_REPO configured successfully")
        (fun e =>
           log ERROR ("Failed to configure MUNKI_REPO: " +:+ show_exc e);;
           raise_exc e).

Definition add_repository (repo : Repo) : Py unit :=
  let name := repo_name repo in
  let url := repo_url repo in
  if negb (truthy name) || negb (truthy url) then
    log WARNING "Skipping invalid repo entry"
  else
    let name := default "" name in
    let url := default "" url in
    log INFO ("Adding repository: " +:+ name +:+ " (" +:+ url +:+ ")");;
    try_except
      (result <- _run_command ["autopkg"; "repo-add"; name] false true;;
       match result with
       | Some r =>
           if negb (returncode r =? 0) then
             repo_list_result <- _run_command ["autopkg"; "repo-list"] true true;;
             match (match repo_list_result with Some l => stdout l | None => Some "" end) with
             | Some repo_list_output =>
                 if contains name repo_list_output || contains url repo_list_output then
                   log INFO ("Repository '" +:+ name +:+ "' is already added")
                 else
                   log WARNING ("Failed to add repository '" +:+ name +:+ "', may already exist")
             | None => raise_exc (OtherException "TypeError")
             end
           else
             log INFO ("Repository '" +:+ name +:+ "' added successfully");;
             if truthy (stdout r) then log DEBUG (default "" (stdout r)) else ret tt
       | None =>
           log INFO ("Repository '" +:+ name +:+ "' added successfully")
       end)
      (fun e => log ERROR ("Error adding repository '" +:+ name +:+ "': " +:+ show_exc e)).

Definition add_repositories : Py unit :=
  let repos := repos config in
  match repos with
  | [] => log WARNING "No repositories specified in config"
  | _ =>
      log INFO ("Adding " +:+ pretty (length repos) +:+ " repository(ies)...");;
      for_each add_repository repos
  end.

Definition configure_trust_info : Py unit :=
  log INFO "Configuring AutoPkg trust info preference...";;
  try_except
    (_run_command ["defaults"; "write"; "com.github.autopkg";
                   FAIL_RECIPES_WITHOUT_TRUST_INFO; "-bool"; "false"] true false;;
     set_environ FAIL_RECIPES_WITHOUT_TRUST_INFO "false";;
     log INFO "FAIL_RECIPES_WITHOUT_TRUST_INFO configured")
    (fun e => log WARNING ("Failed to configure trust info preference: " +:+ show_exc e)).

Definition run_recipe (child_env : environ_t) (recipe : string) : Py unit :=
  if String.eqb recipe "" then ret tt
  else
    log INFO ("Running recipe: " +:+ recipe);;
    try_except
      (result <- subprocess_run ["autopkg"; "run"; "-v"; recipe] false false (Some child_env);;
       if returncode result =? 0 then
         log INFO ("Recipe '" +:+ recipe +:+ "' completed successfully")
       else
         log ERROR ("Recipe '" +:+ recipe +:+ "' failed with exit code " +:+ pretty (returncode result)))
      (fun e => log ERROR ("Recipe '" +:+ recipe +:+ "' failed: " +:+ show_exc e)).

Definition run_recipes : Py unit :=
  let recipes := recipes config in
  match recipes with
  | [] => log WARNING "No recipes specified in config"
  | _ =>
      log INFO ("Running " +:+ pretty (length recipes) +:+ " recipe(s)...");;
      child_env <- get_environ;;
      let child_env := env_set FAIL_RECIPES_WITHOUT_TRUST_INFO "false" child_env in
      for_each (run_recipe child_env) recipes
  end.

(** The loop of [_ensure_remote_directory] over the parts of the path;
    [current_path] is the loop's variable of that name. *)
Fixpoint ensure_walk (parts : list string) (current_path : string) : Py unit :=
  match parts with
  | [] => ret tt
  | part :: rest =>
      if String.eqb part "" then ensure_walk rest current_path
      else
        let current_path :=
          if negb (String.eqb current_path "") then current_path +:+ "/" +:+ part
          else "/" +:+ part in
        try_except (sftp_stat current_path)
          (fun e =>
             match e with
             | FileNotFoundError =>
                 try_except
                   (sftp_mkdir current_path;;
                    log DEBUG ("Created remote directory: " +:+ current_path))
                   (fun e => log DEBUG ("Directory may already exist or mkdir failed: " +:+ show_exc e))
             | _ => raise_exc e
             end);;
        ensure_walk rest current_path
  end.

Definition _ensure_remote_directory (remote_dir : string) : Py unit :=
  try_except (sftp_stat remote_dir)
    (fun e =>
       match e with
       | FileNotFoundError => ensure_walk (split_slash (rstrip_slash remote_dir)) ""
       | _ => raise_exc e
       end).

(** [local] is what the local disk holds at [local_dir]; [os.listdir]
    of a plain file raises. *)
Fixpoint _upload_directory (local : node) (local_dir remote_dir : string) {struct local}
    : Py unit :=
  log INFO ("Uploading " +:+ local_dir +:+ " -> " +:+ remote_dir);;
  _ensure_remote_directory remote_dir;;
  match local with
  | File _ => raise_exc (OtherException "NotADirectoryError")
  | Dir entries =>
      for_each
        (fun entry : string * node =>
           let '(item, child) := entry in
           let local_path := os_path_join local_dir item in
           let remote_path := rstrip_slash remote_dir +:+ "/" +:+ item in
           match child with
           | Dir _ => _upload_directory child local_path remote_path
           | File content =>
               log DEBUG ("Uploading file: " +:+ local_path +:+ " -> " +:+ remote_path);;
               sftp_put local_path remote_path content;;
               log DEBUG ("Uploaded: " +:+ item)
           end)
        entries
  end.

Definition upload_repo : Py unit :=
  if negb (have_paramiko env) then
    log ERROR "paramiko library is required for SFTP upload";;
    log ERROR "Install it with: pip install paramiko";;
    sys_exit 1
  else
    let sftp_host := sftp_host config in
    let sftp_port := default 22 (sftp_port config) in
    let sftp_user := sftp_user config in
    let sftp_password := sftp_password config in
    if negb (truthy sftp_host && truthy sftp_user && truthy sftp_password) then
      log ERROR "Missing SFTP configuration (sftp_host, sftp_user, sftp_password required)";;
      sys_exit 1
    else
      let repo_path := repo_path config in
      if negb (truthy repo_path) then
        log ERROR "No repo_path specified in config";;
        sys_exit 1
      else
        let repo_path := resolve_repo_path (default "" repo_path) in
        match local_fs env repo_path with
        | None =>
            log ERROR ("Repository path does not exist: " +:+ repo_path);;
            sys_exit 1
        | Some local =>
            let sftp_host := default "" sftp_host in
            let sftp_user := default "" sftp_user in
            let sftp_password := default "" sftp_password in
            log INFO ("Connecting to SFTP server: " +:+ sftp_user +:+ "@" +:+ sftp_host
                        +:+ ":" +:+ pretty sftp_port);;
            log INFO "Authenticating with username/password from config file";;
            set_transport false;;
            set_sftp false;;
            try_finally
              (try_except
                 (remote_call (Connect sftp_host sftp_port) no_effect;;
                  set_transport true;;
                  remote_call StartClient no_effect;;
                  remote_call (AuthPassword sftp_user sftp_password) no_effect;;
                  remote_call OpenSftp no_effect;;
                  set_sftp true;;
                  log INFO "SFTP connection established";;
                  _upload_directory local repo_path "/";;
                  log INFO "Repository upload completed successfully")
                 (fun e =>
                    match e with
                    | AuthenticationException =>
                        log ERROR "SFTP authentication failed - check username/password in config";;
                        sys_exit 1
                    | SSHException =>
                        log ERROR ("SFTP connection error: " +:+ show_exc e);;
                        sys_exit 1
                    | _ =>
                        log ERROR ("SFTP upload failed: " +:+ show_exc e);;
                        sys_exit 1
                    end))
              (has_sftp <- get_sftp;;
               (if has_sftp then try_pass (remote_call CloseSftp no_effect) else ret tt);;
               has_transport <- get_transport;;
               (if has_transport then try_pass (remote_call CloseTransport no_effect) else ret tt))
        end.

Definition run : Py unit :=
  log INFO "Starting AutoPkg configuration and recipe execution...";;
  try_except
    (configure_munki_repo;;
     configure_trust_info;;
     add_repositories;;
     run_recipes;;
     log INFO "AutoPkg runner completed successfully")
    (fun e =>
       log ERROR ("AutoPkg runner failed: " +:+ show_exc e);;
       sys_exit 1).

(** [main] once the configuration is loaded: [--upload] selects the mode. *)
Definition main (upload : bool) : Py unit :=
  if upload then upload_repo else run.

End Runner.

(** ** Reading traces *)

(** The commands handed to [subprocess.run], in order. *)
Fixpoint spawned (t : list event) : list (list string) :=
  match t with
  | [] => []
  | Op (Spawn command _) _ :: t' => command :: spawned t'
  | _ :: t' => spawned t'
  end.

Definition is_log (e : event) : bool :=
  match e with
  | Log _ _ => true
  | Op _ _ => false
  end.

Definition recipe_command (recipe : string) : list string := ["autopkg"; "run"; "-v"; recipe].

(** The invocations [run_recipes] owes to a recipe list: one per
    non-empty entry, in the order of the list. *)
Definition recipe_commands (l : list string) : list (list string) :=
  map recipe_command (List.filter (fun r => negb (String.eqb r "")) l).

Definition valid_repo (r : Repo) : bool := truthy (repo_name r) && truthy (repo_url r).

Definition repo_add_command (r : Repo) : list string :=
  ["autopkg"; "repo-add"; default "" (repo_name r)].

Definition is_repo_add (command : list string) : bool :=
  match command with
  | [a; b; _] => String.eqb a "autopkg" && String.eqb b "repo-add"
  | _ => false
  end.

Definition is_recipe_run (command : list string) : bool :=
  match command with
  | [a; b; c; _] => String.eqb a "autopkg" && String.eqb b "run" && String.eqb c "-v"
  | _ => false
  end.

Definition is_defaults (command : list string) : bool :=
  String.eqb (hd "" command) "defaults".

(** The environment never reports a command as missing. *)
Definition commands_found (env : Env) : Prop :=
  forall h command, spawn env h command <> inl NotFound.

(** The registrations owed to a repository list: one per valid entry. *)
Definition repo_add_commands (l : list Repo) : list (list string) :=
  map repo_add_command (List.filter valid_repo l).

Definition munki_repo_command (path : string) : list string :=
  ["defaults"; "write"; "com.github.autopkg"; "MUNKI_REPO"; path].

Definition trust_info_command : list string :=
  ["defaults"; "write"; "com.github.autopkg"; FAIL_RECIPES_WITHOUT_TRUST_INFO; "-bool"; "false"].

(** The repository path is unset (or empty), or resolves to nothing on disk. *)
Definition repo_path_missing (env : Env) (config : Config) : Prop :=
  truthy (repo_path config) = false
  \/ local_fs env (resolve_repo_path env (default "" (repo_path config))) = None.

Definition is_warning (e : event) : bool :=
  match e with
  | Log WARNING _ => true
  | _ => false
  end.

(** The preference write fails in a way the script sees as an exception
    of class [Exception]: the command exits non-zero, or cannot be started
    for a reason other than being missing. *)
Definition write_fails (res : launch_error + ProcessRun) : Prop :=
  match res with
  | inl NotFound => False
  | inl (LaunchFailed _) => True
  | inr p => p_status p <> 0
  end.

(** ** Sample machines and configurations *)

Definition ok_run : ProcessRun := {| p_status := 0; p_out := ""; p_err := "" |}.

Definition failed_run (status : Z) : ProcessRun :=
  {| p_status := status; p_out := ""; p_err := "error" |}.

(** The tree [A/B/file.txt]. *)
Definition sample_tree : node :=
  Dir [("A", Dir [("B", Dir [("file.txt", File [Byte.x68; Byte.x69])])])].

Definition sample_local_fs (p : string) : option node :=
  if String.eqb p "/opt/autopkg/munki_repo" then Some sample_tree else None.

Definition sample_world : World :=
  {| remote := {[ "/" := RDir ]}; environ := []; transport := false; sftp := false |}.

(** Every command succeeds and the network never fails. *)
Definition healthy_env : Env :=
  {| script_dir := "/opt/autopkg";
     os_path_abspath := fun p => p;
     local_fs := sample_local_fs;
     have_paramiko := true;
     spawn := fun _ _ => inr ok_run;
     fault := fun _ _ => None |}.

(** A machine on which [autopkg] is not installed. *)
Definition env_without_autopkg : Env :=
  {| script_dir := "/opt/autopkg";
     os_path_abspath := fun p => p;
     local_fs := sample_local_fs;
     have_paramiko := true;
     spawn := fun _ command =>
                if String.eqb (hd "" command) "autopkg" then inl NotFound else inr ok_run;
     fault := fun _ _ => None |}.

(** A machine without the [defaults] command. *)
Definition env_without_defaults : Env :=
  {| script_dir := "/opt/autopkg";
     os_path_abspath := fun p => p;
     local_fs := sample_local_fs;
     have_paramiko := true;
     spawn := fun _ command =>
                if String.eqb (hd "" command) "defaults" then inl NotFound else inr ok_run;
     fault := fun _ _ => None |}.

(** Every command is found, and every one fails: [defaults] and
    [autopkg repo-add]/[repo-list] exit non-zero, recipes cannot be started. *)
Definition failing_env : Env :=
  {| script_dir := "/opt/autopkg";
     os_path_abspath := fun p => p;
     local_fs := sample_local_fs;
     have_paramiko := true;
     spawn := fun _ command =>
                if is_recipe_run command then inl (LaunchFailed "PermissionError")
                else inr (failed_run 1);
     fault := fun _ _ => None |}.

Definition repo_A : Repo := {| repo_name := Some "A"; repo_url := Some "https://example.org/A" |}.
Definition repo_B : Repo := {| repo_name := Some "B"; repo_url := Some "https://example.org/B" |}.

(** [repo_path: /nonexistent], two repositories, two recipes. *)
Definition config_nonexistent : Config :=
  {| repo_path := Some "/nonexistent";
     repos := [repo_A; repo_B];
     recipes := ["Firefox.munki"; "GoogleChrome.munki"];
     sftp_host := Some "sftp.example.org";
     sftp_port := Some 2222;
     sftp_user := Some "munki";
     sftp_password := Some "secret" |}.

(** [{repo_path: "/nonexistent", recipes: ["Firefox.munki"]}] *)
Definition config_one_recipe : Config :=
  {| repo_path := Some "/nonexistent";
     repos := [];
     recipes := ["Firefox.munki"];
     sftp_host := None;
     sftp_port := None;
     sftp_user := None;
     sftp_password := None |}.

(** [repo_path: munki_repo], relative to the script; no [sftp_port]. *)
Definition config_sample : Config :=
  {| repo_path := Some "munki_repo";
     repos := [repo_A; repo_B];
     recipes := ["Firefox.munki"; "GoogleChrome.munki"];
     sftp_host := Some "sftp.example.org";
     sftp_port := None;
     sftp_user := Some "munki";
     sftp_password := Some "secret" |}.

(** ** The upload as a run of the server *)

(** What the server does for a file-transfer primitive. *)
Definition srv_sem (c : call) (fs : gmap string rnode) : option (option pyexc * gmap string rnode) :=
  match c with
  | Stat p => Some (srv_stat fs p, fs)
  | Mkdir p => Some (srv_mkdir fs p)
  | Put _ p content => Some (srv_put fs p content)
  | _ => None
  end.

(** One event of a mirror, from server state [fs] after history [h]: a
    log line, a primitive the environment made fail, or a primitive the
    server answered. *)
Inductive sftp_step (env : Env) (h : list event) (fs : gmap string rnode)
  : event -> gmap string rnode -> Prop :=
| step_log lvl msg : sftp_step env h fs (Log lvl msg) fs
| step_fault c e r :
    srv_sem c fs = Some r -> fault env h c = Some e -> sftp_step env h fs (Op c (Some e)) fs
| step_served c r fs' :
    fault env h c = None -> srv_sem c fs = Some (r, fs') -> sftp_step env h fs (Op c r) fs'.

Inductive sftp_steps (env : Env)
  : list event -> gmap string rnode -> list event -> gmap string rnode -> Prop :=
| steps_nil h fs : sftp_steps env h fs [] fs
| steps_cons h fs e fs1 t fs2 :
    sftp_step env h fs e fs1 ->
    sftp_steps env (h ++ [e]) fs1 t fs2 ->
    sftp_steps env h fs (e :: t) fs2.

(** A computation that only logs and talks to the SFTP server. *)
Definition sftp_only {A} (env : Env) (m : Py A) : Prop :=
  forall h w r w' t,
    m h w = (r, w', t) ->
    sftp_steps env h (remote w) t (remote w')
    /\ environ w' = environ w /\ transport w' = transport w /\ sftp w' = sftp w.

(** The transfers attempted in a trace: remote path and bytes, in order. *)
Fixpoint puts (t : list event) : list (string * bytes) :=
  match t with
  | [] => []
  | Op (Put _ p content) _ :: t' => (p, content) :: puts t'
  | _ :: t' => puts t'
  end.

(** The exception of an event that ends the mirror: a failed transfer,
    or a probe that failed for another reason than the path being absent. *)
Definition fatal_exc (e : event) : option pyexc :=
  match e with
  | Op (Put _ _ _) (Some x) => Some x
  | Op (Stat _) (Some FileNotFoundError) => None
  | Op (Stat _) (Some x) => Some x
  | _ => None
  end.

Definition clean (t : list event) : Prop := Forall (fun e => fatal_exc e = None) t.

(** How a mirror ends: normally after a clean trace, or with the
    exception of a fatal event, which is then the last event. *)
Definition outcome_spec (r : outcome unit) (t : list event) : Prop :=
  match r with
  | Ok _ => clean t
  | Raise x =>
      exists t0 ev e, t = t0 ++ [ev] /\ clean t0 /\ fatal_exc ev = Some e /\ x = Exc e
  end.

(** ** Local trees and the paths they are mirrored to *)

(** A directory entry's name: non-empty, without a slash. *)
Definition valid_name (s : string) : bool := negb (String.eqb s "") && negb (has_slash s).

(** A tree as a file system has it: valid names, no name twice in a directory. *)
Fixpoint wf_node (n : node) : bool :=
  match n with
  | File _ => true
  | Dir entries =>
      bool_decide (NoDup (map fst entries))
      && forallb (fun e : string * node => valid_name (fst e) && wf_node (snd e)) entries
  end.

(** The files of a tree: the names on the way from the root, and the bytes. *)
Fixpoint tree_files (n : node) : list (list string * bytes) :=
  match n with
  | File _ => []
  | Dir entries =>
      flat_map
        (fun e : string * node =>
           match snd e with
           | File content => [([fst e], content)]
           | Dir _ => map (fun f : list string * bytes => (fst e :: fst f, snd f)) (tree_files (snd e))
           end)
        entries
  end.

(** The remote path of the entry reached by [names] below [remote_dir]. *)
Definition remote_under (remote_dir : string) (names : list string) : string :=
  fold_left (fun p name => p +:+ "/" +:+ name) names (rstrip_slash remote_dir).

(** What the mirror of [local] at [remote_dir] has to transfer, in order. *)
Definition expected_puts (local : node) (remote_dir : string) : list (string * bytes) :=
  map (fun f : list string * bytes => (remote_under remote_dir (fst f), snd f)) (tree_files local).

(** The body of the loop of [_upload_directory]. *)
Definition upload_entry (env : Env) (local_dir remote_dir : string) (entry : string * node)
    : Py unit :=
  let '(item, child) := entry in
  let local_path := os_path_join local_dir item in
  let remote_path := rstrip_slash remote_dir +:+ "/" +:+ item in
  match child with
  | Dir _ => _upload_directory env child local_path remote_path
  | File content =>
      log DEBUG ("Uploading file: " +:+ local_path +:+ " -> " +:+ remote_path);;
      sftp_put env local_path remote_path content;;
      log DEBUG ("Uploaded: " +:+ item)
  end.

(** A computation of the mirror whose failures are fatal events. *)
Definition mirror_like (m : Py unit) : Prop :=
  forall h w r w' t, m h w = (r, w', t) -> outcome_spec r t.

(** The names joined the way the script builds remote paths. *)
Fixpoint join_path (names : list string) : string :=
  match names with
  | [] => ""
  | name :: rest => "/" +:+ name +:+ join_path rest
  end.

Definition starts_with_slash (s : string) : bool :=
  match s with
  | String a _ => is_slash a
  | EmptyString => false
  end.

(** Every event a computation adds satisfies [Q]. *)
Definition only_events {A} (Q : event -> bool) (m : Py A) : Prop :=
  forall h w r w' t, m h w = (r, w', t) -> forallb Q t = true.

(** The events of [_ensure_remote_directory]: log lines, probes, creations. *)
Definition is_ensure_event (e : event) : bool :=
  match e with
  | Log _ _ | Op (Stat _) _ | Op (Mkdir _) _ => true
  | _ => false
  end.

(** What the mirror of one directory entry has to transfer. *)
Definition entry_puts (remote_dir : string) (entry : string * node) : list (string * bytes) :=
  let remote_path := rstrip_slash remote_dir +:+ "/" +:+ fst entry in
  match snd entry with
  | File content => [(remote_path, content)]
  | Dir _ => expected_puts (snd entry) remote_path
  end.

(** The transfers attempted are the expected ones, in order: all of them
    when the computation returns, the first ones when it raises. *)
Definition puts_spec (r : outcome unit) (t : list event) (expected : list (string * bytes)) : Prop :=
  (r = Ok tt -> puts t = expected) /\ exists rest, expected = puts t ++ rest.

(** ** The upload session *)

(** The checks of [upload_repo] that precede the connection. *)
Definition upload_ready (env : Env) (config : Config) : bool :=
  have_paramiko env
  && (truthy (sftp_host config) && truthy (sftp_user config) && truthy (sftp_password config))
  && truthy (repo_path config)
  && os_path_exists env (resolve_repo_path env (default "" (repo_path config))).

(** The handlers of the [try] statement of [upload_repo]. *)
Definition session_handler (e : pyexc) : Py unit :=
  match e with
  | AuthenticationException =>
      log ERROR "SFTP authentication failed - check username/password in config";;
      sys_exit 1
  | SSHException =>
      log ERROR ("SFTP connection error: " +:+ show_exc e);;
      sys_exit 1
  | _ =>
      log ERROR ("SFTP upload failed: " +:+ show_exc e);;
      sys_exit 1
  end.

(** Its [finally] clause. *)
Definition session_finally (env : Env) : Py unit :=
  has_sftp <- get_sftp;;
  (if has_sftp then try_pass (remote_call env CloseSftp no_effect) else ret tt);;
  has_transport <- get_transport;;
  (if has_transport then try_pass (remote_call env CloseTransport no_effect) else ret tt).

(** The part of [upload_repo] from [transport = None] on. *)
Definition sftp_session (env : Env) (host : string) (port : Z) (user password : string)
    (local : node) (path : string) : Py unit :=
  set_transport false;;
  set_sftp false;;
  try_finally
    (try_except
       (remote_call env (Connect host port) no_effect;;
        set_transport true;;
        remote_call env StartClient no_effect;;
        remote_call env (AuthPassword user password) no_effect;;
        remote_call env OpenSftp no_effect;;
        set_sftp true;;
        log INFO "SFTP connection established";;
        _upload_directory env local path "/";;
        log INFO "Repository upload completed successfully")
       session_handler)
    (session_finally env).

Definition connect_banner (config : Config) : list event :=
  [Log INFO ("Connecting to SFTP server: " +:+ default "" (sftp_user config) +:+ "@"
               +:+ default "" (sftp_host config) +:+ ":" +:+ pretty (default 22 (sftp_port config)));
   Log INFO "Authenticating with username/password from config file"].

Definition is_close (e : event) : bool :=
  match e with
  | Op CloseSftp _ | Op CloseTransport _ => true
  | _ => false
  end.

(** The file-transfer channel, the transport, was opened in this trace. *)
Definition opened_sftp (t : list event) : bool :=
  existsb (fun e => match e with Op OpenSftp None => true | _ => false end) t.

Definition opened_transport (t : list event) : bool :=
  existsb (fun e => match e with Op (Connect _ _) None => true | _ => false end) t.

(** The close calls owed after [work], with whatever they answer. *)
Definition closing (env : Env) (h work : list event) : list event :=
  let first :=
    if opened_sftp work then [Op CloseSftp (fault env (h ++ work) CloseSftp)] else [] in
  first ++
  (if opened_transport work
   then [Op CloseTransport (fault env ((h ++ work) ++ first) CloseTransport)] else []).

(** An event of the mirror proper. *)
Definition is_mirror_event (e : event) : bool :=
  match e with
  | Log _ _ | Op (Stat _) _ | Op (Mkdir _) _ | Op (Put _ _ _) _ => true
  | _ => false
  end.

(** A primitive that reaches the network. *)
Definition is_network (e : event) : bool :=
  match e with
  | Op (Spawn _ _) _ | Log _ _ => false
  | Op _ _ => true
  end.

(** The [try]/[except] part of the session: everything before [finally]. *)
Definition session_work (env : Env) (host : string) (port : Z) (user password : string)
    (local : node) (path : string) : Py unit :=
  try_except
    (remote_call env (Connect host port) no_effect;;
     set_transport true;;
     remote_call env StartClient no_effect;;
     remote_call env (AuthPassword user password) no_effect;;
     remote_call env OpenSftp no_effect;;
     set_sftp true;;
     log INFO "SFTP connection established";;
     _upload_directory env local path "/";;
     log INFO "Repository upload completed successfully")
    session_handler.

(** The world the mirror starts in: both handles set. *)
Definition connected (w : World) : World :=
  {| remote := remote w; environ := environ w; transport := true; sftp := true |}.

(** The events of a session that reaches the mirror, before the mirror. *)
Definition session_prefix (host : string) (port : Z) (user password : string) : list event :=
  [Op (Connect host port) None; Op StartClient None; Op (AuthPassword user password) None;
   Op OpenSftp None; Log INFO "SFTP connection established"].

(** The world once [transport = None] and [sftp = None] are executed. *)
Definition disconnected (w : World) : World :=
  {| remote := remote w; environ := environ w; transport := false; sftp := false |}.

Definition is_put (e : event) : bool :=
  match e with
  | Op (Put _ _ _) _ => true
  | _ => false
  end.

(** What the local disk holds at the repository path is a well-formed tree. *)
Definition wf_local (env : Env) (config : Config) : Prop :=
  forall local,
    local_fs env (resolve_repo_path env (default "" (repo_path config))) = Some local ->
    wf_node local = true.

(** Two files at the top and one below a directory. *)
Definition sample_tree2 : node :=
  Dir [("a.txt", File [Byte.x61]);
       ("pkgs", Dir [("b.pkg", File [Byte.x62]); ("c.pkg", File [Byte.x63])]);
       ("z.txt", File [Byte.x7a])].

Definition sample_local_fs2 (p : string) : option node :=
  if String.eqb p "/opt/autopkg/munki_repo" then Some sample_tree2 else None.

(** A connection on which the transfer to [/pkgs/b.pkg] breaks. *)
Definition env_broken_transfer : Env :=
  {| script_dir := "/opt/autopkg";
     os_path_abspath := fun p => p;
     local_fs := sample_local_fs2;
     have_paramiko := true;
     spawn := fun _ _ => inr ok_run;
     fault := fun _ c =>
                match c with
                | Put _ p _ => if String.eqb p "/pkgs/b.pkg" then Some (OtherException "IOError") else None
                | _ => None
                end |}.

(** A server that rejects the password, on a connection whose close
    calls raise. *)
Definition env_auth_rejected : Env :=
  {| script_dir := "/opt/autopkg";
     os_path_abspath := fun p => p;
     local_fs := sample_local_fs;
     have_paramiko := true;
     spawn := fun _ _ => inr ok_run;
     fault := fun _ c =>
                match c with
                | AuthPassword _ _ => Some AuthenticationException
                | CloseSftp | CloseTransport => Some (OtherException "EOFError")
                | _ => None
                end |}.

(** ** Ensuring a remote directory *)

(** A probe fails only by reporting the path absent. *)
Definition stat_faults_absent (env : Env) : Prop :=
  forall h p e, fault env h (Stat p) = Some e -> e = FileNotFoundError.

(** The connection never fails by itself: the server alone decides. *)
Definition fault_free (env : Env) : Prop := forall h c, fault env h c = None.

(** Every creation attempt directly follows a probe of the same path that
    reported it absent; [prev] is the event before [t]. *)
Fixpoint probed (prev : option event) (t : list event) : bool :=
  match t with
  | [] => true
  | e :: t' =>
      match e with
      | Op (Mkdir p) _ =>
          match prev with
          | Some (Op (Stat p') (Some FileNotFoundError)) => String.eqb p p'
          | _ => false
          end
      | _ => true
      end && probed (Some e) t'
  end.

(** A server on which every probe reports the path absent and every
    creation is refused, as when another run creates the directories at
    the same time. *)
Definition env_racing : Env :=
  {| script_dir := "/opt/autopkg";
     os_path_abspath := fun p => p;
     local_fs := sample_local_fs;
     have_paramiko := true;
     spawn := fun _ _ => inr ok_run;
     fault := fun _ c =>
                match c with
                | Stat _ => Some FileNotFoundError
                | Mkdir _ => Some (OtherException "Failure")
                | _ => None
                end |}.

(** A server that already holds [/repo] and [/repo/A]. *)
Definition world_partial : World :=
  {| remote := <["/repo/A" := RDir]> (<["/repo" := RDir]> {[ "/" := RDir ]});
     environ := []; transport := true; sftp := true |}.

(** ** Parents before children *)

(** The path an event creates on the server, or transfers to. *)
Definition creates (e : event) : option string :=
  match e with
  | Op (Mkdir q) _ => Some q
  | Op (Put _ q _) _ => Some q
  | _ => None
  end.

(** The event ensures directory [p]: a probe found it, or its creation
    was attempted. *)
Definition ensures (p : string) (e : event) : bool :=
  match e with
  | Op (Stat p') None => String.eqb p p'
  | Op (Mkdir p') _ => String.eqb p p'
  | _ => false
  end.

(** Every path created or transferred to in [t], unless it lies directly
    below the server root, comes after an event, in [pre] or earlier in
    [t], that ensured its parent directory. *)
Fixpoint parents_first (pre t : list event) : bool :=
  match t with
  | [] => true
  | e :: t' =>
      match creates e with
      | Some q => String.eqb (dirname q) "/" || existsb (ensures (dirname q)) pre
      | None => true
      end && parents_first (pre ++ [e]) t'
  end.

(** The absolute path with the given components. *)
Definition abs_path (names : list string) : string :=
  match names with
  | [] => "/"
  | _ => join_path names
  end.

(** The path the loop of [_ensure_remote_directory] ends with. *)
Fixpoint walk_final (parts : list string) (current_path : string) : string :=
  match parts with
  | [] => current_path
  | part :: rest =>
      if String.eqb part "" then walk_final rest current_path
      else walk_final rest
             (if negb (String.eqb current_path "") then current_path +:+ "/" +:+ part
              else "/" +:+ part)
  end.

(** The events of a trace that create a path or transfer to one. *)
Definition mutations (t : list event) : list event :=
  List.filter (fun e => match creates e with Some _ => true | None => false end) t.

(** What the loop of [_ensure_remote_directory] relies on at each step:
    the path built so far has no trailing slash and was ensured. *)
Definition walk_inv (current_path : string) (pre : list event) : Prop :=
  current_path <> "" ->
  ends_with_slash current_path = false /\ existsb (ensures current_path) pre = true.

(** ** Loading the configuration and the command line *)

(** [os.environ.get(k)] *)
Fixpoint env_get (k : string) (e : environ_t) : option string :=
  match e with
  | [] => None
  | (k', v) :: e' => if String.eqb k k' then Some v else env_get k e'
  end.

(** What [_load_config] finds at the path: no file, a file [yaml.safe_load]
    rejects, a file that cannot be read, or a document.  [Loaded None] is a
    document that is not a mapping (an empty file loads as [None]): it has
    no [get] method. *)
Inductive config_file : Type :=
| NoFile
| BadYaml (msg : string)
| Unreadable (msg : string)
| Loaded (document : option Config).

(** The disk as [__init__] sees it: [path_str p] is [str(Path(p))]. *)
Record Loader : Type := {
  path_str : string -> string;
  read_config : string -> config_file
}.

(** The parsed command line: [--upload] and [--config]. *)
Record Args : Type := { arg_upload : bool; arg_config : option string }.

Definition attribute_error : pyexc :=
  OtherException "'NoneType' object has no attribute 'get'".

(** [AutoPkgRunner._load_config] *)
Definition _load_config (loader : Loader) (config_path : string) : Py (option Config) :=
  match read_config loader config_path with
  | NoFile =>
      log ERROR ("Config file not found: " +:+ config_path);;
      sys_exit 1
  | BadYaml msg =>
      log ERROR ("Error parsing YAML config: " +:+ msg);;
      sys_exit 1
  | Unreadable msg =>
      log ERROR ("Error loading config: " +:+ msg);;
      sys_exit 1
  | Loaded document =>
      log INFO ("Loaded configuration from " +:+ config_path);;
      ret document
  end.

(** [run] for the loaded document: on a document without [get], the
    first [self.config.get] of [configure_munki_repo] raises inside the
    [try] of [run]. *)
Definition run_loaded (env : Env) (document : option Config) : Py unit :=
  match document with
  | Some config => run env config
  | None =>
      log INFO "Starting AutoPkg configuration and recipe execution...";;
      try_except (raise_exc attribute_error)
        (fun e =>
           log ERROR ("AutoPkg runner failed: " +:+ show_exc e);;
           sys_exit 1)
  end.

(** [upload_repo] for the loaded document: the [paramiko] check comes
    before the first [self.config.get], which no handler encloses. *)
Definition upload_loaded (env : Env) (document : option Config) : Py unit :=
  match document with
  | Some config => upload_repo env config
  | None =>
      if negb (have_paramiko env) then
        log ERROR "paramiko library is required for SFTP upload";;
        log ERROR "Install it with: pip install paramiko";;
        sys_exit 1
      else raise_exc attribute_error
  end.

(** [main], from the parsed arguments on. *)
Definition main_cli (env : Env) (loader : Loader) (args : Args) : Py unit :=
  let config_path :=
    if truthy (arg_config args) then path_str loader (default "" (arg_config args))
    else path_str loader (os_path_join (script_dir env) "config.yaml") in
  document <- _load_config loader config_path;;
  if arg_upload args then upload_loaded env document else run_loaded env document.

Definition is_spawn (e : event) : bool :=
  match e with
  | Op (Spawn _ _) _ => true
  | _ => false
  end.

(** The environments handed to the child processes, in order. *)
Fixpoint child_envs (t : list event) : list environ_t :=
  match t with
  | [] => []
  | Op (Spawn _ e) _ :: t' => e :: child_envs t'
  | _ :: t' => child_envs t'
  end.

Definition is_error (e : event) : bool :=
  match e with
  | Log ERROR _ => true
  | _ => false
  end.

(** The recipe invocation did not return status 0. *)
Definition recipe_fails (tool : list string -> launch_error + ProcessRun) (recipe : string) : bool :=
  match tool (recipe_command recipe) with
  | inr p => negb (p_status p =? 0)
  | inl _ => true
  end.

(** The paths below [base] on the way to [base/names]. *)
Fixpoint path_prefixes (base : string) (names : list string) : list string :=
  match names with
  | [] => []
  | name :: rest => (base +:+ "/" +:+ name) :: path_prefixes (base +:+ "/" +:+ name) rest
  end.

(** The path a probe or a creation of the trace is about. *)
Definition ensure_path (e : event) : option string :=
  match e with
  | Op (Stat p) _ | Op (Mkdir p) _ => Some p
  | _ => None
  end.

(** A loader for the sample machine: [config.yaml] beside the script
    holds [config_sample]; [empty.yaml] is an empty file. *)
Definition sample_loader : Loader :=
  {| path_str := fun p => p;
     read_config := fun p =>
       if String.eqb p "/opt/autopkg/config.yaml" then Loaded (Some config_sample)
       else if String.eqb p "/etc/empty.yaml" then Loaded None
       else if String.eqb p "/etc/broken.yaml" then BadYaml "mapping values are not allowed here"
       else NoFile |}.

(** A server whose tool answers by the command alone: [autopkg repo-add]
    exits 1 and [autopkg repo-list] prints the repositories it knows. *)
Definition env_listed (listing : string) : Env :=
  {| script_dir := "/opt/autopkg";
     os_path_abspath := fun p => p;
     local_fs := sample_local_fs;
     have_paramiko := true;
     spawn := fun _ command =>
                if is_repo_add command then inr (failed_run 1)
                else inr {| p_status := 0; p_out := listing; p_err := "" |};
     fault := fun _ _ => None |}.

(** The repository path of this machine is a plain file. *)
Definition env_file_repo : Env :=
  {| script_dir := "/opt/autopkg";
     os_path_abspath := fun p => p;
     local_fs := fun p => if String.eqb p "/opt/autopkg/munki_repo" then Some (File []) else None;
     have_paramiko := true;
     spawn := fun _ _ => inr ok_run;
     fault := fun _ _ => None |}.

(** The commands the registration loop may start for a repository list:
    [autopkg repo-list], or [autopkg repo-add] for a valid entry. *)
Definition registration_command (l : list Repo) (c : list string) : Prop :=
  c = ["autopkg"; "repo-list"]
  \/ exists repo, In repo l /\ valid_repo repo = true /\ c = repo_add_command repo.


(** An event of the machine the script runs on: a log line or a child
    process. *)
Definition is_local_event (e : event) : bool := is_log e || is_spawn e.

(** A computation that stays on the machine: it leaves the server and
    the connection state alone, performs local events only, and ends the
    process with status 1 if at all. *)
Definition local_only {A} (m : Py A) : Prop :=
  forall h w r w' t, m h w = (r, w', t) ->
    remote w' = remote w /\ transport w' = transport w /\ sftp w' = sftp w
    /\ forallb is_local_event t = true
    /\ forall c, r = Raise (SystemExit c) -> c = 1.

(** A file operation on the server: a probe, a creation or a transfer. *)
Definition is_file_op (e : event) : bool :=
  match e with
  | Op (Stat _) _ | Op (Mkdir _) _ | Op (Put _ _ _) _ => true
  | _ => false
  end.

(** A computation that starts no process and leaves the process
    environment alone. *)
Definition no_process {A} (m : Py A) : Prop :=
  forall h w r w' t, m h w = (r, w', t) -> environ w' = environ w /\ spawned t = [].

(** The components [_ensure_remote_directory] walks through: those of
    [remote_dir.rstrip('/').split('/')] that are not empty. *)
Definition path_parts (remote_dir : string) : list string :=
  List.filter (fun s => negb (String.eqb s "")) (split_slash (rstrip_slash remote_dir)).

(** The path [main] hands to [AutoPkgRunner]: [--config] when given and
    not empty, else [config.yaml] beside the script. *)
Definition chosen_config_path (env : Env) (loader : Loader) (args : Args) : string :=
  if truthy (arg_config args) then path_str loader (default "" (arg_config args))
  else path_str loader (os_path_join (script_dir env) "config.yaml").

(** ** A server ready for the mirror *)

(** The server holds nothing at the path with components [names], nor
    below it. *)
Definition fresh_below (fs : gmap string rnode) (names : list string) : Prop :=
  forall l, Forall (fun n => has_slash n = false) l -> fs !! join_path (names ++ l) = None.

(** From [fs] to [fs'], only paths at or below [names] changed. *)
Definition changes_below (fs fs' : gmap string rnode) (names : list string) : Prop :=
  forall q,
    (forall l, Forall (fun n => has_slash n = false) l -> q <> join_path (names ++ l)) ->
    fs' !! q = fs !! q.

(** The root, and the first [n] directories on the way to [names], are
    directories of the server. *)
Definition dirs_ready (fs : gmap string rnode) (names : list string) (n : nat) : Prop :=
  fs !! "/" = Some RDir
  /\ forall k, (0 < k <= n)%nat -> fs !! join_path (take k names) = Some RDir.

(** The server is ready for the mirror of [entries] at [names]: the
    parents of the directory exist, no plain file is in its place, and
    nothing is at or below the names of the entries. *)
Definition mirror_ready (fs : gmap string rnode) (names : list string)
    (entries : list (string * node)) : Prop :=
  dirs_ready fs names (length names - 1)
  /\ (forall c, fs !! abs_path names <> Some (RFile c))
  /\ forall item, In item (map fst entries) -> fresh_below fs (names ++ [item]).

(** The directories of a tree: the names on the way from the root, the
    root itself included. *)
Fixpoint tree_dirs (n : node) : list (list string) :=
  match n with
  | File _ => []
  | Dir entries =>
      [] :: flat_map
              (fun e : string * node => map (fun d => fst e :: d) (tree_dirs (snd e)))
              entries
  end.

(** The server already holds the shape of the tree at [names]: each of
    its directories is a directory, and no directory is where a file goes. *)
Definition holds_shape (fs : gmap string rnode) (names : list string) (local : node) : Prop :=
  (forall d, In d (tree_dirs local) -> fs !! abs_path (names ++ d) = Some RDir)
  /\ (forall f c, In (f, c) (tree_files local) -> fs !! join_path (names ++ f) <> Some RDir).

(** The server already holds the files of the tree at [names], with
    their bytes. *)
Definition holds_files (fs : gmap string rnode) (names : list string) (local : node) : Prop :=
  forall f c, In (f, c) (tree_files local) -> fs !! join_path (names ++ f) = Some (RFile c).

(** The server after a first mirror of [sample_tree2] to its root. *)
Definition world_mirrored : World :=
  snd (fst (_upload_directory healthy_env sample_tree2 "/opt/autopkg/munki_repo" "/" []
              sample_world)).

(** ** Basic facts about the monad *)

Lemma spawned_app (t1 t2 : list event) : spawned (t1 ++ t2) = spawned t1 ++ spawned t2.
Proof.
  induction t1 as [|e t1 IH]; [reflexivity|].
  destruct e as [l m|c r]; simpl; [exact IH|].
  destruct c; simpl; rewrite ?IH; reflexivity.
Qed.

Lemma bind_inv {A B} (m : Py A) (k : A -> Py B) h w r w' t :
  bind m k h w = (r, w', t) ->
  (exists a w1 t1 t2,
      m h w = (Ok a, w1, t1) /\ k a (h ++ t1) w1 = (r, w', t2) /\ t = t1 ++ t2)
  \/ (exists x, m h w = (Raise x, w', t) /\ r = Raise x).
Proof.
  unfold bind. destruct (m h w) as [[[a|x] w1] t1].
  - destruct (k a (h ++ t1) w1) as [[r2 w2] t2] eqn:Hk. intros [= <- <- <-].
    left. exists a, w1, t1, t2. auto.
  - intros [= <- <- <-]. right. exists x. auto.
Qed.

Lemma bind_ok {A B} (m : Py A) (k : A -> Py B) h w a w1 t1 r w2 t2 :
  m h w = (Ok a, w1, t1) ->
  k a (h ++ t1) w1 = (r, w2, t2) ->
  bind m k h w = (r, w2, t1 ++ t2).
Proof. intros Hm Hk. unfold bind. rewrite Hm, Hk. reflexivity. Qed.

Lemma bind_raise {A B} (m : Py A) (k : A -> Py B) h w x w1 t1 :
  m h w = (Raise x, w1, t1) ->
  bind m k h w = (Raise x, w1, t1).
Proof. intros Hm. unfold bind. rewrite Hm. reflexivity. Qed.

Lemma try_except_inv {A} (m : Py A) (handler : pyexc -> Py A) h w r w' t :
  try_except m handler h w = (r, w', t) ->
  (exists e w1 t1 t2,
      m h w = (Raise (Exc e), w1, t1) /\ handler e (h ++ t1) w1 = (r, w', t2) /\ t = t1 ++ t2)
  \/ (m h w = (r, w', t) /\ forall e, r <> Raise (Exc e)).
Proof.
  unfold try_except. destruct (m h w) as [[[a|[e|c]] w1] t1].
  - intros [= <- <- <-]. right. split; [reflexivity|discriminate].
  - destruct (handler e (h ++ t1) w1) as [[r2 w2] t2] eqn:Hh. intros [= <- <- <-].
    left. exists e, w1, t1, t2. auto.
  - intros [= <- <- <-]. right. split; [reflexivity|discriminate].
Qed.

Lemma try_except_caught {A} (m : Py A) (handler : pyexc -> Py A) h w e w1 t1 r w2 t2 :
  m h w = (Raise (Exc e), w1, t1) ->
  handler e (h ++ t1) w1 = (r, w2, t2) ->
  try_except m handler h w = (r, w2, t1 ++ t2).
Proof. intros Hm Hh. unfold try_except. rewrite Hm, Hh. reflexivity. Qed.

Lemma try_except_ok {A} (m : Py A) (handler : pyexc -> Py A) h w a w1 t1 :
  m h w = (Ok a, w1, t1) ->
  try_except m handler h w = (Ok a, w1, t1).
Proof. intros Hm. unfold try_except. rewrite Hm. reflexivity. Qed.

Lemma try_except_exit {A} (m : Py A) (handler : pyexc -> Py A) h w c w1 t1 :
  m h w = (Raise (SystemExit c), w1, t1) ->
  try_except m handler h w = (Raise (SystemExit c), w1, t1).
Proof. intros Hm. unfold try_except. rewrite Hm. reflexivity. Qed.

(** ** The recipe loop *)

Lemma run_recipe_spec (env : Env) (child_env : environ_t) (recipe : string) h w :
  exists t,
    run_recipe env child_env recipe h w = (Ok tt, w, t)
    /\ spawned t = recipe_commands [recipe].
Proof.
  unfold run_recipe, recipe_commands. simpl.
  destruct (String.eqb recipe "") eqn:He; simpl.
  - exists []. split; reflexivity.
  - unfold bind, try_except, subprocess_run, log. simpl.
    destruct (spawn env _ _) as [err|p]; simpl.
    + eexists. split; reflexivity.
    + destruct (p_status p =? 0); simpl; eexists; split; reflexivity.
Qed.

Lemma run_recipe_loop (env : Env) (child_env : environ_t) (l : list string) :
  forall h w, exists t,
    for_each (run_recipe env child_env) l h w = (Ok tt, w, t)
    /\ spawned t = recipe_commands l.
Proof.
  induction l as [|r l IH]; intros h w.
  - exists []. split; reflexivity.
  - destruct (run_recipe_spec env child_env r h w) as (t1 & H1 & S1).
    destruct (IH (h ++ t1) w) as (t2 & H2 & S2).
    exists (t1 ++ t2). split.
    + simpl. exact (bind_ok _ _ _ _ _ _ _ _ _ _ H1 H2).
    + rewrite spawned_app, S1, S2. unfold recipe_commands. simpl.
      destruct (String.eqb r ""); reflexivity.
Qed.

Lemma run_recipes_spec (env : Env) (config : Config) h w :
  exists t,
    run_recipes env config h w = (Ok tt, w, t)
    /\ spawned t = recipe_commands (recipes config).
Proof.
  unfold run_recipes. destruct (recipes config) as [|r l] eqn:Hr.
  - eexists. split; reflexivity.
  - destruct (run_recipe_loop env
               (env_set FAIL_RECIPES_WITHOUT_TRUST_INFO "false" (environ w)) (r :: l)
               ((h ++ [Log INFO ("Running " +:+ pretty (length (r :: l)) +:+ " recipe(s)...")]) ++ []) w)
      as (t & Ht & St).
    eexists. split.
    + eapply bind_ok; [reflexivity|].
      eapply bind_ok; [reflexivity|]. exact Ht.
    + simpl. exact St.
Qed.

(** ** Running an external command *)

Ltac case_spawn :=
  match goal with
  | |- context [spawn ?e ?h ?c] =>
      let E := fresh "Espawn" in
      destruct (spawn e h c) as [[|?]|?] eqn:E; simpl
  end.

Ltac found_absurd :=
  match goal with
  | F : commands_found ?e, E : spawn ?e ?h ?c = inl NotFound |- _ =>
      exfalso; exact (F h c E)
  end.

(** [_run_command] leaves the world alone, spawns exactly its command,
    and exits the process (status 1) exactly when the command is missing. *)
Lemma run_command_spec (env : Env) (command : list string) (check capture_output : bool) h w :
  exists r t,
    _run_command env command check capture_output h w = (r, w, t)
    /\ spawned t = [command]
    /\ (forall c, r = Raise (SystemExit c) ->
          c = 1 /\ spawn env (h ++ [Log DEBUG ("Running command: " +:+ join_words command)]) command
                   = inl NotFound)
    /\ (spawn env (h ++ [Log DEBUG ("Running command: " +:+ join_words command)]) command
          = inl NotFound -> r = Raise (SystemExit 1)).
Proof.
  unfold _run_command, try_except, bind, subprocess_run, log, ret, raise_exc, sys_exit, throw.
  simpl. case_spawn.
  - do 2 eexists. repeat split; try reflexivity; congruence.
  - do 2 eexists. repeat split; try reflexivity; discriminate.
  - destruct (check && negb (p_status p =? 0)) eqn:Hc; simpl.
    + destruct capture_output; simpl.
      * destruct (negb (p_err p =? "")%string); simpl;
          destruct check; simpl; do 2 eexists; repeat split; try reflexivity; discriminate.
      * destruct check; simpl; do 2 eexists; repeat split; try reflexivity; discriminate.
    + do 2 eexists. repeat split; try reflexivity; discriminate.
Qed.

(** ** Registering repositories *)

Lemma add_repository_spec (env : Env) (repo : Repo) h w :
  exists r t,
    add_repository env repo h w = (r, w, t)
    /\ (r = Ok tt \/ r = Raise (SystemExit 1))
    /\ (commands_found env -> r = Ok tt)
    /\ List.filter is_repo_add (spawned t)
       = (if valid_repo repo then [repo_add_command repo] else [])
    /\ List.filter is_recipe_run (spawned t) = []
    /\ List.filter is_defaults (spawned t) = [].
Proof.
  unfold add_repository, valid_repo, repo_add_command.
  destruct (truthy (repo_name repo)) eqn:Hn; simpl;
    [destruct (truthy (repo_url repo)) eqn:Hu; simpl|].
  2,3: do 2 eexists; repeat split; try reflexivity; auto.
  unfold _run_command, try_except, bind, subprocess_run, log, ret, raise_exc, sys_exit, throw.
  simpl. case_spawn.
  - do 2 eexists. repeat split; try reflexivity; auto. intros F. found_absurd.
  - do 2 eexists. repeat split; try reflexivity; auto.
  - destruct (p_status p =? 0) eqn:Hs; simpl.
    + destruct (negb (p_out p =? "")%string); simpl;
        do 2 eexists; repeat split; try reflexivity; auto.
    + case_spawn.
      * do 2 eexists. repeat split; try reflexivity; auto. intros F. found_absurd.
      * do 2 eexists. repeat split; try reflexivity; auto.
      * destruct (p_status p0 =? 0) eqn:Hs0; simpl.
        -- destruct (contains _ (p_out p0) || contains _ (p_out p0)); simpl;
             do 2 eexists; repeat split; try reflexivity; auto.
        -- destruct (negb (p_err p0 =? "")%string); simpl;
             do 2 eexists; repeat split; try reflexivity; auto.
Qed.

Lemma add_repository_loop (env : Env) (l : list Repo) :
  forall h w, exists r t,
    for_each (add_repository env) l h w = (r, w, t)
    /\ (r = Ok tt \/ r = Raise (SystemExit 1))
    /\ (commands_found env ->
          r = Ok tt /\ List.filter is_repo_add (spawned t) = repo_add_commands l)
    /\ List.filter is_recipe_run (spawned t) = []
    /\ List.filter is_defaults (spawned t) = [].
Proof.
  induction l as [|repo l IH]; intros h w.
  - exists (Ok tt), []. repeat split; auto.
  - destruct (add_repository_spec env repo h w) as (r1 & t1 & H1 & R1 & F1 & A1 & N1 & D1).
    destruct R1 as [-> | ->].
    + destruct (IH (h ++ t1) w) as (r2 & t2 & H2 & R2 & F2 & N2 & D2).
      exists r2, (t1 ++ t2). split; [exact (bind_ok _ _ _ _ _ _ _ _ _ _ H1 H2)|].
      split; [exact R2|]. split.
      * intros F. destruct (F2 F) as [-> A2]. split; [reflexivity|].
        rewrite spawned_app, List.filter_app, A1, A2. unfold repo_add_commands. simpl.
        destruct (valid_repo repo); reflexivity.
      * rewrite !spawned_app, !List.filter_app, N1, N2, D1, D2. split; reflexivity.
    + exists (Raise (SystemExit 1)), t1. split; [exact (bind_raise _ _ _ _ _ _ _ H1)|].
      split; [auto|]. split; [|split; assumption].
      intros F. specialize (F1 F). discriminate.
Qed.

Lemma add_repositories_spec (env : Env) (config : Config) h w :
  exists r t,
    add_repositories env config h w = (r, w, t)
    /\ (r = Ok tt \/ r = Raise (SystemExit 1))
    /\ (commands_found env ->
          r = Ok tt /\ List.filter is_repo_add (spawned t) = repo_add_commands (repos config))
    /\ List.filter is_recipe_run (spawned t) = []
    /\ List.filter is_defaults (spawned t) = [].
Proof.
  unfold add_repositories. destruct (repos config) as [|repo l] eqn:Hr.
  - do 2 eexists. repeat split; auto.
  - set (msg := Log INFO ("Adding " +:+ pretty (length (repo :: l)) +:+ " repository(ies)...")).
    destruct (add_repository_loop env (repo :: l) (h ++ [msg]) w)
      as (r & t & Ht & R & F & N & D).
    exists r, ([msg] ++ t). split; [eapply bind_ok; [reflexivity|exact Ht]|].
    repeat split; auto; apply F; assumption.
Qed.

(** ** The two preference steps *)

Lemma configure_munki_repo_skips (env : Env) (config : Config) h w :
  repo_path_missing env config ->
  exists t,
    configure_munki_repo env config h w = (Ok tt, w, t)
    /\ t <> [] /\ forallb is_warning t = true.
Proof.
  intros Hm. unfold configure_munki_repo.
  destruct (truthy (repo_path config)) eqn:Ht; simpl.
  - destruct Hm as [Hm|Hm]; [congruence|].
    unfold os_path_exists. rewrite Hm. simpl.
    eexists. split; [reflexivity|]. split; [simpl; congruence|reflexivity].
  - eexists. split; [reflexivity|]. split; [simpl; congruence|reflexivity].
Qed.

Lemma configure_trust_info_spec (env : Env) h w :
  exists r w' t,
    configure_trust_info env h w = (r, w', t)
    /\ (r = Ok tt \/ r = Raise (SystemExit 1))
    /\ (commands_found env -> r = Ok tt)
    /\ spawned t = [trust_info_command].
Proof.
  unfold configure_trust_info, _run_command, try_except, bind, subprocess_run, log, ret,
    raise_exc, sys_exit, throw, set_environ.
  simpl. case_spawn.
  - do 3 eexists. repeat split; auto. intros F. found_absurd.
  - do 3 eexists. repeat split; auto.
  - destruct (p_status p =? 0); simpl; do 3 eexists; repeat split; auto.
Qed.

Lemma recipe_commands_runs (l : list string) :
  List.filter is_recipe_run (recipe_commands l) = recipe_commands l.
Proof.
  unfold recipe_commands. induction (List.filter _ l) as [|r l' IH]; [reflexivity|].
  simpl. rewrite IH. reflexivity.
Qed.

Lemma recipe_commands_no_defaults (l : list string) :
  List.filter is_defaults (recipe_commands l) = [].
Proof.
  unfold recipe_commands. induction (List.filter _ l) as [|r l' IH]; [reflexivity|].
  simpl. exact IH.
Qed.

(** ** Default mode *)

Lemma run_ok (env : Env) (config : Config) h w w1 t1 w2 t2 w3 t3 w4 t4 :
  let h0 := h ++ [Log INFO "Starting AutoPkg configuration and recipe execution..."] in
  configure_munki_repo env config h0 w = (Ok tt, w1, t1) ->
  configure_trust_info env (h0 ++ t1) w1 = (Ok tt, w2, t2) ->
  add_repositories env config ((h0 ++ t1) ++ t2) w2 = (Ok tt, w3, t3) ->
  run_recipes env config (((h0 ++ t1) ++ t2) ++ t3) w3 = (Ok tt, w4, t4) ->
  run env config h w
  = (Ok tt, w4,
     [Log INFO "Starting AutoPkg configuration and recipe execution..."]
       ++ t1 ++ t2 ++ t3 ++ t4 ++ [Log INFO "AutoPkg runner completed successfully"]).
Proof.
  intros h0 H1 H2 H3 H4. unfold run.
  eapply bind_ok; [reflexivity|]. fold h0.
  eapply try_except_ok.
  eapply bind_ok; [exact H1|].
  eapply bind_ok; [exact H2|].
  eapply bind_ok; [exact H3|].
  eapply bind_ok; [exact H4|]. reflexivity.
Qed.

(** C5: a failing recipe (non-zero exit status, or an exception raised by
    the invocation, such as the tool not being found) never stops the loop:
    whatever the environment answers, [run_recipes] returns normally after
    invoking every non-empty recipe, in order.  And once the three earlier
    steps of [run] have returned, the run ends with exit status 0, the
    remaining events holding exactly those invocations. *)
Theorem C5_recipe_failures_isolated (env : Env) (config : Config) :
  (forall h w, exists t,
      run_recipes env config h w = (Ok tt, w, t)
      /\ spawned t = recipe_commands (recipes config))
  /\ (forall h w w3 t3,
        (configure_munki_repo env config;; configure_trust_info env;; add_repositories env config)
          (h ++ [Log INFO "Starting AutoPkg configuration and recipe execution..."]) w
        = (Ok tt, w3, t3) ->
        exists r w' t t4,
          main env config false h w = (r, w', t)
          /\ exit_code r = 0
          /\ t = Log INFO "Starting AutoPkg configuration and recipe execution..." :: t3 ++ t4
          /\ spawned t4 = recipe_commands (recipes config)).
Proof.
  split; [intros h w; apply run_recipes_spec|].
  intros h w w3 t3 H.
  set (h0 := h ++ [Log INFO "Starting AutoPkg configuration and recipe execution..."]) in *.
  apply bind_inv in H as [(a & w1 & t1 & t1' & H1 & H & ->)|(x & _ & [=])].
  apply bind_inv in H as [(b & w2 & t2 & t2' & H2 & H & ->)|(x & _ & [=])].
  destruct a, b.
  destruct (run_recipes_spec env config (((h0 ++ t1) ++ t2) ++ t2') w3) as (t4 & H4 & S4).
  exists (Ok tt), w3. do 2 eexists. split; [|split; [reflexivity|split]].
  - unfold main. exact (run_ok env config h w _ _ _ _ _ _ _ _ H1 H2 H H4).
  - simpl. rewrite <- !app_assoc. reflexivity.
  - rewrite spawned_app. simpl. rewrite app_nil_r. exact S4.
Qed.

(** C6 (amended): when no command is reported missing, every failure of a
    registration is confined to its entry: [add_repositories] returns
    normally and has invoked [autopkg repo-add] for every valid entry, in
    order.  In general the step either returns or ends the process with
    status 1 (the command was not found); it never raises. *)
Theorem C6_repository_isolation (env : Env) (config : Config) :
  (forall h w, exists r t,
      add_repositories env config h w = (r, w, t)
      /\ (r = Ok tt \/ r = Raise (SystemExit 1)))
  /\ (commands_found env ->
      forall h w, exists t,
        add_repositories env config h w = (Ok tt, w, t)
        /\ List.filter is_repo_add (spawned t) = repo_add_commands (repos config)).
Proof.
  split.
  - intros h w. destruct (add_repositories_spec env config h w) as (r & t & H & R & _).
    exists r, t. auto.
  - intros F h w. destruct (add_repositories_spec env config h w) as (r & t & H & _ & A & _).
    destruct (A F) as [-> A']. exists t. auto.
Qed.

(** C7 (amended): with the repository path unset or missing on disk,
    [configure_munki_repo] only logs warnings and returns; and when no
    command is reported missing, the run returns normally, having invoked
    every non-empty recipe, the only [defaults] write being the trust one. *)
Theorem C7_missing_repo_path_nonfatal (env : Env) (config : Config) :
  repo_path_missing env config ->
  (forall h w, exists t,
      configure_munki_repo env config h w = (Ok tt, w, t)
      /\ t <> [] /\ forallb is_warning t = true /\ spawned t = [])
  /\ (commands_found env ->
      forall h w, exists w' t,
        run env config h w = (Ok tt, w', t)
        /\ List.filter is_recipe_run (spawned t) = recipe_commands (recipes config)
        /\ List.filter is_defaults (spawned t) = [trust_info_command]).
Proof.
  intros Hm.
  assert (Hskip : forall h w, exists t,
      configure_munki_repo env config h w = (Ok tt, w, t)
      /\ t <> [] /\ forallb is_warning t = true /\ spawned t = []).
  { intros h w. destruct (configure_munki_repo_skips env config h w Hm) as (t & H & N & W).
    exists t. repeat split; auto.
    clear H N. induction t as [|[lvl msg|c r] t IH]; simpl in *; auto; try discriminate.
    apply IH. destruct lvl; auto; discriminate. }
  split; [exact Hskip|].
  intros F h w.
  set (h0 := h ++ [Log INFO "Starting AutoPkg configuration and recipe execution..."]).
  destruct (Hskip h0 w) as (t1 & H1 & _ & _ & S1).
  destruct (configure_trust_info_spec env (h0 ++ t1) w) as (r2 & w2 & t2 & H2 & _ & R2 & S2).
  rewrite (R2 F) in H2.
  destruct (add_repositories_spec env config ((h0 ++ t1) ++ t2) w2)
    as (r3 & t3 & H3 & _ & R3 & N3 & D3).
  destruct (R3 F) as [-> _].
  destruct (run_recipes_spec env config (((h0 ++ t1) ++ t2) ++ t3) w2) as (t4 & H4 & S4).
  exists w2. eexists. split; [|split].
  - exact (run_ok env config h w _ _ _ _ _ _ _ _ H1 H2 H3 H4).
  - simpl. rewrite !spawned_app, !List.filter_app, S1, S2, N3, S4. simpl.
    rewrite app_nil_r. apply recipe_commands_runs.
  - simpl. rewrite !spawned_app, !List.filter_app, S1, S2, D3, S4. simpl.
    rewrite app_nil_r, recipe_commands_no_defaults. reflexivity.
Qed.

Lemma C5_witness :
  exists r w' t,
    main failing_env config_nonexistent false [] sample_world = (r, w', t)
    /\ exit_code r = 0.
Proof.
  edestruct (proj2 (C5_recipe_failures_isolated failing_env config_nonexistent) [] sample_world)
    as (r & w' & t & t4 & Hm & He & _).
  - vm_compute. reflexivity.
  - exists r, w', t. split; [exact Hm|exact He].
Defined.

(** A machine without [autopkg]: registering [repo_A] ends the process
    with status 1, and [repo_B] is never tried. *)
Lemma C6_counterexample :
  exists t,
    add_repositories env_without_autopkg config_nonexistent [] sample_world
    = (Raise (SystemExit 1), sample_world, t)
    /\ In (repo_add_command repo_A) (spawned t)
    /\ ~ In (repo_add_command repo_B) (spawned t).
Proof.
  eexists. split; [vm_compute; reflexivity|]. split.
  - simpl. left. reflexivity.
  - simpl. intros [H|[]]. discriminate H.
Qed.

Lemma C6_witness :
  exists t,
    add_repositories failing_env config_nonexistent [] sample_world = (Ok tt, sample_world, t)
    /\ List.filter is_repo_add (spawned t) = repo_add_commands (repos config_nonexistent).
Proof.
  apply (proj2 (C6_repository_isolation failing_env config_nonexistent)).
  intros h command. simpl. destruct (is_recipe_run command); discriminate.
Defined.

(** The repository path does not exist and [autopkg] is not installed:
    the run ends with status 1 while registering the first repository and
    no recipe is invoked.  Likewise for the configuration with one recipe
    and no repository on a machine without [defaults]: the run ends in the
    trust step. *)
Lemma C7_counterexample :
  (repo_path_missing env_without_autopkg config_nonexistent
   /\ exists w' t,
       run env_without_autopkg config_nonexistent [] sample_world = (Raise (SystemExit 1), w', t)
       /\ List.filter is_recipe_run (spawned t) = []
       /\ recipe_commands (recipes config_nonexistent) <> [])
  /\ (repo_path_missing env_without_defaults config_one_recipe
      /\ exists w' t,
          run env_without_defaults config_one_recipe [] sample_world
          = (Raise (SystemExit 1), w', t)
          /\ List.filter is_recipe_run (spawned t) = []
          /\ recipe_commands (recipes config_one_recipe) <> []).
Proof.
  split; (split; [right; reflexivity|]);
    do 2 eexists; (split; [vm_compute; reflexivity|]); (split; [reflexivity|discriminate]).
Qed.

Lemma C7_witness :
  exists w' t,
    run failing_env config_nonexistent [] sample_world = (Ok tt, w', t)
    /\ List.filter is_recipe_run (spawned t) = recipe_commands (recipes config_nonexistent)
    /\ List.filter is_defaults (spawned t) = [trust_info_command].
Proof.
  refine (proj2 (C7_missing_repo_path_nonfatal failing_env config_nonexistent _) _ [] sample_world).
  - right. reflexivity.
  - intros h command. simpl. destruct (is_recipe_run command); discriminate.
Defined.

Lemma run_fatal (env : Env) (config : Config) h w x w1 t1 :
  configure_munki_repo env config
    (h ++ [Log INFO "Starting AutoPkg configuration and recipe execution..."]) w
  = (Raise x, w1, t1) ->
  exists t, run env config h w = (Raise (SystemExit 1), w1, t)
            /\ (x = SystemExit 1 \/ exists e, x = Exc e).
Proof.
  intros H. unfold run. destruct x as [e|c].
  - eexists. split; [|right; eauto].
    eapply bind_ok; [reflexivity|].
    eapply try_except_caught; [eapply bind_raise; exact H|]. reflexivity.
  - assert (c = 1) as ->.
    { unfold configure_munki_repo in H.
      destruct (negb (truthy (repo_path config))); [discriminate|].
      destruct (negb (os_path_exists env _)); [discriminate|].
      unfold _run_command, try_except, bind, subprocess_run, log, ret, raise_exc, sys_exit,
        throw in H.
      simpl in H.
      destruct (spawn env _ _) as [[|?]|p]; simpl in H; try congruence.
      destruct (p_status p =? 0); simpl in H; congruence. }
    eexists. split; [|left; reflexivity].
    eapply bind_ok; [reflexivity|].
    eapply try_except_exit. eapply bind_raise. exact H.
Qed.

Ltac use_failure Hf :=
  match goal with
  | E : spawn ?e ?h ?c = _ |- _ =>
      let Hw := fresh "Hw" in
      pose proof (Hf h) as Hw; rewrite E in Hw; simpl in Hw
  end.

(** C10 (amended): when the preference write exits non-zero or cannot be
    started for a reason other than being missing, [configure_munki_repo]
    raises and the run ends with status 1, while [configure_trust_info]
    logs a warning and returns.  When the command is missing, both steps
    end the process with status 1. *)
Theorem C10_preference_write_failures (env : Env) (config : Config) :
  let path := resolve_repo_path env (default "" (repo_path config)) in
  truthy (repo_path config) = true ->
  local_fs env path <> None ->
  ((forall h, write_fails (spawn env h (munki_repo_command path))) ->
     forall h w, exists e t t',
       configure_munki_repo env config h w = (Raise (Exc e), w, t)
       /\ main env config false h w = (Raise (SystemExit 1), w, t')
       /\ exit_code (Raise (SystemExit 1)) = 1)
  /\ ((forall h, write_fails (spawn env h trust_info_command)) ->
     forall h w, exists t,
       configure_trust_info env h w = (Ok tt, w, t) /\ existsb is_warning t = true)
  /\ ((forall h, spawn env h (munki_repo_command path) = inl NotFound) ->
     forall h w, exists t t',
       configure_munki_repo env config h w = (Raise (SystemExit 1), w, t)
       /\ main env config false h w = (Raise (SystemExit 1), w, t'))
  /\ ((forall h, spawn env h trust_info_command = inl NotFound) ->
     forall h w, exists t,
       configure_trust_info env h w = (Raise (SystemExit 1), w, t)
       /\ existsb is_warning t = false).
Proof.
  intros path Ht Hex.
  assert (Hraise : (forall h, write_fails (spawn env h (munki_repo_command path))) ->
            forall h w, exists e t, configure_munki_repo env config h w = (Raise (Exc e), w, t)).
  { intros Hf h w. unfold configure_munki_repo, os_path_exists. rewrite Ht. simpl. fold path.
    destruct (local_fs env path) eqn:El; [|congruence]. simpl.
    unfold munki_repo_command in Hf.
    unfold _run_command, try_except, bind, subprocess_run, log, ret, raise_exc, sys_exit, throw.
    simpl. case_spawn; use_failure Hf.
    - contradiction.
    - do 2 eexists. reflexivity.
    - destruct (p_status p =? 0) eqn:Hs; [apply Z.eqb_eq in Hs; contradiction|].
      simpl. do 2 eexists. reflexivity. }
  assert (Hexit : (forall h, spawn env h (munki_repo_command path) = inl NotFound) ->
            forall h w, exists t, configure_munki_repo env config h w = (Raise (SystemExit 1), w, t)).
  { intros Hf h w. unfold configure_munki_repo, os_path_exists. rewrite Ht. simpl. fold path.
    destruct (local_fs env path) eqn:El; [|congruence]. simpl.
    unfold munki_repo_command in Hf.
    unfold _run_command, try_except, bind, subprocess_run, log, ret, raise_exc, sys_exit, throw.
    simpl. rewrite Hf. simpl. eexists. reflexivity. }
  split; [|split; [|split]].
  - intros Hf h w. destruct (Hraise Hf h w) as (e & t & H).
    destruct (Hraise Hf (h ++ [Log INFO "Starting AutoPkg configuration and recipe execution..."]) w)
      as (e' & t0 & H0).
    destruct (run_fatal env config h w _ _ _ H0) as (t' & Hr & _).
    exists e, t, t'. auto.
  - intros Hf h w. unfold trust_info_command in Hf.
    unfold configure_trust_info, _run_command, try_except, bind, subprocess_run, log, ret,
      raise_exc, sys_exit, throw, set_environ.
    simpl. case_spawn; use_failure Hf.
    + contradiction.
    + eexists. split; reflexivity.
    + destruct (p_status p =? 0) eqn:Hs; [apply Z.eqb_eq in Hs; contradiction|].
      simpl. eexists. split; reflexivity.
  - intros Hf h w. destruct (Hexit Hf h w) as (t & H).
    destruct (Hexit Hf (h ++ [Log INFO "Starting AutoPkg configuration and recipe execution..."]) w)
      as (t0 & H0).
    destruct (run_fatal env config h w _ _ _ H0) as (t' & Hr & _).
    exists t, t'. auto.
  - intros Hf h w. unfold trust_info_command in Hf.
    unfold configure_trust_info, _run_command, try_except, bind, subprocess_run, log, ret,
      raise_exc, sys_exit, throw, set_environ.
    simpl. rewrite Hf. simpl. eexists. split; reflexivity.
Qed.

(** A machine without [defaults]: the trust step does not log a warning
    and continue, it ends the process with status 1; the run attempts no
    recipe. *)
Lemma C10_counterexample :
  (exists t,
     configure_trust_info env_without_defaults [] sample_world
     = (Raise (SystemExit 1), sample_world, t)
     /\ existsb is_warning t = false)
  /\ (exists t,
        run env_without_defaults config_nonexistent [] sample_world
        = (Raise (SystemExit 1), sample_world, t)
        /\ List.filter is_recipe_run (spawned t) = []).
Proof.
  split; eexists; (split; [vm_compute; reflexivity|reflexivity]).
Qed.

Lemma C10_witness :
  (exists e t t',
     configure_munki_repo failing_env config_sample [] sample_world = (Raise (Exc e), sample_world, t)
     /\ main failing_env config_sample false [] sample_world = (Raise (SystemExit 1), sample_world, t')
     /\ exit_code (Raise (SystemExit 1)) = 1)
  /\ (exists t,
        configure_trust_info failing_env [] sample_world = (Ok tt, sample_world, t)
        /\ existsb is_warning t = true).
Proof.
  destruct (C10_preference_write_failures failing_env config_sample) as (Ha & Hb & _).
  - reflexivity.
  - vm_compute. discriminate.
  - split.
    + apply Ha. intros h. vm_compute. discriminate.
    + apply Hb. intros h. vm_compute. discriminate.
Defined.

(** ** The mirror talks to the server only *)

Lemma node_ind (P : node -> Prop) :
  (forall content, P (File content)) ->
  (forall entries, Forall (fun e => P (snd e)) entries -> P (Dir entries)) ->
  forall n, P n.
Proof.
  intros Hf Hd. fix IH 1. intros [content|entries].
  - apply Hf.
  - apply Hd. induction entries as [|e entries IHe].
    + constructor.
    + constructor; [apply IH|exact IHe].
Qed.

Lemma upload_directory_eq (env : Env) (local : node) (local_dir remote_dir : string) :
  _upload_directory env local local_dir remote_dir
  = (log INFO ("Uploading " +:+ local_dir +:+ " -> " +:+ remote_dir);;
     _ensure_remote_directory env remote_dir;;
     match local with
     | File _ => raise_exc (OtherException "NotADirectoryError")
     | Dir entries => for_each (upload_entry env local_dir remote_dir) entries
     end).
Proof. destruct local; reflexivity. Qed.

Lemma sftp_steps_app (env : Env) h fs t1 fs1 t2 fs2 :
  sftp_steps env h fs t1 fs1 ->
  sftp_steps env (h ++ t1) fs1 t2 fs2 ->
  sftp_steps env h fs (t1 ++ t2) fs2.
Proof.
  intros H1. revert t2 fs2. induction H1 as [h fs|h fs e fs1 t fs2' Hs Ht IH]; intros t2 fs2 H2.
  - rewrite app_nil_r in H2. exact H2.
  - simpl. econstructor; [exact Hs|]. apply IH. rewrite <- app_assoc. exact H2.
Qed.

Lemma sftp_only_ret {A} (env : Env) (a : A) : sftp_only env (ret a).
Proof. intros h w r w' t [= <- <- <-]. repeat split. constructor. Qed.

Lemma sftp_only_throw {A} (env : Env) (x : raised) : sftp_only env (@throw A x).
Proof. intros h w r w' t [= <- <- <-]. repeat split. constructor. Qed.

Lemma sftp_only_log (env : Env) lvl msg : sftp_only env (log lvl msg).
Proof.
  intros h w r w' t [= <- <- <-]. repeat split.
  econstructor; constructor.
Qed.

Lemma sftp_only_bind {A B} (env : Env) (m : Py A) (k : A -> Py B) :
  sftp_only env m -> (forall a, sftp_only env (k a)) -> sftp_only env (bind m k).
Proof.
  intros Hm Hk h w r w' t H.
  apply bind_inv in H as [(a & w1 & t1 & t2 & H1 & H2 & ->)|(x & H1 & ->)].
  - destruct (Hm _ _ _ _ _ H1) as (S1 & E1 & T1 & F1).
    destruct (Hk a _ _ _ _ _ H2) as (S2 & E2 & T2 & F2).
    repeat split; try congruence. eapply sftp_steps_app; eassumption.
  - exact (Hm _ _ _ _ _ H1).
Qed.

Lemma sftp_only_try_except {A} (env : Env) (m : Py A) (handler : pyexc -> Py A) :
  sftp_only env m -> (forall e, sftp_only env (handler e)) -> sftp_only env (try_except m handler).
Proof.
  intros Hm Hk h w r w' t H.
  apply try_except_inv in H as [(e & w1 & t1 & t2 & H1 & H2 & ->)|[H1 _]].
  - destruct (Hm _ _ _ _ _ H1) as (S1 & E1 & T1 & F1).
    destruct (Hk e _ _ _ _ _ H2) as (S2 & E2 & T2 & F2).
    repeat split; try congruence. eapply sftp_steps_app; eassumption.
  - exact (Hm _ _ _ _ _ H1).
Qed.

Lemma sftp_only_for_each {A} (env : Env) (body : A -> Py unit) (l : list A) :
  Forall (fun x => sftp_only env (body x)) l -> sftp_only env (for_each body l).
Proof.
  induction 1 as [|x l Hx Hl IH]; simpl.
  - apply sftp_only_ret.
  - apply sftp_only_bind; [exact Hx|intros _; exact IH].
Qed.

Lemma sftp_only_remote_call (env : Env) (c : call) sem :
  (forall fs, srv_sem c fs = Some (sem fs)) -> sftp_only env (remote_call env c sem).
Proof.
  intros Hsem h w r w' t. unfold remote_call.
  destruct (fault env h c) as [e|] eqn:Hf.
  - intros [= <- <- <-]. repeat split.
    econstructor; [|constructor]. eapply step_fault; [apply Hsem|exact Hf].
  - specialize (Hsem (remote w)). destruct (sem (remote w)) as [o fs] eqn:Hs.
    intros [= <- <- <-]. repeat split.
    econstructor; [|constructor]. eapply step_served; [exact Hf|exact Hsem].
Qed.

Lemma sftp_only_stat (env : Env) p : sftp_only env (sftp_stat env p).
Proof. apply sftp_only_remote_call. reflexivity. Qed.

Lemma sftp_only_mkdir (env : Env) p : sftp_only env (sftp_mkdir env p).
Proof. apply sftp_only_remote_call. reflexivity. Qed.

Lemma sftp_only_put (env : Env) l p c : sftp_only env (sftp_put env l p c).
Proof. apply sftp_only_remote_call. reflexivity. Qed.

Create HintDb sftp.
#[export] Hint Resolve sftp_only_ret sftp_only_throw sftp_only_log sftp_only_bind
  sftp_only_try_except sftp_only_stat sftp_only_mkdir sftp_only_put : sftp.

Lemma sftp_only_ensure_walk (env : Env) (parts : list string) :
  forall current_path, sftp_only env (ensure_walk env parts current_path).
Proof.
  induction parts as [|part rest IH]; intros current_path; simpl.
  - auto with sftp.
  - destruct (String.eqb part ""); [apply IH|].
    apply sftp_only_bind; [|intros _; apply IH].
    apply sftp_only_try_except; [auto with sftp|].
    intros e. destruct e; unfold raise_exc; auto 6 with sftp.
Qed.

Lemma sftp_only_ensure (env : Env) (remote_dir : string) :
  sftp_only env (_ensure_remote_directory env remote_dir).
Proof.
  unfold _ensure_remote_directory. apply sftp_only_try_except; [auto with sftp|].
  intros e. destruct e; unfold raise_exc; auto using sftp_only_ensure_walk with sftp.
Qed.

Lemma sftp_only_upload (env : Env) (local : node) :
  forall local_dir remote_dir, sftp_only env (_upload_directory env local local_dir remote_dir).
Proof.
  induction local as [content|entries IH] using node_ind; intros local_dir remote_dir;
    rewrite upload_directory_eq.
  - unfold raise_exc. auto using sftp_only_ensure with sftp.
  - apply sftp_only_bind; [auto with sftp|intros _].
    apply sftp_only_bind; [apply sftp_only_ensure|intros _].
    apply sftp_only_for_each.
    induction IH as [|[item child] entries Hc _ IHe]; constructor; [|exact IHe].
    unfold upload_entry. destruct child; [auto 6 with sftp|apply Hc].
Qed.

(** ** What the server keeps *)

Lemma puts_app (t1 t2 : list event) : puts (t1 ++ t2) = puts t1 ++ puts t2.
Proof.
  induction t1 as [|e t1 IH]; [reflexivity|].
  destruct e as [l m|c r]; simpl; [exact IH|].
  destruct c; simpl; rewrite ?IH; reflexivity.
Qed.

Lemma put_in_puts (t : list event) l q c o :
  In (Op (Put l q c) o) t -> In (q, c) (puts t).
Proof.
  induction t as [|e t IH]; simpl; [tauto|].
  intros [->|H]; [left; reflexivity|].
  specialize (IH H). destruct e as [?|[] ?]; simpl; auto.
Qed.

Lemma srv_step_keeps (env : Env) h fs e fs' q x :
  sftp_step env h fs e fs' ->
  fs !! q = Some x ->
  ~ In q (map fst (puts [e])) ->
  fs' !! q = Some x.
Proof.
  intros Hs Hq Hn. destruct Hs as [lvl msg|c e r Hsem Hf|c r fs' Hf Hsem]; try exact Hq.
  destruct c; simpl in Hsem; try discriminate; injection Hsem as Hsem.
  - subst. exact Hq.
  - unfold srv_mkdir in Hsem. destruct (fs !! path) eqn:Hp; [congruence|].
    destruct (fs !! dirname path) as [[|]|]; injection Hsem as <- <-; try exact Hq.
    rewrite lookup_insert_ne; [exact Hq|]. intros ->. congruence.
  - unfold srv_put in Hsem.
    assert (remotepath <> q) by (intros ->; apply Hn; simpl; auto).
    destruct (fs !! remotepath) as [[|]|];
      try (injection Hsem as <- <-; exact Hq);
      destruct (fs !! dirname remotepath) as [[|]|];
      injection Hsem as <- <-; try exact Hq;
      rewrite lookup_insert_ne; auto.
Qed.

(** Nothing the mirror does removes or replaces an entry it does not
    transfer to. *)
Lemma sftp_steps_keep (env : Env) h fs t fs' q x :
  sftp_steps env h fs t fs' ->
  fs !! q = Some x ->
  ~ In q (map fst (puts t)) ->
  fs' !! q = Some x.
Proof.
  induction 1 as [h fs|h fs e fs1 t fs2 Hs Ht IH]; intros Hq Hn; [exact Hq|].
  apply IH.
  - eapply srv_step_keeps; [exact Hs|exact Hq|].
    intros Hin. apply Hn. change (e :: t) with ([e] ++ t).
    rewrite puts_app, map_app. apply in_or_app. left. exact Hin.
  - intros Hin. apply Hn. change (e :: t) with ([e] ++ t).
    rewrite puts_app, map_app. apply in_or_app. right. exact Hin.
Qed.

Lemma srv_put_done (fs fs' : gmap string rnode) q c :
  srv_put fs q c = (None, fs') -> fs' !! q = Some (RFile c).
Proof.
  unfold srv_put.
  destruct (fs !! q) as [[|]|]; try discriminate;
    destruct (fs !! dirname q) as [[|]|]; try discriminate;
    intros [= <-]; apply lookup_insert_eq.
Qed.

(** A transfer that succeeded is still there at the end, when no path is
    transferred to twice. *)
Lemma sftp_steps_put_persists (env : Env) h fs t fs' l q c :
  sftp_steps env h fs t fs' ->
  NoDup (map fst (puts t)) ->
  In (Op (Put l q c) None) t ->
  fs' !! q = Some (RFile c).
Proof.
  induction 1 as [h fs|h fs e fs1 t fs2 Hs Ht IH]; intros Hnd Hin; [destruct Hin|].
  destruct Hin as [->|Hin].
  - simpl in Hnd. apply NoDup_cons in Hnd as [Hq _].
    eapply sftp_steps_keep; [exact Ht| |].
    + inversion Hs as [| |c' r fs'' Hf Hsem]; subst.
      simpl in Hsem. injection Hsem as Hsem. exact (srv_put_done _ _ _ _ Hsem).
    + rewrite <- list_elem_of_In. exact Hq.
  - apply IH; [|exact Hin]. destruct e as [?|[] ?]; simpl in Hnd; auto.
    apply NoDup_cons in Hnd as [_ Hnd]. exact Hnd.
Qed.

(** ** How the mirror ends *)

Lemma clean_app (t1 t2 : list event) : clean t1 -> clean t2 -> clean (t1 ++ t2).
Proof. unfold clean. intros H1 H2. apply Forall_app. auto. Qed.

Lemma outcome_spec_app (r : outcome unit) (t1 t2 : list event) :
  clean t1 -> outcome_spec r t2 -> outcome_spec r (t1 ++ t2).
Proof.
  intros H1. destruct r as [a|x]; simpl.
  - apply clean_app. exact H1.
  - intros (t0 & ev & e & -> & Hc & Hf & ->).
    exists (t1 ++ t0), ev, e. rewrite app_assoc. repeat split; auto using clean_app.
Qed.

Lemma mirror_like_ret : mirror_like (ret tt).
Proof. intros h w r w' t [= <- <- <-]. constructor. Qed.

Lemma mirror_like_log lvl msg : mirror_like (log lvl msg).
Proof. intros h w r w' t [= <- <- <-]. repeat constructor. Qed.

Lemma mirror_like_bind (m k : Py unit) :
  mirror_like m -> mirror_like k -> mirror_like (m ;; k).
Proof.
  intros Hm Hk h w r w' t H.
  apply bind_inv in H as [(a & w1 & t1 & t2 & H1 & H2 & ->)|(x & H1 & ->)].
  - apply outcome_spec_app; [exact (Hm _ _ _ _ _ H1)|exact (Hk _ _ _ _ _ H2)].
  - exact (Hm _ _ _ _ _ H1).
Qed.

Lemma mirror_like_for_each {A} (body : A -> Py unit) (l : list A) :
  Forall (fun x => mirror_like (body x)) l -> mirror_like (for_each body l).
Proof.
  induction 1 as [|x l Hx Hl IH]; simpl.
  - apply mirror_like_ret.
  - apply mirror_like_bind; assumption.
Qed.

Lemma mirror_like_put (env : Env) l p c : mirror_like (sftp_put env l p c).
Proof.
  intros h w r w' t. unfold sftp_put, remote_call.
  destruct (fault env h _) as [e|].
  - intros [= <- <- <-]. exists [], (Op (Put l p c) (Some e)), e. repeat split. constructor.
  - destruct (srv_put (remote w) p c) as [[e|] fs]; intros [= <- <- <-].
    + exists [], (Op (Put l p c) (Some e)), e. repeat split. constructor.
    + repeat constructor.
Qed.

(** A probe and what the script does when the path is reported absent. *)
Lemma mirror_like_probe (env : Env) p (absent : Py unit) :
  mirror_like absent ->
  mirror_like
    (try_except (sftp_stat env p)
       (fun e => match e with FileNotFoundError => absent | _ => raise_exc e end)).
Proof.
  intros Ha h w r w' t. unfold try_except, sftp_stat, remote_call.
  assert (Hcase : forall e w1, 
             (match e with FileNotFoundError => absent | _ => raise_exc e end)
               (h ++ [Op (Stat p) (Some e)]) w1 = (r, w', tl t) ->
             t = Op (Stat p) (Some e) :: tl t ->
             outcome_spec r t).
  { intros e w1 H Et. rewrite Et. change (?x :: ?l) with ([x] ++ l).
    destruct e; try (injection H as <- <- E; rewrite <- E;
                     eexists [], _, _; repeat split; constructor).
    apply outcome_spec_app; [repeat constructor|]. exact (Ha _ _ _ _ _ H). }
  destruct (fault env h (Stat p)) as [e|].
  - destruct (match e with FileNotFoundError => absent | _ => raise_exc e end
                (h ++ [Op (Stat p) (Some e)]) w) as [[r2 w2] t2] eqn:E.
    intros [= <- <- <-]. eapply Hcase; [exact E|reflexivity].
  - simpl. destruct (srv_stat (remote w) p) as [e|].
    + destruct (match e with FileNotFoundError => absent | _ => raise_exc e end
                  (h ++ [Op (Stat p) (Some e)]) (set_remote (remote w) w)) as [[r2 w2] t2] eqn:E.
      intros [= <- <- <-]. eapply Hcase; [exact E|reflexivity].
    + intros [= <- <- <-]. repeat constructor.
Qed.

Lemma mirror_like_mkdir (env : Env) p msg (handler : pyexc -> string) :
  mirror_like
    (try_except (sftp_mkdir env p;; log DEBUG msg) (fun e => log DEBUG (handler e))).
Proof.
  intros h w r w' t. unfold try_except, bind, sftp_mkdir, remote_call, log.
  destruct (fault env h _) as [e|].
  - intros [= <- <- <-]. repeat constructor.
  - destruct (srv_mkdir (remote w) p) as [[e|] fs]; intros [= <- <- <-]; repeat constructor.
Qed.

Lemma mirror_like_ensure_walk (env : Env) (parts : list string) :
  forall current_path, mirror_like (ensure_walk env parts current_path).
Proof.
  induction parts as [|part rest IH]; intros current_path; simpl.
  - apply mirror_like_ret.
  - destruct (String.eqb part ""); [apply IH|].
    apply mirror_like_bind; [|apply IH].
    apply mirror_like_probe. apply mirror_like_mkdir.
Qed.

Lemma mirror_like_ensure (env : Env) (remote_dir : string) :
  mirror_like (_ensure_remote_directory env remote_dir).
Proof. apply mirror_like_probe. apply mirror_like_ensure_walk. Qed.

Lemma mirror_like_upload (env : Env) (local : node) :
  forall entries local_dir remote_dir,
    local = Dir entries ->
    mirror_like (_upload_directory env local local_dir remote_dir).
Proof.
  induction local as [content|entries IH] using node_ind;
    intros entries' local_dir remote_dir [= <-].
  rewrite upload_directory_eq.
  apply mirror_like_bind; [apply mirror_like_log|].
  apply mirror_like_bind; [apply mirror_like_ensure|].
  apply mirror_like_for_each.
  induction IH as [|[item child] entries Hc _ IHe]; constructor; [|exact IHe].
  unfold upload_entry. destruct child as [content|sub].
  - apply mirror_like_bind; [apply mirror_like_log|].
    apply mirror_like_bind; [apply mirror_like_put|apply mirror_like_log].
  - eapply Hc. reflexivity.
Qed.

(** ** Paths *)

Lemma append_cons (a : ascii) (s t : string) : String a s +:+ t = String a (s +:+ t).
Proof. reflexivity. Qed.

Lemma append_nil_l (s : string) : "" +:+ s = s.
Proof. reflexivity. Qed.

Lemma append_nil_r (s : string) : s +:+ "" = s.
Proof. induction s as [|a s IH]; [reflexivity|]. rewrite append_cons, IH. reflexivity. Qed.

Lemma append_assoc (s1 s2 s3 : string) : (s1 +:+ s2) +:+ s3 = s1 +:+ (s2 +:+ s3).
Proof.
  induction s1 as [|a s1 IH]; [reflexivity|].
  rewrite !append_cons, IH. reflexivity.
Qed.

Lemma rstrip_slash_id (s : string) : ends_with_slash s = false -> rstrip_slash s = s.
Proof.
  induction s as [|a s IH]; [reflexivity|].
  destruct s as [|b s].
  - simpl. intros ->. reflexivity.
  - intros H. change (ends_with_slash (String b s) = false) in H.
    cbn [rstrip_slash]. cbn [rstrip_slash] in IH. rewrite (IH H). reflexivity.
Qed.

Lemma ends_with_slash_append (a b : string) :
  b <> "" -> ends_with_slash (a +:+ b) = ends_with_slash b.
Proof.
  intros Hb. induction a as [|x a IH]; [reflexivity|].
  rewrite append_cons. destruct (a +:+ b) as [|y s] eqn:E.
  - destruct a; [rewrite append_nil_l in E; contradiction|discriminate].
  - exact IH.
Qed.

Lemma slash_free_end (s : string) : has_slash s = false -> ends_with_slash s = false.
Proof.
  induction s as [|a s IH]; [reflexivity|].
  simpl. intros H. apply orb_false_iff in H as [Ha Hs].
  destruct s; [exact Ha|exact (IH Hs)].
Qed.

Lemma valid_name_inv (s : string) :
  valid_name s = true -> s <> "" /\ has_slash s = false.
Proof.
  unfold valid_name. intros H. apply andb_true_iff in H as [H1 H2].
  apply negb_true_iff in H1, H2. split; [|exact H2].
  intros ->. discriminate.
Qed.

(** The remote path of an entry is already stripped: the script's
    [rstrip] leaves it as it is. *)
Lemma rstrip_child (p item : string) :
  valid_name item = true -> rstrip_slash (p +:+ "/" +:+ item) = p +:+ "/" +:+ item.
Proof.
  intros Hv. apply valid_name_inv in Hv as [Hne Hs].
  apply rstrip_slash_id. rewrite <- append_assoc.
  rewrite ends_with_slash_append by exact Hne. apply slash_free_end. exact Hs.
Qed.

Lemma fold_join (names : list string) (base : string) :
  fold_left (fun p name => p +:+ "/" +:+ name) names base = base +:+ join_path names.
Proof.
  revert base. induction names as [|n names IH]; intros base; simpl.
  - rewrite append_nil_r. reflexivity.
  - rewrite IH, !append_assoc. reflexivity.
Qed.

Lemma remote_under_join (remote_dir : string) (names : list string) :
  remote_under remote_dir names = rstrip_slash remote_dir +:+ join_path names.
Proof. apply fold_join. Qed.

Lemma remote_under_cons (remote_dir item : string) (names : list string) :
  valid_name item = true ->
  remote_under remote_dir (item :: names)
  = remote_under (rstrip_slash remote_dir +:+ "/" +:+ item) names.
Proof.
  intros Hv. unfold remote_under. simpl. rewrite rstrip_child by exact Hv. reflexivity.
Qed.

Lemma slash_free_split (n1 n2 s1 s2 : string) :
  has_slash n1 = false -> has_slash n2 = false ->
  (s1 = "" \/ starts_with_slash s1 = true) ->
  (s2 = "" \/ starts_with_slash s2 = true) ->
  n1 +:+ s1 = n2 +:+ s2 ->
  n1 = n2 /\ s1 = s2.
Proof.
  revert n2. induction n1 as [|a n1 IH]; intros n2 H1 H2 E1 E2 H.
  - destruct n2 as [|b n2]; [auto|].
    rewrite append_nil_l, append_cons in H. simpl in H2.
    apply orb_false_iff in H2 as [Hb _].
    destruct E1 as [->|E1]; [discriminate|].
    destruct s1 as [|x s1]; [discriminate|]. simpl in E1. congruence.
  - destruct n2 as [|b n2].
    + rewrite append_nil_l, append_cons in H. simpl in H1.
      apply orb_false_iff in H1 as [Ha _].
      destruct E2 as [->|E2]; [discriminate|].
      destruct s2 as [|x s2]; [discriminate|]. simpl in E2. congruence.
    + rewrite !append_cons in H. injection H as -> H. simpl in H1, H2.
      apply orb_false_iff in H1 as [_ H1]. apply orb_false_iff in H2 as [_ H2].
      destruct (IH n2 H1 H2 E1 E2 H) as [-> ->]. auto.
Qed.

Lemma join_path_start (names : list string) :
  join_path names = "" \/ starts_with_slash (join_path names) = true.
Proof. destruct names; [left|right]; reflexivity. Qed.

Lemma join_path_inj (l1 l2 : list string) :
  Forall (fun n => has_slash n = false) l1 ->
  Forall (fun n => has_slash n = false) l2 ->
  join_path l1 = join_path l2 -> l1 = l2.
Proof.
  intros H1. revert l2. induction H1 as [|n1 l1 Hn1 _ IH]; intros l2 H2 H.
  - destruct l2; [reflexivity|discriminate].
  - destruct H2 as [|n2 l2 Hn2 H2]; [discriminate|].
    simpl in H. rewrite !append_cons, !append_nil_l in H. injection H as H.
    destruct (slash_free_split n1 n2 _ _ Hn1 Hn2 (join_path_start l1) (join_path_start l2) H)
      as [-> Hj].
    f_equal. apply IH; assumption.
Qed.

(** ** Well-formed trees *)

Lemma wf_dir_cons (item : string) (child : node) (entries : list (string * node)) :
  wf_node (Dir ((item, child) :: entries)) = true ->
  (item ∉ map fst entries) /\ valid_name item = true /\ wf_node child = true
  /\ wf_node (Dir entries) = true.
Proof.
  simpl. intros H. apply andb_true_iff in H as [Hn H].
  apply andb_true_iff in H as [H Hf]. apply andb_true_iff in H as [Hv Hc].
  apply bool_decide_eq_true in Hn. apply NoDup_cons in Hn as [Hi Hn].
  repeat split; auto. apply andb_true_iff. split; [|exact Hf].
  apply bool_decide_eq_true. exact Hn.
Qed.

Lemma tree_files_cons (item : string) (child : node) (entries : list (string * node)) :
  tree_files (Dir ((item, child) :: entries))
  = match child with
    | File content => [([item], content)]
    | Dir _ => map (fun f : list string * bytes => (item :: fst f, snd f)) (tree_files child)
    end ++ tree_files (Dir entries).
Proof. reflexivity. Qed.

Lemma tree_files_head (entries : list (string * node)) (names : list string) :
  names ∈ map fst (tree_files (Dir entries)) ->
  exists n rest, names = n :: rest /\ n ∈ map fst entries.
Proof.
  induction entries as [|[item child] entries IH].
  - simpl. intros H. inversion H.
  - rewrite tree_files_cons, map_app. intros H. apply elem_of_app in H as [H|H].
    + exists item. destruct child as [content|sub].
      * simpl in H. apply list_elem_of_singleton in H as ->.
        eexists. split; [reflexivity|]. simpl. left.
      * rewrite map_map in H. apply (list_elem_of_fmap_1 _) in H as (f & -> & _).
        eexists. split; [reflexivity|]. simpl. left.
    + destruct (IH H) as (n & rest & -> & Hn). exists n, rest. split; [reflexivity|].
      simpl. right. exact Hn.
Qed.

Lemma tree_files_names (local : node) :
  wf_node local = true ->
  forall names, names ∈ map fst (tree_files local) ->
                Forall (fun n => has_slash n = false) names.
Proof.
  induction local as [content|entries IH] using node_ind; intros Hwf names H.
  - inversion H.
  - induction IH as [|[item child] entries Hc _ IHe].
    + inversion H.
    + apply wf_dir_cons in Hwf as (_ & Hv & Hwc & Hwe).
      apply valid_name_inv in Hv as [_ Hs].
      rewrite tree_files_cons, map_app in H. apply elem_of_app in H as [H|H].
      * destruct child as [content|sub].
        -- simpl in H. apply list_elem_of_singleton in H as ->. repeat constructor. exact Hs.
        -- rewrite map_map in H. apply (list_elem_of_fmap_1 _) in H as (f & -> & Hf).
           simpl. constructor; [exact Hs|]. apply (Hc Hwc).
           apply (list_elem_of_fmap_2 fst) in Hf. exact Hf.
      * exact (IHe Hwe H).
Qed.

Lemma tree_files_nodup (local : node) :
  wf_node local = true -> NoDup (map fst (tree_files local)).
Proof.
  induction local as [content|entries IH] using node_ind; intros Hwf.
  - constructor.
  - induction IH as [|[item child] entries Hc _ IHe].
    + constructor.
    + apply wf_dir_cons in Hwf as (Hi & Hv & Hwc & Hwe).
      rewrite tree_files_cons, map_app. apply NoDup_app. split; [|split].
      * destruct child as [content|sub].
        -- apply NoDup_singleton.
        -- rewrite map_map. simpl.
           rewrite <- (map_map fst (fun x : list string => item :: x)).
           apply (NoDup_fmap_2_strong (fun x : list string => item :: x)); [|exact (Hc Hwc)].
           intros x y _ _ [= ->]. reflexivity.
      * intros names H1 H2.
        apply tree_files_head in H2 as (n & rest & -> & Hn).
        assert (n = item) as ->; [|contradiction].
        destruct child as [content|sub].
        -- simpl in H1. apply list_elem_of_singleton in H1. congruence.
        -- rewrite map_map in H1. apply (list_elem_of_fmap_1 _) in H1 as (f & E & _).
           simpl in E. congruence.
      * exact (IHe Hwe).
Qed.

(** No two files of a well-formed tree are mirrored to the same path. *)
Lemma expected_paths_nodup (local : node) (remote_dir : string) :
  wf_node local = true -> NoDup (map fst (expected_puts local remote_dir)).
Proof.
  intros Hwf. unfold expected_puts. rewrite map_map. simpl.
  rewrite <- (map_map fst (remote_under remote_dir)).
  apply (NoDup_fmap_2_strong (remote_under remote_dir)); [|exact (tree_files_nodup local Hwf)].
  intros x y Hx Hy H. rewrite !remote_under_join in H.
  apply (inj _) in H.
  apply join_path_inj; [| |exact H]; apply (tree_files_names local Hwf); assumption.
Qed.

(** ** Events of a kind *)

Lemma only_events_ret {A} Q (a : A) : only_events Q (ret a).
Proof. intros h w r w' t [= <- <- <-]. reflexivity. Qed.

Lemma only_events_throw {A} Q (x : raised) : only_events Q (@throw A x).
Proof. intros h w r w' t [= <- <- <-]. reflexivity. Qed.

Lemma only_events_log Q lvl msg : Q (Log lvl msg) = true -> only_events Q (log lvl msg).
Proof. intros HQ h w r w' t [= <- <- <-]. simpl. rewrite HQ. reflexivity. Qed.

Lemma only_events_bind {A B} Q (m : Py A) (k : A -> Py B) :
  only_events Q m -> (forall a, only_events Q (k a)) -> only_events Q (bind m k).
Proof.
  intros Hm Hk h w r w' t H.
  apply bind_inv in H as [(a & w1 & t1 & t2 & H1 & H2 & ->)|(x & H1 & ->)].
  - rewrite forallb_app, (Hm _ _ _ _ _ H1), (Hk a _ _ _ _ _ H2). reflexivity.
  - exact (Hm _ _ _ _ _ H1).
Qed.

Lemma only_events_try_except {A} Q (m : Py A) (handler : pyexc -> Py A) :
  only_events Q m -> (forall e, only_events Q (handler e)) -> only_events Q (try_except m handler).
Proof.
  intros Hm Hk h w r w' t H.
  apply try_except_inv in H as [(e & w1 & t1 & t2 & H1 & H2 & ->)|[H1 _]].
  - rewrite forallb_app, (Hm _ _ _ _ _ H1), (Hk e _ _ _ _ _ H2). reflexivity.
  - exact (Hm _ _ _ _ _ H1).
Qed.

Lemma only_events_remote_call (env : Env) Q c sem :
  (forall r, Q (Op c r) = true) -> only_events Q (remote_call env c sem).
Proof.
  intros HQ h w r w' t. unfold remote_call.
  destruct (fault env h c) as [e|].
  - intros [= <- <- <-]. simpl. rewrite HQ. reflexivity.
  - destruct (sem (remote w)) as [o fs]. intros [= <- <- <-]. simpl. rewrite HQ. reflexivity.
Qed.

Lemma ensure_walk_events (env : Env) (parts : list string) :
  forall current_path, only_events is_ensure_event (ensure_walk env parts current_path).
Proof.
  induction parts as [|part rest IH]; intros current_path; simpl.
  - apply only_events_ret.
  - destruct (String.eqb part ""); [apply IH|].
    apply only_events_bind; [|intros _; apply IH].
    apply only_events_try_except; [apply only_events_remote_call; reflexivity|].
    intros e.
    destruct e; try apply only_events_throw.
    apply only_events_try_except; [|intros e; apply only_events_log; reflexivity].
    apply only_events_bind; [apply only_events_remote_call; reflexivity|].
    intros _. apply only_events_log. reflexivity.
Qed.

Lemma ensure_events (env : Env) (remote_dir : string) :
  only_events is_ensure_event (_ensure_remote_directory env remote_dir).
Proof.
  apply only_events_try_except; [apply only_events_remote_call; reflexivity|].
  intros e. destruct e; try apply only_events_throw. apply ensure_walk_events.
Qed.

Lemma ensure_events_no_puts (t : list event) : forallb is_ensure_event t = true -> puts t = [].
Proof.
  induction t as [|e t IH]; [reflexivity|].
  simpl. intros H. apply andb_true_iff in H as [He Ht].
  destruct e as [?|[] ?]; simpl in *; auto; discriminate.
Qed.

(** ** What the mirror transfers *)

Lemma expected_puts_cons (remote_dir item : string) (child : node)
    (entries : list (string * node)) :
  valid_name item = true ->
  expected_puts (Dir ((item, child) :: entries)) remote_dir
  = entry_puts remote_dir (item, child) ++ expected_puts (Dir entries) remote_dir.
Proof.
  intros Hv. unfold expected_puts, entry_puts. rewrite tree_files_cons, map_app. f_equal.
  simpl. destruct child as [content|sub]; [reflexivity|].
  rewrite map_map. apply map_ext. intros [names content]. simpl.
  rewrite <- remote_under_cons by exact Hv. reflexivity.
Qed.

Lemma upload_puts (env : Env) (local : node) :
  wf_node local = true ->
  forall local_dir remote_dir h w r w' t,
    _upload_directory env local local_dir remote_dir h w = (r, w', t) ->
    puts_spec r t (expected_puts local remote_dir).
Proof.
  induction local as [content|entries IH] using node_ind;
    intros Hwf local_dir remote_dir h w r w' t H; rewrite upload_directory_eq in H;
    apply bind_inv in H as [(a & w1 & t1 & t2 & [= <- <- <-] & H & ->)|(x & [=] & _)];
    apply bind_inv in H as [(a' & w2 & t3 & t4 & He & H & ->)|(x & He & ->)];
    apply ensure_events, ensure_events_no_puts in He; unfold puts_spec.
  - injection H as <- <- <-. simpl. rewrite puts_app, He. split; [discriminate|].
    exists []. reflexivity.
  - split; [discriminate|]. simpl. rewrite He. eexists. reflexivity.
  - simpl. rewrite puts_app, He. simpl. fold (puts_spec r t4 (expected_puts (Dir entries) remote_dir)).
    clear He. revert Hwf r w' t4 H.
    generalize ((h ++ [Log INFO ("Uploading " +:+ local_dir +:+ " -> " +:+ remote_dir)]) ++ t3).
    generalize w2. clear t3 w2 a' h w.
    induction IH as [|[item child] entries Hc _ IHe]; intros w h Hwf r w' t H.
    + injection H as <- <- <-. split; [reflexivity|]. exists []. reflexivity.
    + apply wf_dir_cons in Hwf as (_ & Hv & Hwc & Hwe).
      rewrite expected_puts_cons by exact Hv.
      assert (Hentry : forall h w r w' t,
                 upload_entry env local_dir remote_dir (item, child) h w = (r, w', t) ->
                 puts_spec r t (entry_puts remote_dir (item, child))).
      { clear - Hc Hwc. intros h w r w' t H. unfold upload_entry in H. unfold entry_puts.
        destruct child as [content|sub]; simpl.
        - unfold bind, log, sftp_put, remote_call in H.
          destruct (fault env _ _) as [e|].
          + injection H as <- <- <-. split; [discriminate|]. exists []. reflexivity.
          + destruct (srv_put _ _ _) as [[e|] fs]; injection H as <- <- <-;
              (split; [try discriminate; reflexivity|exists []; reflexivity]).
        - exact (Hc Hwc _ _ _ _ _ _ _ H). }
      simpl in H.
      apply bind_inv in H as [(a & w1 & t1 & t2 & H1 & H2 & ->)|(x & H1 & ->)].
      * destruct a. destruct (Hentry _ _ _ _ _ H1) as [E1 _].
        destruct (IHe _ _ Hwe _ _ _ H2) as [E2 (rest & E3)].
        unfold puts_spec. rewrite puts_app, (E1 eq_refl). split.
        -- intros Hr. rewrite (E2 Hr). reflexivity.
        -- exists rest. rewrite E3, app_assoc. reflexivity.
      * destruct (Hentry _ _ _ _ _ H1) as [_ (rest & E)].
        split; [discriminate|]. eexists. rewrite E, <- app_assoc. reflexivity.
  - split; [discriminate|]. simpl. rewrite He. eexists. reflexivity.
Qed.

Lemma puts_in_inv (t : list event) q c :
  In (q, c) (puts t) -> exists l o, In (Op (Put l q c) o) t.
Proof.
  induction t as [|e t IH]; simpl; [tauto|].
  destruct e as [lvl msg|call r].
  - intros H. destruct (IH H) as (l & o & Hin). eauto.
  - destruct call; simpl; try (intros H; destruct (IH H) as (l & o & Hin); eauto).
    intros [[= -> ->]|H]; [eauto|]. destruct (IH H) as (l & o & Hin). eauto.
Qed.

Lemma clean_put_ok (t : list event) l q c o :
  clean t -> In (Op (Put l q c) o) t -> o = None.
Proof.
  intros Hc Hin. unfold clean in Hc. rewrite List.Forall_forall in Hc.
  specialize (Hc _ Hin). destruct o; [discriminate|reflexivity].
Qed.

(** A transfer of the mirror that succeeded is on the server when the
    mirror ends, however it ends. *)
Lemma upload_put_persists (env : Env) (local : node) local_dir remote_dir h w r w' t l q c :
  wf_node local = true ->
  _upload_directory env local local_dir remote_dir h w = (r, w', t) ->
  In (Op (Put l q c) None) t ->
  remote w' !! q = Some (RFile c).
Proof.
  intros Hwf H Hin.
  destruct (sftp_only_upload env local local_dir remote_dir _ _ _ _ _ H) as (Hs & _).
  destruct (upload_puts env local Hwf _ _ _ _ _ _ _ H) as (_ & rest & E).
  pose proof (expected_paths_nodup local remote_dir Hwf) as Hnd.
  rewrite E, map_app in Hnd. apply NoDup_app in Hnd as (Hnd & _).
  exact (sftp_steps_put_persists env _ _ _ _ _ _ _ Hs Hnd Hin).
Qed.

Lemma upload_file_fails (env : Env) content local_dir remote_dir h w r w' t :
  _upload_directory env (File content) local_dir remote_dir h w = (r, w', t) ->
  exists e, r = Raise (Exc e).
Proof.
  intros H. rewrite upload_directory_eq in H.
  apply bind_inv in H as [(a & w1 & t1 & t2 & [= <- <- <-] & H & ->)|(x & [=] & _)].
  apply bind_inv in H as [(a' & w2 & t3 & t4 & He & H & ->)|(x & He & ->)].
  - injection H as <- _ _. eauto.
  - pose proof (mirror_like_ensure env remote_dir _ _ _ _ _ He) as (t0 & ev & e & _ & _ & _ & ->).
    eauto.
Qed.

(** The mirror raises exceptions only: it never ends the process itself. *)
Lemma upload_raises_exc (env : Env) (local : node) local_dir remote_dir h w x w' t :
  _upload_directory env local local_dir remote_dir h w = (Raise x, w', t) ->
  exists e, x = Exc e.
Proof.
  intros H. destruct local as [content|entries].
  - destruct (upload_file_fails env _ _ _ _ _ _ _ _ H) as (e & [= ->]). eauto.
  - pose proof (mirror_like_upload env _ entries _ _ eq_refl _ _ _ _ _ H)
      as (t0 & ev & e & _ & _ & _ & ->).
    eauto.
Qed.

(** ** The mirror *)

(** C1: after [_upload_directory] has returned normally for a local tree
    (names non-empty, without slash, distinct within a directory), every
    file of the tree is on the server, at the remote directory joined with
    the names leading to the file, with the bytes of the local file. *)
Theorem C1_mirror_round_trip (env : Env) (local : node) local_dir remote_dir h w w' t :
  wf_node local = true ->
  _upload_directory env local local_dir remote_dir h w = (Ok tt, w', t) ->
  forall names content,
    In (names, content) (tree_files local) ->
    remote w' !! remote_under remote_dir names = Some (RFile content).
Proof.
  intros Hwf H names content Hin.
  destruct local as [c|entries]; [destruct Hin|].
  destruct (upload_puts env _ Hwf _ _ _ _ _ _ _ H) as (E & _).
  specialize (E eq_refl).
  assert (Hp : In (remote_under remote_dir names, content) (puts t)).
  { rewrite E. unfold expected_puts.
    apply (in_map (fun f : list string * bytes => (remote_under remote_dir (fst f), snd f))
             _ _ Hin). }
  apply puts_in_inv in Hp as (l & o & Hp).
  pose proof (mirror_like_upload env _ entries _ _ eq_refl _ _ _ _ _ H) as Hc. simpl in Hc.
  rewrite (clean_put_ok _ _ _ _ _ Hc Hp) in Hp.
  exact (upload_put_persists env _ _ _ _ _ _ _ _ _ _ _ Hwf H Hp).
Qed.

Lemma fatal_last (t0 t1 t2 : list event) (ev x : event) :
  clean t0 -> fatal_exc x <> None ->
  t0 ++ [ev] = t1 ++ x :: t2 ->
  t2 = [] /\ t1 = t0 /\ x = ev.
Proof.
  intros Hc Hx E. destruct t2 as [|y t2] using rev_ind.
  - apply app_inj_tail in E as [-> ->]. auto.
  - clear IHt2. change (t1 ++ x :: t2 ++ [y]) with (t1 ++ (x :: t2) ++ [y]) in E.
    rewrite app_assoc in E. apply app_inj_tail in E as [-> _].
    unfold clean in Hc. rewrite List.Forall_forall in Hc.
    exfalso. apply Hx, Hc, in_or_app. right. left. reflexivity.
Qed.

(** ** The upload session *)

Lemma upload_repo_not_ready (env : Env) (config : Config) h w :
  upload_ready env config = false ->
  exists t,
    upload_repo env config h w = (Raise (SystemExit 1), w, t)
    /\ t <> [] /\ forallb is_log t = true.
Proof.
  unfold upload_ready, upload_repo, os_path_exists.
  destruct (have_paramiko env); simpl;
    [|intros _; eexists; split; [reflexivity|split; [discriminate|reflexivity]]].
  destruct (truthy (sftp_host config) && truthy (sftp_user config)
            && truthy (sftp_password config)); simpl;
    [|intros _; eexists; split; [reflexivity|split; [discriminate|reflexivity]]].
  destruct (truthy (repo_path config)); simpl;
    [|intros _; eexists; split; [reflexivity|split; [discriminate|reflexivity]]].
  destruct (local_fs env _); [discriminate|].
  intros _; eexists; split; [reflexivity|split; [discriminate|reflexivity]].
Qed.

Lemma upload_repo_ready (env : Env) (config : Config) h w :
  upload_ready env config = true ->
  exists local,
    local_fs env (resolve_repo_path env (default "" (repo_path config))) = Some local
    /\ upload_repo env config h w
       = (log INFO ("Connecting to SFTP server: " +:+ default "" (sftp_user config) +:+ "@"
                      +:+ default "" (sftp_host config) +:+ ":"
                      +:+ pretty (default 22 (sftp_port config)));;
          log INFO "Authenticating with username/password from config file";;
          sftp_session env (default "" (sftp_host config)) (default 22 (sftp_port config))
            (default "" (sftp_user config)) (default "" (sftp_password config)) local
            (resolve_repo_path env (default "" (repo_path config)))) h w.
Proof.
  unfold upload_ready, upload_repo, os_path_exists. intros H.
  apply andb_true_iff in H as [H H4]. apply andb_true_iff in H as [H H3].
  apply andb_true_iff in H as [H1 H2]. rewrite H1, H2, H3. simpl.
  destruct (local_fs env _) as [local|]; [|discriminate].
  exists local. split; reflexivity.
Qed.

Lemma session_handler_exits (e : pyexc) h w :
  exists msg, session_handler e h w = (Raise (SystemExit 1), w, [Log ERROR msg]).
Proof. destruct e; eexists; reflexivity. Qed.

Lemma session_work_spec (env : Env) host port user password local path h w r w1 work :
  transport w = false -> sftp w = false ->
  session_work env host port user password local path h w = (r, w1, work) ->
  sftp w1 = opened_sftp work /\ transport w1 = opened_transport work
  /\ forallb (fun e => negb (is_close e)) work = true
  /\ (r = Ok tt \/ r = Raise (SystemExit 1))
  /\ ((r = Raise (SystemExit 1) /\ remote w1 = remote w /\ opened_sftp work = false
       /\ puts work = [])
      \/ exists ru wu tu post,
          _upload_directory env local path "/"
            (h ++ session_prefix host port user password) (connected w) = (ru, wu, tu)
          /\ work = session_prefix host port user password ++ tu ++ post
          /\ forallb is_log post = true
          /\ remote w1 = remote wu
          /\ (ru = Ok tt -> r = Ok tt)
          /\ (ru <> Ok tt -> r = Raise (SystemExit 1))).
Proof.
  intros Htr Hsf. unfold session_work, try_except, bind, remote_call, no_effect, set_transport,
    set_sftp, set_remote, log.
  simpl.
  destruct (fault env h (Connect host port)) as [e|] eqn:F1; simpl.
  { destruct (session_handler_exits e (h ++ [Op (Connect host port) (Some e)]) w) as (msg & ->).
    intros [= <- <- <-]. simpl. rewrite Htr, Hsf. repeat split; auto. }
  destruct (fault env _ StartClient) as [e|] eqn:F2; simpl.
  { match goal with |- context [session_handler e ?h ?w] =>
      destruct (session_handler_exits e h w) as (msg & ->) end.
    intros [= <- <- <-]. simpl. rewrite Hsf. repeat split; auto. }
  destruct (fault env _ (AuthPassword user password)) as [e|] eqn:F3; simpl.
  { match goal with |- context [session_handler e ?h ?w] =>
      destruct (session_handler_exits e h w) as (msg & ->) end.
    intros [= <- <- <-]. simpl. rewrite Hsf. repeat split; auto. }
  destruct (fault env _ OpenSftp) as [e|] eqn:F4; simpl.
  { match goal with |- context [session_handler e ?h ?w] =>
      destruct (session_handler_exits e h w) as (msg & ->) end.
    intros [= <- <- <-]. simpl. rewrite Hsf. repeat split; auto. }
  match goal with |- context [_upload_directory env local path "/" ?h0 ?w0] =>
    replace h0 with (h ++ session_prefix host port user password)
      by (unfold session_prefix; rewrite <- !app_assoc; reflexivity);
    change w0 with (connected w);
    destruct (_upload_directory env local path "/"
                (h ++ session_prefix host port user password) (connected w))
      as [[ru wu] tu] eqn:Hu
  end.
  pose proof (sftp_only_upload env local path "/" _ _ _ _ _ Hu) as (Hsteps & _ & Ht & Hs).
  simpl in Ht, Hs.
  assert (Hmirror : forallb is_mirror_event tu = true).
  { clear - Hsteps. induction Hsteps as [|h1 fs e1 fs1 t1 fs2 Hstep _ IH]; [reflexivity|].
    simpl. rewrite IH, andb_true_r.
    destruct Hstep as [| c e2 r2 Hsem _ | c r2 fs' _ Hsem]; [reflexivity| |];
      destruct c; simpl in Hsem; try discriminate; reflexivity. }
  assert (Hnc : forall post, forallb is_log post = true ->
            forallb (fun e => negb (is_close e)) (tu ++ post) = true).
  { intros post Hp. rewrite forallb_app. apply andb_true_iff. split.
    - clear - Hmirror. induction tu as [|e tu IH]; [reflexivity|].
      simpl in *. apply andb_true_iff in Hmirror as [He Ht]. rewrite (IH Ht), andb_true_r.
      destruct e as [?|[] ?]; simpl in *; auto; discriminate.
    - clear - Hp. induction post as [|e post IH]; [reflexivity|].
      simpl in *. apply andb_true_iff in Hp as [He Ht]. rewrite (IH Ht), andb_true_r.
      destruct e; simpl in *; auto; discriminate. }
  destruct ru as [[]|x].
  - intros [= <- <- <-]. simpl. rewrite Ht, Hs.
    split; [reflexivity|]. split; [reflexivity|]. split; [apply Hnc; reflexivity|].
    split; [auto|]. right. exists (Ok tt), wu, tu. eexists. repeat split; auto; congruence.
  - destruct (upload_raises_exc env _ _ _ _ _ _ _ _ Hu) as (e & ->).
    match goal with |- context [session_handler e ?h ?w] =>
      destruct (session_handler_exits e h w) as (msg & ->) end.
    intros [= <- <- <-]. simpl. rewrite Ht, Hs.
    split; [reflexivity|]. split; [reflexivity|]. split; [apply Hnc; reflexivity|].
    split; [auto|]. right. exists (Raise (Exc e)), wu, tu. eexists.
    repeat split; auto; congruence.
Qed.

Lemma session_finally_spec (env : Env) h w :
  exists w',
    session_finally env h w
    = (Ok tt, w',
       (if sftp w then [Op CloseSftp (fault env h CloseSftp)] else [])
         ++ (if transport w
             then [Op CloseTransport
                     (fault env (h ++ (if sftp w then [Op CloseSftp (fault env h CloseSftp)] else []))
                        CloseTransport)]
             else []))
    /\ remote w' = remote w.
Proof.
  unfold session_finally, bind, get_sftp, get_transport, try_pass, remote_call, no_effect, ret,
    set_remote.
  destruct w as [fs en tr sf]. simpl. rewrite !app_nil_r.
  destruct sf, tr; simpl; rewrite ?app_nil_r;
    repeat (match goal with |- context [fault env ?h0 ?c] => destruct (fault env h0 c) end;
            simpl; rewrite ?app_nil_r);
    eexists; split; reflexivity.
Qed.

Lemma upload_repo_session (env : Env) (config : Config) h w r w' t :
  upload_ready env config = true ->
  upload_repo env config h w = (r, w', t) ->
  exists local w1 work,
    local_fs env (resolve_repo_path env (default "" (repo_path config))) = Some local
    /\ session_work env (default "" (sftp_host config)) (default 22 (sftp_port config))
         (default "" (sftp_user config)) (default "" (sftp_password config)) local
         (resolve_repo_path env (default "" (repo_path config)))
         (h ++ connect_banner config) (disconnected w)
       = (r, w1, work)
    /\ t = connect_banner config ++ work ++ closing env (h ++ connect_banner config) work
    /\ remote w' = remote w1.
Proof.
  intros Hready H.
  destruct (upload_repo_ready env config h w Hready) as (local & Hl & E).
  rewrite E in H. clear E. exists local.
  apply bind_inv in H as [(a & wa & t1 & t2 & [= <- <- <-] & H & ->)|(x & [=] & _)].
  apply bind_inv in H as [(b & wb & t3 & t4 & [= <- <- <-] & H & ->)|(x & [=] & _)].
  unfold sftp_session in H.
  apply bind_inv in H as [(c & wc & t5 & t6 & [= <- <- <-] & H & ->)|(x & [=] & _)].
  apply bind_inv in H as [(d & wd & t7 & t8 & [= <- <- <-] & H & ->)|(x & [=] & _)].
  unfold try_finally in H.
  change (try_except _ session_handler)
    with (session_work env (default "" (sftp_host config)) (default 22 (sftp_port config))
            (default "" (sftp_user config)) (default "" (sftp_password config)) local
            (resolve_repo_path env (default "" (repo_path config)))) in H.
  simpl in H. fold (disconnected w) in H. rewrite !app_nil_r in H.
  replace ((h ++ [Log INFO
                    ("Connecting to SFTP server: " +:+ default "" (sftp_user config) +:+ "@"
                       +:+ default "" (sftp_host config) +:+ ":"
                       +:+ pretty (default 22 (sftp_port config)))])
             ++ [Log INFO "Authenticating with username/password from config file"])
    with (h ++ connect_banner config) in H
    by (unfold connect_banner; rewrite <- app_assoc; reflexivity).
  destruct (session_work _ _ _ _ _ _ _ _ _) as [[r1 w1] work] eqn:Hw.
  destruct (session_work_spec env _ _ _ _ _ _ _ (disconnected w) _ _ _ eq_refl eq_refl Hw)
    as (Fs & Ft & _).
  destruct (session_finally_spec env ((h ++ connect_banner config) ++ work) w1)
    as (w2 & Hf & Hr).
  rewrite Hf in H. injection H as <- <- <-.
  exists w1, work. repeat split; auto.
  unfold closing. rewrite Fs, Ft. reflexivity.
Qed.

Lemma split_after_prefix (a m t1 t2 : list event) (x : event) :
  a ++ m = t1 ++ x :: t2 ->
  existsb is_put a = false -> is_put x = true ->
  exists t1', t1 = a ++ t1' /\ m = t1' ++ x :: t2.
Proof.
  intros E Ha Hx. revert t1 E. induction a as [|y a IH]; intros t1 E.
  - exists t1. auto.
  - simpl in Ha. apply orb_false_iff in Ha as [Hy Ha].
    destruct t1 as [|y' t1]; simpl in E; injection E as -> E.
    + congruence.
    + destruct (IH Ha t1 E) as (t1' & -> & ->). exists t1'. auto.
Qed.

Lemma split_before_suffix (m b t1 t2 : list event) (x : event) :
  m ++ b = t1 ++ x :: t2 ->
  existsb is_put b = false -> is_put x = true ->
  exists t2', t2 = t2' ++ b /\ m = t1 ++ x :: t2'.
Proof.
  intros E Hb Hx. revert m E. induction t1 as [|y t1 IH]; intros m E.
  - destruct m as [|y m]; simpl in E.
    + subst b. simpl in Hb. rewrite Hx in Hb. discriminate.
    + injection E as -> E. exists m. auto.
  - destruct m as [|y' m]; simpl in E.
    + subst b. simpl in Hb. apply orb_false_iff in Hb as [_ Hb].
      rewrite existsb_app in Hb. simpl in Hb. rewrite Hx, orb_true_r in Hb. discriminate.
    + injection E as -> E. destruct (IH m E) as (t2' & -> & ->). exists t2'. auto.
Qed.

Lemma no_puts_no_put (t : list event) : puts t = [] -> existsb is_put t = false.
Proof.
  induction t as [|e t IH]; [reflexivity|].
  destruct e as [?|[] ?]; simpl; auto; discriminate.
Qed.

Lemma logs_no_put (t : list event) : forallb is_log t = true -> existsb is_put t = false.
Proof.
  induction t as [|e t IH]; [reflexivity|].
  simpl. intros H. apply andb_true_iff in H as [He Ht]. rewrite (IH Ht).
  destruct e; [reflexivity|discriminate].
Qed.

Lemma closing_closes (env : Env) h work : forallb is_close (closing env h work) = true.
Proof. unfold closing. destruct (opened_sftp work), (opened_transport work); reflexivity. Qed.

Lemma closes_no_put (t : list event) : forallb is_close t = true -> existsb is_put t = false.
Proof.
  induction t as [|e t IH]; [reflexivity|].
  simpl. intros H. apply andb_true_iff in H as [He Ht]. rewrite (IH Ht).
  destruct e as [?|[] ?]; simpl in *; auto; discriminate.
Qed.

Lemma upload_file_no_puts (env : Env) content local_dir remote_dir h w r w' t :
  _upload_directory env (File content) local_dir remote_dir h w = (r, w', t) ->
  puts t = [].
Proof.
  intros H. rewrite upload_directory_eq in H.
  apply bind_inv in H as [(a & w1 & t1 & t2 & [= <- <- <-] & H & ->)|(x & [=] & _)].
  apply bind_inv in H as [(a' & w2 & t3 & t4 & He & H & ->)|(x & He & ->)];
    apply ensure_events, ensure_events_no_puts in He.
  - injection H as <- _ <-. simpl. rewrite puts_app, He. reflexivity.
  - simpl. exact He.
Qed.

(** The failed transfer of a session: where it sits in the trace of
    [upload_repo], and what the mirror had done. *)
Lemma failed_put_in_session (env : Env) (config : Config) h w r w' t t1 l q c e t2 :
  upload_repo env config h w = (r, w', t) ->
  t = t1 ++ Op (Put l q c) (Some e) :: t2 ->
  exists local entries hu wu t0,
    local_fs env (resolve_repo_path env (default "" (repo_path config))) = Some local
    /\ local = Dir entries
    /\ _upload_directory env local (resolve_repo_path env (default "" (repo_path config))) "/"
         hu (connected (disconnected w))
       = (Raise (Exc e), wu, t0 ++ [Op (Put l q c) (Some e)])
    /\ remote w' = remote wu
    /\ r = Raise (SystemExit 1)
    /\ (forall ev, In ev t1 -> is_put ev = true -> In ev t0)
    /\ forallb (fun ev => is_log ev || is_close ev) t2 = true.
Proof.
  intros H Et.
  destruct (upload_ready env config) eqn:Hready.
  2: { destruct (upload_repo_not_ready env config h w Hready) as (t' & H' & _ & Hlog).
       rewrite H' in H. injection H as <- <- <-.
       apply logs_no_put in Hlog. rewrite Et, existsb_app in Hlog. simpl in Hlog.
       rewrite orb_true_r in Hlog. discriminate. }
  destruct (upload_repo_session env config h w r w' t Hready H)
    as (local & w1 & work & Hl & Hw & E & Hr).
  pose proof (closing_closes env (h ++ connect_banner config) work) as Hcl.
  revert E Hcl. generalize (closing env (h ++ connect_banner config) work). intros cl E Hcl.
  destruct (session_work_spec env _ _ _ _ _ _ _ (disconnected w) _ _ _ eq_refl eq_refl Hw)
    as (_ & _ & _ & _ & [(_ & _ & _ & Hp)|(ru & wu & tu & post & Hu & Ework & Hpost & Hrw & _ & Hfail)]).
  { exfalso. rewrite E in Et.
    apply split_after_prefix in Et as (t1' & -> & Et); [|reflexivity|reflexivity].
    apply split_before_suffix in Et as (t2' & -> & Et);
      [|apply closes_no_put, Hcl|reflexivity].
    apply no_puts_no_put in Hp. rewrite Et, existsb_app in Hp. simpl in Hp.
    rewrite orb_true_r in Hp. discriminate. }
  rewrite E, Ework in Et.
  apply split_after_prefix in Et as (ta & -> & Et); [|reflexivity|reflexivity].
  rewrite <- !app_assoc in Et.
  apply split_after_prefix in Et as (tb & -> & Et); [|reflexivity|reflexivity].
  apply split_before_suffix in Et as (tc & -> & Et).
  2: { rewrite existsb_app, (logs_no_put _ Hpost), (closes_no_put _ Hcl). reflexivity. }
  2: reflexivity.
  destruct local as [content|entries].
  { apply upload_file_no_puts, no_puts_no_put in Hu. rewrite Et, existsb_app in Hu.
    simpl in Hu. rewrite orb_true_r in Hu. discriminate. }
  pose proof (mirror_like_upload env _ entries _ _ eq_refl _ _ _ _ _ Hu) as Hspec.
  destruct ru as [a|x]; simpl in Hspec.
  { exfalso. unfold clean in Hspec. rewrite List.Forall_forall in Hspec.
    assert (Hin : In (Op (Put l q c) (Some e)) tu)
      by (rewrite Et; apply in_or_app; right; left; reflexivity).
    specialize (Hspec _ Hin). discriminate. }
  destruct Hspec as (t0 & ev & e' & E0 & Hc & Hf & ->).
  rewrite E0 in Et.
  assert (Hx : fatal_exc (Op (Put l q c) (Some e)) <> None) by discriminate.
  destruct (fatal_last _ _ _ _ _ Hc Hx Et) as (-> & -> & <-).
  simpl in Hf. injection Hf as <-.
  exists (Dir entries), entries. eexists. exists wu, t0.
  split; [exact Hl|]. split; [reflexivity|]. rewrite E0 in Hu.
  split; [exact Hu|]. split; [congruence|]. split; [apply Hfail; discriminate|].
  split.
  - intros ev Hin Hput. apply in_app_or in Hin as [Hin|Hin].
    + exfalso. unfold connect_banner in Hin. simpl in Hin.
      destruct Hin as [<-|[<-|[]]]; discriminate.
    + apply in_app_or in Hin as [Hin|Hin]; [|exact Hin].
      exfalso. unfold session_prefix in Hin. simpl in Hin.
      destruct Hin as [<-|[<-|[<-|[<-|[<-|[]]]]]]; discriminate.
  - simpl. rewrite forallb_app. apply andb_true_iff. split.
    + clear - Hpost. induction post as [|x post IH]; [reflexivity|].
      simpl in *. apply andb_true_iff in Hpost as [Hx Hp]. rewrite Hx, (IH Hp). reflexivity.
    + clear - Hcl. induction cl as [|x cl IH]; [reflexivity|].
      simpl in *. apply andb_true_iff in Hcl as [Hx Hp]. rewrite Hx, (IH Hp), orb_true_r.
      reflexivity.
Qed.

Lemma session_work_connects (env : Env) host port user password local path h w r w1 work :
  session_work env host port user password local path h w = (r, w1, work) ->
  exists o rest, work = Op (Connect host port) o :: rest.
Proof.
  unfold session_work. intros H.
  assert (Hc : forall r0 w0 t0,
             remote_call env (Connect host port) no_effect h w = (r0, w0, t0) ->
             exists o, t0 = [Op (Connect host port) o]).
  { unfold remote_call, no_effect. intros r0 w0 t0. destruct (fault env h _).
    - intros [= <- <- <-]. eauto.
    - intros [= <- <- <-]. eauto. }
  apply try_except_inv in H as [(e & w2 & t1 & t2 & H & _ & ->)|[H _]];
    apply bind_inv in H as [(a & w3 & t3 & t4 & H & _ & ->)|(x & H & _)];
    destruct (Hc _ _ _ H) as (o & ->); simpl; eauto.
Qed.

Lemma logs_open_nothing (t : list event) :
  forallb is_log t = true -> opened_sftp t = false /\ opened_transport t = false.
Proof.
  induction t as [|e t IH]; [auto|].
  simpl. intros H. apply andb_true_iff in H as [He Ht]. destruct (IH Ht) as [H1 H2].
  unfold opened_sftp, opened_transport in *. simpl. rewrite H1, H2.
  destruct e; [auto|discriminate].
Qed.

Lemma logs_no_close (t : list event) :
  forallb is_log t = true -> forallb (fun e => negb (is_close e)) t = true.
Proof.
  induction t as [|e t IH]; [reflexivity|].
  simpl. intros H. apply andb_true_iff in H as [He Ht]. rewrite (IH Ht).
  destruct e; [reflexivity|discriminate].
Qed.

(** ** Upload mode *)

(** C4 (amended): when the host, the user name or the password is absent
    or empty, or the repository path is unset or missing on disk,
    [upload_repo] ends the process with status 1 having written log lines
    only.  An absent port is not an error: the connection goes to port 22. *)
Theorem C4_upload_preconditions (env : Env) (config : Config) :
  (truthy (sftp_host config) = false \/ truthy (sftp_user config) = false
   \/ truthy (sftp_password config) = false \/ repo_path_missing env config ->
   forall h w, exists t,
     upload_repo env config h w = (Raise (SystemExit 1), w, t)
     /\ exit_code (Raise (SystemExit 1)) = 1
     /\ forallb is_log t = true
     /\ existsb is_network t = false)
  /\ (upload_ready env config = true -> sftp_port config = None ->
      forall h w, exists r w' o rest,
        upload_repo env config h w
        = (r, w', connect_banner config ++ Op (Connect (default "" (sftp_host config)) 22) o :: rest)).
Proof.
  split.
  - intros Hmiss h w.
    destruct (upload_repo_not_ready env config h w) as (t & H & _ & Hlog).
    + unfold upload_ready, os_path_exists.
      destruct Hmiss as [->|[->|[->|[->| ->]]]]; rewrite ?andb_false_r; reflexivity.
    + exists t. repeat split; auto.
      clear H. induction t as [|e t IH]; [reflexivity|].
      simpl in *. apply andb_true_iff in Hlog as [He Ht]. rewrite (IH Ht).
      destruct e; [reflexivity|discriminate].
  - intros Hready Hport h w.
    destruct (upload_repo env config h w) as [[r w'] t] eqn:H.
    destruct (upload_repo_session env config h w r w' t Hready H)
      as (local & w1 & work & _ & Hw & -> & _).
    destruct (session_work_connects env _ _ _ _ _ _ _ _ _ _ _ Hw) as (o & rest & ->).
    rewrite Hport. simpl. do 4 eexists. reflexivity.
Qed.

(** No port in the configuration: the upload connects to port 22, mirrors
    the tree and ends with status 0. *)
Lemma C4_counterexample :
  sftp_port config_sample = None
  /\ exists w' t,
      upload_repo healthy_env config_sample [] sample_world = (Ok tt, w', t)
      /\ In (Op (Connect "sftp.example.org" 22) None) t
      /\ exit_code (Ok tt) = 0.
Proof.
  split; [reflexivity|]. do 2 eexists. split; [vm_compute; reflexivity|].
  split; [|reflexivity]. simpl. auto.
Qed.

Lemma C4_witness :
  exists t,
    upload_repo healthy_env config_nonexistent [] sample_world
    = (Raise (SystemExit 1), sample_world, t)
    /\ exit_code (Raise (SystemExit 1)) = 1
    /\ forallb is_log t = true
    /\ existsb is_network t = false.
Proof.
  apply (proj1 (C4_upload_preconditions healthy_env config_nonexistent)).
  right. right. right. right. reflexivity.
Defined.

(** C8: when a transfer fails during [upload_repo], the mirror ends
    there with that exception, nothing follows but log lines and the close
    calls, the process ends with status 1, and every transfer that had
    succeeded is still on the server. *)
Theorem C8_transfer_failure_aborts (env : Env) (config : Config) h w r w' t t1 l q c e t2 :
  wf_local env config ->
  upload_repo env config h w = (r, w', t) ->
  t = t1 ++ Op (Put l q c) (Some e) :: t2 ->
  (exists local hu wu t0,
      _upload_directory env local (resolve_repo_path env (default "" (repo_path config))) "/"
        hu (connected (disconnected w))
      = (Raise (Exc e), wu, t0 ++ [Op (Put l q c) (Some e)]))
  /\ forallb (fun ev => is_log ev || is_close ev) t2 = true
  /\ r = Raise (SystemExit 1) /\ exit_code r = 1
  /\ forall l' q' c', In (Op (Put l' q' c') None) t1 -> remote w' !! q' = Some (RFile c').
Proof.
  intros Hwf H Et.
  destruct (failed_put_in_session env config h w r w' t t1 l q c e t2 H Et)
    as (local & entries & hu & wu & t0 & Hl & _ & Hu & Hr & -> & Hin & Hrest).
  split; [eauto|]. split; [exact Hrest|]. split; [reflexivity|]. split; [reflexivity|].
  intros l' q' c' Hp. rewrite Hr.
  apply (upload_put_persists env local _ _ _ _ _ _ _ l' q' c' (Hwf _ Hl) Hu).
  apply in_or_app. left. apply Hin; [exact Hp|reflexivity].
Qed.

Lemma C8_witness :
  exists w' t,
    upload_repo env_broken_transfer config_sample [] sample_world = (Raise (SystemExit 1), w', t)
    /\ remote w' !! "/a.txt" = Some (RFile [Byte.x61])
    /\ remote w' !! "/pkgs/c.pkg" = None.
Proof.
  destruct (upload_repo env_broken_transfer config_sample [] sample_world) as [[r w'] t] eqn:H.
  pose proof H as H'. vm_compute in H'. injection H' as Hr Hw Ht.
  assert (Hwf : wf_local env_broken_transfer config_sample).
  { intros local Hl. vm_compute in Hl. injection Hl as <-. reflexivity. }
  assert (Et : t = firstn 18%nat t ++ Op (Put "/opt/autopkg/munki_repo/pkgs/b.pkg" "/pkgs/b.pkg" [Byte.x62])
                                      (Some (OtherException "IOError")) :: skipn 19%nat t).
  { rewrite <- Ht. vm_compute. reflexivity. }
  destruct (C8_transfer_failure_aborts _ _ _ _ _ _ _ _ _ _ _ _ _ Hwf H Et)
    as (_ & _ & -> & _ & Hkeep).
  exists w', t. split; [reflexivity|]. split.
  - apply (Hkeep "/opt/autopkg/munki_repo/a.txt"). rewrite <- Ht. vm_compute. auto 20.
  - rewrite <- Hw. vm_compute. reflexivity.
Defined.

(** C9: whatever happens in [upload_repo], its trace ends with the close
    calls owed: [sftp.close()] when the file-transfer channel was opened,
    then [transport.close()] when the transport was created; no close call
    occurs earlier, and whatever the close calls answer, the operation
    returns normally or ends the process with status 1. *)
Theorem C9_connections_closed (env : Env) (config : Config) h w r w' t :
  upload_repo env config h w = (r, w', t) ->
  exists work,
    t = work ++ closing env h work
    /\ forallb (fun e => negb (is_close e)) work = true
    /\ (r = Ok tt \/ r = Raise (SystemExit 1)).
Proof.
  intros H. destruct (upload_ready env config) eqn:Hready.
  - destruct (upload_repo_session env config h w r w' t Hready H)
      as (local & w1 & work & _ & Hw & -> & _).
    destruct (session_work_spec env _ _ _ _ _ _ _ (disconnected w) _ _ _ eq_refl eq_refl Hw)
      as (_ & _ & Hnc & Hr & _).
    exists (connect_banner config ++ work). split; [|split; [|exact Hr]].
    + rewrite <- app_assoc. do 2 f_equal. unfold closing, opened_sftp, opened_transport.
      rewrite !existsb_app, !app_assoc. reflexivity.
    + rewrite forallb_app, Hnc. reflexivity.
  - destruct (upload_repo_not_ready env config h w Hready) as (t' & H' & _ & Hlog).
    rewrite H' in H. injection H as <- <- <-.
    exists t'. destruct (logs_open_nothing _ Hlog) as [H1 H2].
    unfold closing. rewrite H1, H2, app_nil_r. auto using logs_no_close.
Qed.

Lemma C9_witness :
  let '(r, w', t) := upload_repo env_auth_rejected config_sample [] sample_world in
  exists work,
    t = work ++ closing env_auth_rejected [] work
    /\ forallb (fun e => negb (is_close e)) work = true
    /\ (r = Ok tt \/ r = Raise (SystemExit 1)).
Proof.
  destruct (upload_repo env_auth_rejected config_sample [] sample_world) as [[r w'] t] eqn:H.
  exact (C9_connections_closed _ _ _ _ _ _ _ H).
Defined.

Lemma C1_witness :
  exists w' t,
    _upload_directory healthy_env sample_tree "/opt/autopkg/munki_repo" "/repo" [] sample_world
    = (Ok tt, w', t)
    /\ remote w' !! "/repo/A/B/file.txt" = Some (RFile [Byte.x68; Byte.x69]).
Proof.
  destruct (_upload_directory healthy_env sample_tree "/opt/autopkg/munki_repo" "/repo" []
              sample_world) as [[r w'] t] eqn:H.
  pose proof H as H'. vm_compute in H'. injection H' as Hr _ _. subst r.
  exists w', t. split; [reflexivity|].
  apply (C1_mirror_round_trip healthy_env sample_tree _ _ _ _ _ _ eq_refl H
           ["A"; "B"; "file.txt"] [Byte.x68; Byte.x69]).
  simpl. auto.
Defined.

(** ** Ensuring a remote directory *)

Lemma probed_weaken (prev : option event) (t : list event) :
  probed None t = true -> probed prev t = true.
Proof.
  destruct t as [|e t]; [reflexivity|]. simpl.
  destruct e as [?|[] ?]; auto. discriminate.
Qed.

Lemma probed_app (prev : option event) (t1 t2 : list event) :
  probed prev t1 = true -> probed None t2 = true -> probed prev (t1 ++ t2) = true.
Proof.
  revert prev. induction t1 as [|e t1 IH]; intros prev H1 H2.
  - apply probed_weaken. exact H2.
  - simpl in *. apply andb_true_iff in H1 as [He H1]. rewrite He. simpl. apply IH; assumption.
Qed.

Lemma remote_call_inv (env : Env) c sem h w r w' t :
  remote_call env c sem h w = (r, w', t) ->
  exists o, t = [Op c o] /\ r = match o with Some e => Raise (Exc e) | None => Ok tt end.
Proof.
  unfold remote_call. destruct (fault env h c) as [e|].
  - intros [= <- <- <-]. exists (Some e). auto.
  - destruct (sem (remote w)) as [o fs]. intros [= <- <- <-]. exists o. auto.
Qed.

(** What a creation attempt of the walk adds to the trace. *)
Lemma walk_mkdir_events (env : Env) p msg (handler : pyexc -> string) h w r w' t :
  try_except (sftp_mkdir env p;; log DEBUG msg) (fun e => log DEBUG (handler e)) h w
  = (r, w', t) ->
  r = Ok tt /\ exists o m, t = [Op (Mkdir p) o; Log DEBUG m].
Proof.
  intros H. apply try_except_inv in H as [(e & w1 & t1 & t2 & H & Hh & ->)|[H Hr]].
  - injection Hh as <- <- <-.
    apply bind_inv in H as [(a & w2 & t3 & t4 & H & Hl & ->)|(x & H & _)].
    + discriminate Hl.
    + apply remote_call_inv in H as (o & -> & _). eauto.
  - apply bind_inv in H as [(a & w2 & t3 & t4 & H & Hl & ->)|(x & H & ->)].
    + injection Hl as <- <- <-. apply remote_call_inv in H as (o & -> & _). eauto.
    + apply remote_call_inv in H as (o & -> & E). destruct o; [|discriminate].
      exfalso. exact (Hr _ E).
Qed.

Lemma walk_step_probed (env : Env) p msg (handler : pyexc -> string) h w r w' t :
  try_except (sftp_stat env p)
    (fun e =>
       match e with
       | FileNotFoundError =>
           try_except (sftp_mkdir env p;; log DEBUG msg) (fun e => log DEBUG (handler e))
       | _ => raise_exc e
       end) h w = (r, w', t) ->
  probed None t = true.
Proof.
  intros H. apply try_except_inv in H as [(e & w1 & t1 & t2 & H & Hh & ->)|[H _]];
    apply remote_call_inv in H as (o & -> & E).
  - destruct o as [e'|]; [|discriminate]. injection E as <-.
    destruct e; try (injection Hh as <- <- <-; reflexivity).
    apply walk_mkdir_events in Hh as (_ & o & m & ->). simpl.
    rewrite String.eqb_refl. reflexivity.
  - reflexivity.
Qed.

Lemma ensure_walk_probed (env : Env) (parts : list string) :
  forall current_path h w r w' t,
    ensure_walk env parts current_path h w = (r, w', t) -> probed None t = true.
Proof.
  induction parts as [|part rest IH]; intros current_path h w r w' t H; simpl in H.
  - injection H as <- <- <-. reflexivity.
  - destruct (String.eqb part ""); [exact (IH _ _ _ _ _ _ H)|].
    apply bind_inv in H as [(a & w1 & t1 & t2 & H1 & H2 & ->)|(x & H1 & ->)].
    + apply probed_app; [exact (walk_step_probed _ _ _ _ _ _ _ _ _ H1)|exact (IH _ _ _ _ _ _ H2)].
    + exact (walk_step_probed _ _ _ _ _ _ _ _ _ H1).
Qed.

Lemma ensure_probed (env : Env) remote_dir h w r w' t :
  _ensure_remote_directory env remote_dir h w = (r, w', t) -> probed None t = true.
Proof.
  intros H. apply try_except_inv in H as [(e & w1 & t1 & t2 & H & Hh & ->)|[H _]];
    apply remote_call_inv in H as (o & -> & E).
  - destruct e; try (injection Hh as <- <- <-; reflexivity).
    apply probed_app; [reflexivity|]. exact (ensure_walk_probed _ _ _ _ _ _ _ _ Hh).
  - reflexivity.
Qed.

Lemma sftp_steps_stat_absent (env : Env) h fs t fs' :
  stat_faults_absent env ->
  sftp_steps env h fs t fs' ->
  forall p e, In (Op (Stat p) (Some e)) t -> e = FileNotFoundError.
Proof.
  intros Hb. induction 1 as [h fs|h fs ev fs1 t fs2 Hs Ht IH]; intros p e Hin; [destruct Hin|].
  destruct Hin as [->|Hin]; [|exact (IH _ _ Hin)].
  inversion Hs as [|c e' r Hsem Hf|c r fs'' Hf Hsem]; subst.
  - exact (Hb _ _ _ Hf).
  - simpl in Hsem. injection Hsem as Hsem _. unfold srv_stat in Hsem.
    destruct (fs !! p); congruence.
Qed.

(** Under [stat_faults_absent] ensuring a directory cannot fail. *)
Lemma ensure_ok (env : Env) remote_dir h w r w' t :
  stat_faults_absent env ->
  _ensure_remote_directory env remote_dir h w = (r, w', t) ->
  r = Ok tt.
Proof.
  intros Hb H. pose proof (mirror_like_ensure env remote_dir _ _ _ _ _ H) as Hspec.
  destruct r as [[]|x]; [reflexivity|]. exfalso.
  destruct Hspec as (t0 & ev & e & -> & _ & Hf & _).
  pose proof (ensure_events env remote_dir _ _ _ _ _ H) as Hev.
  destruct (sftp_only_ensure env remote_dir _ _ _ _ _ H) as (Hs & _).
  rewrite forallb_app in Hev. apply andb_true_iff in Hev as [_ Hev]. simpl in Hev.
  destruct ev as [?|[] [e'|]]; simpl in Hf, Hev; try discriminate.
  assert (e' = FileNotFoundError) as ->.
  { eapply (sftp_steps_stat_absent env _ _ _ _ Hb Hs). apply in_or_app. right. left. reflexivity. }
  discriminate.
Qed.

(** On a connection without faults, a path the server holds is never
    created again: its probe succeeds. *)
Lemma steps_skip_existing (env : Env) h fs t fs' :
  fault_free env ->
  sftp_steps env h fs t fs' ->
  puts t = [] ->
  forall prev,
    probed prev t = true ->
    (forall q, prev = Some (Op (Stat q) (Some FileNotFoundError)) -> fs !! q = None) ->
    forall p x o, fs !! p = Some x -> ~ In (Op (Mkdir p) o) t.
Proof.
  intros Hff. induction 1 as [h fs|h fs ev fs1 t fs2 Hs Ht IH];
    intros Hp prev Hpr Hinv p x o Hx Hin; [destruct Hin|].
  simpl in Hpr. apply andb_true_iff in Hpr as [Hev Hpr].
  destruct Hin as [->|Hin].
  - destruct prev as [[?|[] [[]|]]|]; try discriminate.
    apply String.eqb_eq in Hev as <-. rewrite (Hinv _ eq_refl) in Hx. discriminate.
  - assert (Hp1 : puts [ev] = [] /\ puts t = []).
    { change (ev :: t) with ([ev] ++ t) in Hp. rewrite puts_app in Hp.
      apply app_eq_nil in Hp. exact Hp. }
    destruct Hp1 as [Hpe Hpt].
    apply (IH Hpt (Some ev) Hpr) with (p := p) (x := x) (o := o); [| |exact Hin].
    + intros q [= ->].
      inversion Hs as [|c e' r Hsem Hf|c r fs'' Hf Hsem]; subst.
      * rewrite Hff in Hf. discriminate.
      * simpl in Hsem. injection Hsem as Hsem <-. unfold srv_stat in Hsem.
        destruct (fs !! q); [discriminate|reflexivity].
    + eapply srv_step_keeps; [exact Hs|exact Hx|]. rewrite Hpe. simpl. tauto.
Qed.

(** C3: when a probe fails only by reporting the path absent,
    [_ensure_remote_directory] returns normally whatever the server
    already holds and however the creations end; what the server held is
    kept; a creation is attempted only directly after the probe of that
    path reported it absent, so on a connection without faults never for a
    path the server holds.  A mirror into such a server fails only through
    a transfer. *)
Theorem C3_ensure_tolerates_existing (env : Env) :
  stat_faults_absent env ->
  (forall remote_dir h w, exists w' t,
      _ensure_remote_directory env remote_dir h w = (Ok tt, w', t)
      /\ (forall p x, remote w !! p = Some x -> remote w' !! p = Some x)
      /\ probed None t = true
      /\ (fault_free env -> forall p o, remote w !! p <> None -> ~ In (Op (Mkdir p) o) t))
  /\ (forall entries local_dir remote_dir h w r w' t,
        _upload_directory env (Dir entries) local_dir remote_dir h w = (r, w', t) ->
        r = Ok tt
        \/ exists t0 l q c e, t = t0 ++ [Op (Put l q c) (Some e)] /\ r = Raise (Exc e)).
Proof.
  intros Hb. split.
  - intros remote_dir h w.
    destruct (_ensure_remote_directory env remote_dir h w) as [[r w'] t] eqn:H.
    rewrite (ensure_ok env _ _ _ _ _ _ Hb H) in *.
    destruct (sftp_only_ensure env remote_dir _ _ _ _ _ H) as (Hs & _).
    pose proof (ensure_events_no_puts _ (ensure_events env remote_dir _ _ _ _ _ H)) as Hp.
    exists w', t. split; [reflexivity|]. split; [|split].
    + intros p x Hx. eapply sftp_steps_keep; [exact Hs|exact Hx|]. rewrite Hp. simpl. tauto.
    + exact (ensure_probed env _ _ _ _ _ _ H).
    + intros Hff p o Hx. destruct (remote w !! p) as [x|] eqn:Ex; [|congruence].
      eapply (steps_skip_existing env _ _ _ _ Hff Hs Hp None);
        [exact (ensure_probed env _ _ _ _ _ _ H)|discriminate|exact Ex].
  - intros entries local_dir remote_dir h w r w' t H.
    pose proof (mirror_like_upload env _ entries _ _ eq_refl _ _ _ _ _ H) as Hspec.
    destruct r as [[]|x]; [left; reflexivity|right].
    destruct Hspec as (t0 & ev & e & -> & _ & Hf & ->).
    destruct (sftp_only_upload env _ _ _ _ _ _ _ _ H) as (Hs & _).
    destruct ev as [?|[] [e'|]]; simpl in Hf; try discriminate.
    + assert (e' = FileNotFoundError) as ->.
      { eapply (sftp_steps_stat_absent env _ _ _ _ Hb Hs). apply in_or_app. right. left.
        reflexivity. }
      discriminate.
    + injection Hf as <-. exists t0, localpath, remotepath, content, e'. auto.
Qed.

Lemma C3_witness :
  exists w' t,
    _ensure_remote_directory env_racing "/repo/A/B" [] world_partial = (Ok tt, w', t)
    /\ remote w' !! "/repo/A" = Some RDir
    /\ probed None t = true.
Proof.
  assert (Hb : stat_faults_absent env_racing).
  { intros h p e. simpl. intros [= <-]. reflexivity. }
  destruct (proj1 (C3_ensure_tolerates_existing env_racing Hb) "/repo/A/B" [] world_partial)
    as (w' & t & H & Hkeep & Hp & _).
  exists w', t. split; [exact H|]. split; [|exact Hp].
  apply Hkeep. reflexivity.
Defined.

(** ** Parents before children *)

Lemma has_slash_append (a b : string) : has_slash (a +:+ b) = has_slash a || has_slash b.
Proof.
  induction a as [|x a IH]; [reflexivity|].
  rewrite append_cons. simpl. rewrite IH, orb_assoc. reflexivity.
Qed.

Lemma dir_part_child (p name : string) :
  has_slash name = false -> dir_part (p +:+ "/" +:+ name) = p +:+ "/".
Proof.
  intros Hn. induction p as [|a p IH].
  - rewrite !append_nil_l. change ("/" +:+ name) with (String slash name).
    simpl. rewrite Hn. reflexivity.
  - rewrite !(append_cons a p). cbn [dir_part]. rewrite IH.
    rewrite has_slash_append. change ("/" +:+ name) with (String slash name). simpl.
    rewrite orb_true_r. reflexivity.
Qed.

Lemma rstrip_slash_snoc (s : string) : rstrip_slash (s +:+ "/") = rstrip_slash s.
Proof.
  induction s as [|a s IH]; [reflexivity|].
  rewrite append_cons. cbn [rstrip_slash]. rewrite IH. reflexivity.
Qed.

(** The parent of an entry's remote path is the directory's path. *)
Lemma dirname_child (p name : string) :
  has_slash name = false -> ends_with_slash p = false ->
  dirname (p +:+ "/" +:+ name) = if String.eqb p "" then "/" else p.
Proof.
  intros Hn Hp. unfold dirname. rewrite dir_part_child by exact Hn.
  rewrite rstrip_slash_snoc, (rstrip_slash_id p Hp).
  destruct p; reflexivity.
Qed.

Lemma rstrip_no_trailing (s : string) : ends_with_slash (rstrip_slash s) = false.
Proof.
  induction s as [|a s IH]; [reflexivity|].
  cbn [rstrip_slash]. destruct (rstrip_slash s) as [|b r] eqn:E.
  - destruct (is_slash a) eqn:Ha; [reflexivity|]. simpl. exact Ha.
  - exact IH.
Qed.

Lemma child_no_trailing (p name : string) :
  valid_name name = true -> ends_with_slash (p +:+ "/" +:+ name) = false.
Proof.
  intros Hv. apply valid_name_inv in Hv as [Hne Hs].
  rewrite <- append_assoc, ends_with_slash_append by exact Hne.
  apply slash_free_end. exact Hs.
Qed.

Lemma parents_first_app (pre t1 t2 : list event) :
  parents_first pre (t1 ++ t2) = parents_first pre t1 && parents_first (pre ++ t1) t2.
Proof.
  revert pre. induction t1 as [|e t1 IH]; intros pre.
  - rewrite app_nil_r. reflexivity.
  - simpl. rewrite IH, <- app_assoc, andb_assoc. reflexivity.
Qed.

Lemma parents_first_mono (pre pre' t : list event) :
  (forall p, existsb (ensures p) pre = true -> existsb (ensures p) pre' = true) ->
  parents_first pre t = true -> parents_first pre' t = true.
Proof.
  revert pre pre'. induction t as [|e t IH]; intros pre pre' Hm H; [reflexivity|].
  simpl in *. apply andb_true_iff in H as [He Ht]. apply andb_true_iff. split.
  - destruct (creates e) as [q|]; [|reflexivity].
    apply orb_true_iff in He as [He|He]; [rewrite He; reflexivity|].
    rewrite (Hm _ He), orb_true_r. reflexivity.
  - apply (IH (pre ++ [e])); [|exact Ht].
    intros p. rewrite !existsb_app. intros Hp. apply orb_true_iff in Hp as [Hp|Hp].
    + rewrite (Hm _ Hp). reflexivity.
    + rewrite Hp, orb_true_r. reflexivity.
Qed.

Lemma split_slash_nonempty (s : string) : split_slash s <> [].
Proof.
  destruct s as [|a s]; simpl; [discriminate|].
  destruct (is_slash a); [discriminate|]. destruct (split_slash s); discriminate.
Qed.

Lemma split_slash_free (s : string) : Forall (fun x => has_slash x = false) (split_slash s).
Proof.
  induction s as [|a s IH]; simpl; [repeat constructor|].
  destruct (is_slash a) eqn:Ha; [constructor; [reflexivity|exact IH]|].
  destruct (split_slash s) as [|x l]; [repeat constructor; simpl; rewrite Ha; reflexivity|].
  inversion IH as [|? ? Hx Hl]; subst. constructor; [|exact Hl].
  simpl. rewrite Ha, Hx. reflexivity.
Qed.

Lemma split_slash_prepend (n s : string) :
  has_slash n = false ->
  split_slash (n +:+ s)
  = match split_slash s with
    | x :: l => (n +:+ x) :: l
    | [] => [n]
    end.
Proof.
  intros Hn. induction n as [|a n IH].
  - rewrite append_nil_l. destruct (split_slash s) eqn:E; [|reflexivity].
    exfalso. exact (split_slash_nonempty s E).
  - simpl in Hn. apply orb_false_iff in Hn as [Ha Hn].
    rewrite (append_cons a n). cbn [split_slash]. rewrite Ha, (IH Hn).
    destruct (split_slash s) as [|x l] eqn:E; reflexivity.
Qed.

Lemma split_join (names : list string) :
  Forall (fun n => has_slash n = false) names -> names <> [] ->
  split_slash (join_path names) = "" :: names.
Proof.
  induction 1 as [|n names Hn Hr IH]; intros Hne; [contradiction|].
  cbn [join_path]. change ("/" +:+ n +:+ join_path names) with (String slash (n +:+ join_path names)).
  cbn [split_slash]. change (is_slash slash) with true. cbv iota. f_equal.
  rewrite (split_slash_prepend n _ Hn).
  destruct names as [|m names]; [simpl; rewrite append_nil_r; reflexivity|].
  rewrite IH by discriminate. rewrite append_nil_r. reflexivity.
Qed.

Lemma walk_final_names (names : list string) (current_path : string) :
  Forall (fun n => valid_name n = true) names ->
  walk_final names current_path = current_path +:+ join_path names.
Proof.
  intros H. revert current_path. induction H as [|n names Hn _ IH]; intros current_path.
  - simpl. rewrite append_nil_r. reflexivity.
  - apply valid_name_inv in Hn as [Hne _].
    cbn [walk_final join_path]. apply String.eqb_neq in Hne. rewrite Hne.
    rewrite IH. destruct (String.eqb current_path "") eqn:Ec; simpl.
    + apply String.eqb_eq in Ec as ->. rewrite !append_nil_l, !append_assoc. reflexivity.
    + rewrite !append_assoc. reflexivity.
Qed.

Lemma valid_names_slash_free (names : list string) :
  Forall (fun n => valid_name n = true) names -> Forall (fun n => has_slash n = false) names.
Proof.
  induction 1 as [|n names Hn _ IH]; constructor; [|exact IH].
  apply valid_name_inv in Hn. tauto.
Qed.

Lemma join_path_app (l1 l2 : list string) : join_path (l1 ++ l2) = join_path l1 +:+ join_path l2.
Proof.
  induction l1 as [|n l1 IH]; [reflexivity|].
  simpl. rewrite IH, !append_assoc. reflexivity.
Qed.

Lemma join_no_trailing (names : list string) :
  Forall (fun n => valid_name n = true) names -> ends_with_slash (join_path names) = false.
Proof.
  induction 1 as [|n names Hn Hr IH]; [reflexivity|].
  cbn [join_path]. destruct names as [|m names].
  - change (join_path []) with "". rewrite append_nil_r.
    change ("/" +:+ n) with ("" +:+ "/" +:+ n).
    apply child_no_trailing. exact Hn.
  - rewrite <- append_assoc. rewrite ends_with_slash_append; [exact IH|].
    simpl. discriminate.
Qed.

(** The child of an absolute path is the absolute path with one more name. *)
Lemma abs_path_child (names : list string) (item : string) :
  Forall (fun n => valid_name n = true) names ->
  rstrip_slash (abs_path names) +:+ "/" +:+ item = abs_path (names ++ [item]).
Proof.
  intros Hv. destruct names as [|n names].
  - simpl. rewrite append_nil_r. reflexivity.
  - change (abs_path (n :: names)) with (join_path (n :: names)).
    rewrite (rstrip_slash_id _ (join_no_trailing _ Hv)).
    change (abs_path ((n :: names) ++ [item])) with (join_path ((n :: names) ++ [item])).
    rewrite join_path_app. simpl. rewrite !append_nil_r. reflexivity.
Qed.

Lemma walk_step_cases (env : Env) p msg (handler : pyexc -> string) h w r w' t :
  try_except (sftp_stat env p)
    (fun e =>
       match e with
       | FileNotFoundError =>
           try_except (sftp_mkdir env p;; log DEBUG msg) (fun e => log DEBUG (handler e))
       | _ => raise_exc e
       end) h w = (r, w', t) ->
  (r = Ok tt /\ t = [Op (Stat p) None])
  \/ (exists e, r = Raise (Exc e) /\ t = [Op (Stat p) (Some e)])
  \/ (r = Ok tt /\ exists o m, t = [Op (Stat p) (Some FileNotFoundError); Op (Mkdir p) o; Log DEBUG m]).
Proof.
  intros H. apply try_except_inv in H as [(e & w1 & t1 & t2 & H & Hh & ->)|[H _]];
    apply remote_call_inv in H as (o & -> & E).
  - destruct o as [e'|]; [|discriminate]. injection E as <-.
    destruct e; try (injection Hh as <- <- <-; right; left; eexists; split; reflexivity).
    apply walk_mkdir_events in Hh as (-> & o & m & ->). right. right. eauto.
  - destruct o as [e'|]; subst r.
    + right. left. eauto.
    + left. auto.
Qed.

Lemma ensures_refl_stat (p : string) : ensures p (Op (Stat p) None) = true.
Proof. simpl. apply String.eqb_refl. Qed.

Lemma ensures_refl_mkdir (p : string) o : ensures p (Op (Mkdir p) o) = true.
Proof. simpl. apply String.eqb_refl. Qed.

(** The loop of [_ensure_remote_directory] creates a segment only after
    the segment before it was ensured. *)
Lemma walk_ordered (env : Env) (parts : list string) :
  Forall (fun s => has_slash s = false) parts ->
  forall current_path h w r w' t pre,
    walk_inv current_path pre ->
    ensure_walk env parts current_path h w = (r, w', t) ->
    parents_first pre t = true
    /\ (r = Ok tt -> walk_inv (walk_final parts current_path) (pre ++ t)).
Proof.
  induction 1 as [|part rest Hpart Hrest IH]; intros cur h w r w' t pre Hinv H; simpl in H.
  - injection H as <- <- <-. rewrite app_nil_r. auto.
  - cbn [walk_final]. destruct (String.eqb part "") eqn:Ep; [exact (IH _ _ _ _ _ _ _ Hinv H)|].
    set (new := if negb (String.eqb cur "") then cur +:+ "/" +:+ part else "/" +:+ part) in *.
    assert (Hvalid : valid_name part = true).
    { unfold valid_name. rewrite Ep, Hpart. reflexivity. }
    assert (Hnew : new <> "" /\ ends_with_slash new = false
                   /\ (String.eqb (dirname new) "/" || existsb (ensures (dirname new)) pre = true)).
    { unfold new. destruct (String.eqb cur "") eqn:Ec; cbn [negb].
      - split; [discriminate|]. split.
        + change ("/" +:+ part) with ("" +:+ "/" +:+ part). apply child_no_trailing, Hvalid.
        + change ("/" +:+ part) with ("" +:+ "/" +:+ part).
          rewrite (dirname_child "" part Hpart eq_refl). reflexivity.
      - apply String.eqb_neq in Ec. destruct (Hinv Ec) as [He Hp]. split.
        + destruct cur; [contradiction|discriminate].
        + split; [apply child_no_trailing, Hvalid|].
          rewrite (dirname_child cur part Hpart He).
          apply String.eqb_neq in Ec. rewrite Ec, Hp, orb_true_r. reflexivity. }
    destruct Hnew as (Hne & Hend & Hparent).
    assert (Hstep : forall pre' h1 w1 r1 w2 t1,
               (forall p, existsb (ensures p) pre = true -> existsb (ensures p) pre' = true) ->
               try_except (sftp_stat env new)
                 (fun e =>
                    match e with
                    | FileNotFoundError =>
                        try_except
                          (sftp_mkdir env new;;
                           log DEBUG ("Created remote directory: " +:+ new))
                          (fun e => log DEBUG ("Directory may already exist or mkdir failed: "
                                                 +:+ show_exc e))
                    | _ => raise_exc e
                    end) h1 w1 = (r1, w2, t1) ->
               parents_first pre' t1 = true
               /\ (r1 = Ok tt -> existsb (ensures new) (pre' ++ t1) = true)).
    { intros pre' h1 w1 r1 w2 t1 Hm Hs.
      apply walk_step_cases in Hs as [(-> & ->)|[(e & -> & ->)|(-> & o & m & ->)]].
      - split; [reflexivity|]. intros _. rewrite existsb_app. simpl.
        rewrite String.eqb_refl, !orb_true_r. reflexivity.
      - split; [reflexivity|discriminate].
      - split.
        + simpl. rewrite !andb_true_r. apply orb_true_iff in Hparent as [Hp|Hp].
          * rewrite Hp. reflexivity.
          * rewrite existsb_app, (Hm _ Hp), orb_true_r. reflexivity.
        + intros _. rewrite existsb_app. simpl.
          rewrite String.eqb_refl, !orb_true_r. reflexivity. }
    apply bind_inv in H as [(a & w1 & t1 & t2 & H1 & H2 & ->)|(x & H1 & ->)].
    + destruct (Hstep pre _ _ _ _ _ (fun p Hp => Hp) H1) as [Hpf1 Hens].
      assert (Hinv' : walk_inv new (pre ++ t1)).
      { intros _. split; [exact Hend|]. destruct a. exact (Hens eq_refl). }
      destruct (IH new _ _ _ _ _ (pre ++ t1) Hinv' H2) as [Hpf2 Hfin].
      rewrite parents_first_app, Hpf1, Hpf2, app_assoc. auto.
    + destruct (Hstep pre _ _ _ _ _ (fun p Hp => Hp) H1) as [Hpf1 _].
      split; [exact Hpf1|discriminate].
Qed.

(** Ensuring an absolute path leaves an event that ensured that path. *)
Lemma ensure_ordered (env : Env) (names : list string) h w r w' t pre :
  Forall (fun n => valid_name n = true) names ->
  _ensure_remote_directory env (abs_path names) h w = (r, w', t) ->
  parents_first pre t = true
  /\ (r = Ok tt -> names <> [] -> existsb (ensures (abs_path names)) (pre ++ t) = true).
Proof.
  intros Hv H. unfold _ensure_remote_directory in H.
  apply try_except_inv in H as [(e & w1 & t1 & t2 & H & Hh & ->)|[H _]];
    apply remote_call_inv in H as (o & -> & E).
  - destruct o as [e'|]; [|discriminate]. injection E as <-.
    destruct e; try (injection Hh as <- <- <-; split; [reflexivity|discriminate]).
    destruct (walk_ordered env _ (split_slash_free (rstrip_slash (abs_path names)))
                "" _ _ _ _ _ (pre ++ [Op (Stat (abs_path names)) (Some FileNotFoundError)])
                ltac:(intros Hc; contradiction) Hh) as [Hpf Hfin].
    split; [simpl; exact Hpf|].
    intros Hr Hne. specialize (Hfin Hr).
    destruct names as [|n names]; [contradiction|].
    change (abs_path (n :: names)) with (join_path (n :: names)) in *.
    rewrite (rstrip_slash_id _ (join_no_trailing _ Hv)) in Hfin.
    rewrite (split_join _ (valid_names_slash_free _ Hv)) in Hfin by discriminate.
    change (walk_final ("" :: n :: names) "") with (walk_final (n :: names) "") in Hfin.
    rewrite (walk_final_names _ "" Hv), append_nil_l in Hfin.
    rewrite <- app_assoc in Hfin. apply Hfin. discriminate.
  - destruct o as [e'|]; subst r; (split; [reflexivity|]); [discriminate|].
    intros _ _. rewrite existsb_app. simpl. rewrite String.eqb_refl, !orb_true_r. reflexivity.
Qed.

Lemma existsb_app_l (p : string) (pre t : list event) :
  existsb (ensures p) pre = true -> existsb (ensures p) (pre ++ t) = true.
Proof. intros H. rewrite existsb_app, H. reflexivity. Qed.

Lemma upload_ordered (env : Env) (local : node) :
  wf_node local = true ->
  forall names local_dir h w r w' t pre,
    Forall (fun n => valid_name n = true) names ->
    _upload_directory env local local_dir (abs_path names) h w = (r, w', t) ->
    parents_first pre t = true.
Proof.
  induction local as [content|entries IH] using node_ind;
    intros Hwf names local_dir h w r w' t pre Hv H; rewrite upload_directory_eq in H;
    apply bind_inv in H as [(a & w1 & t1 & t2 & [= <- <- <-] & H & ->)|(x & [=] & _)];
    apply bind_inv in H as [(a' & w2 & t3 & t4 & He & H & ->)|(x & He & ->)];
    destruct (ensure_ordered env names _ _ _ _ _
                (pre ++ [Log INFO ("Uploading " +:+ local_dir +:+ " -> " +:+ abs_path names)])
                Hv He) as [Hpe Hens].
  - injection H as <- <- <-. simpl. rewrite parents_first_app, Hpe. reflexivity.
  - simpl. exact Hpe.
  - simpl. rewrite parents_first_app, Hpe. simpl.
    destruct a'. specialize (Hens eq_refl).
    set (pre0 := (pre ++ [Log INFO ("Uploading " +:+ local_dir +:+ " -> " +:+ abs_path names)])
                   ++ t3) in *.
    set (h0 := (h ++ [Log INFO ("Uploading " +:+ local_dir +:+ " -> " +:+ abs_path names)])
                 ++ t3) in *.
    clearbody pre0 h0. clear He Hpe.
    revert w2 r w' t4 h0 pre0 Hwf H Hens.
    induction IH as [|[item child] entries Hc _ IHe]; intros w2 r w' t h0 pre0 Hwf H Hens.
    + injection H as <- <- <-. reflexivity.
    + apply wf_dir_cons in Hwf as (_ & Hvi & Hwc & Hwe).
      assert (Hentry : forall r1 w1 t1,
                 upload_entry env local_dir (abs_path names) (item, child) h0 w2 = (r1, w1, t1) ->
                 parents_first pre0 t1 = true).
      { clear IHe H. intros r1 w1 t1 H1. unfold upload_entry in H1.
        destruct child as [content|sub].
        - assert (Hput : forall o pre',
                     (forall p, existsb (ensures p) pre0 = true ->
                                existsb (ensures p) pre' = true) ->
                     parents_first pre'
                       [Op (Put (os_path_join local_dir item)
                              (rstrip_slash (abs_path names) +:+ "/" +:+ item) content) o]
                     = true).
          { intros o pre' Hm. cbn [parents_first creates]. rewrite andb_true_r.
            apply valid_name_inv in Hvi as [_ Hs].
            rewrite (dirname_child _ item Hs (rstrip_no_trailing _)).
            destruct names as [|n names]; [reflexivity|].
            change (abs_path (n :: names)) with (join_path (n :: names)) in *.
            rewrite (rstrip_slash_id _ (join_no_trailing _ Hv)).
            assert (Hne : n :: names <> []) by discriminate.
            assert (E : String.eqb (join_path (n :: names)) "" = false) by reflexivity.
            rewrite E, (Hm _ (Hens Hne)), orb_true_r. reflexivity. }
          apply bind_inv in H1 as [(b & w3 & t5 & t6 & [= <- <- <-] & H1 & ->)|(x & [=] & _)].
          apply bind_inv in H1 as [(b' & w4 & t7 & t8 & Hp & H1 & ->)|(x & Hp & ->)];
            apply remote_call_inv in Hp as (o & -> & _).
          + injection H1 as <- <- <-.
            change (parents_first pre0 ([Log DEBUG ("Uploading file: " +:+ os_path_join local_dir item +:+ " -> " +:+ (rstrip_slash (abs_path names) +:+ "/" +:+ item))] ++ [Op (Put (os_path_join local_dir item) (rstrip_slash (abs_path names) +:+ "/" +:+ item) content) o] ++ [Log DEBUG ("Uploaded: " +:+ item)]) = true).
            rewrite !parents_first_app. rewrite Hput; [reflexivity|].
            intros p Hp. apply existsb_app_l, Hp.
          + change (parents_first pre0 ([Log DEBUG ("Uploading file: " +:+ os_path_join local_dir item +:+ " -> " +:+ (rstrip_slash (abs_path names) +:+ "/" +:+ item))] ++ [Op (Put (os_path_join local_dir item) (rstrip_slash (abs_path names) +:+ "/" +:+ item) content) o]) = true).
            rewrite !parents_first_app. rewrite Hput; [reflexivity|].
            intros p Hp. apply existsb_app_l, Hp.
        - rewrite (abs_path_child names item Hv) in H1.
          eapply (Hc Hwc (names ++ [item])); [|exact H1].
          apply Forall_app. split; [exact Hv|]. constructor; [exact Hvi|constructor]. }
      simpl in H.
      apply bind_inv in H as [(a & w1 & t1 & t2 & H1 & H2 & ->)|(x & H1 & ->)].
      * rewrite parents_first_app, (Hentry _ _ _ H1). simpl.
        apply (IHe _ _ _ _ _ _ Hwe H2). intros Hne. apply existsb_app_l, Hens, Hne.
      * exact (Hentry _ _ _ H1).
  - simpl. exact Hpe.
Qed.

(** C2: in every mirror of a well-formed tree to an absolute remote
    directory, each path created or transferred to, unless it lies
    directly below the server root, comes after the event that ensured its
    parent directory (a probe that found it, or its creation).  For
    [A/B/file.txt] mirrored to [/repo] on a server holding only its root:
    [/repo], [/repo/A], [/repo/A/B] are created in this order, then the
    file is transferred. *)
Theorem C2_parents_before_children :
  (forall env local names local_dir h w r w' t,
      wf_node local = true ->
      Forall (fun n => valid_name n = true) names ->
      _upload_directory env local local_dir (abs_path names) h w = (r, w', t) ->
      parents_first [] t = true)
  /\ (exists w' t,
        _upload_directory healthy_env sample_tree "/opt/autopkg/munki_repo" "/repo" []
          sample_world = (Ok tt, w', t)
        /\ mutations t
           = [Op (Mkdir "/repo") None; Op (Mkdir "/repo/A") None; Op (Mkdir "/repo/A/B") None;
              Op (Put "/opt/autopkg/munki_repo/A/B/file.txt" "/repo/A/B/file.txt"
                    [Byte.x68; Byte.x69]) None]).
Proof.
  split.
  - intros env local names local_dir h w r w' t Hwf Hv H.
    exact (upload_ordered env local Hwf names _ _ _ _ _ _ [] Hv H).
  - do 2 eexists. split; [vm_compute; reflexivity|]. vm_compute. reflexivity.
Qed.

Lemma C2_witness :
  let '(r, w', t) :=
    _upload_directory healthy_env sample_tree "/opt/autopkg/munki_repo" "/repo" [] sample_world in
  parents_first [] t = true.
Proof.
  destruct (_upload_directory healthy_env sample_tree "/opt/autopkg/munki_repo" "/repo" []
              sample_world) as [[r w'] t] eqn:H.
  refine (proj1 C2_parents_before_children healthy_env sample_tree ["repo"] _ _ _ _ _ _ _ _ H).
  - reflexivity.
  - repeat constructor.
Defined.


(** * Further properties of the script *)

(** ** Running commands *)

(** X1: [_run_command] leaves the world as it is, starts exactly its
    command, never returns [None], ends the process (with status 1) exactly
    when the command is missing, and with [check] returns only a process
    that exited with status 0; the result holds the output exactly when
    [capture_output] is set. *)
Theorem X1_run_command_contract (env : Env) (command : list string)
    (check capture_output : bool) h w :
  exists r t,
    _run_command env command check capture_output h w = (r, w, t)
    /\ spawned t = [command]
    /\ r <> Ok None
    /\ (forall c, r = Raise (SystemExit c) -> c = 1)
    /\ (r = Raise (SystemExit 1)
        <-> spawn env (h ++ [Log DEBUG ("Running command: " +:+ join_words command)]) command
            = inl NotFound)
    /\ (forall res, r = Ok (Some res) ->
          (check = true -> returncode res = 0)
          /\ (stdout res <> None <-> capture_output = true)
          /\ (stderr res <> None <-> capture_output = true)).
Proof.
  unfold _run_command, try_except, bind, subprocess_run, log, ret, raise_exc, sys_exit, throw.
  simpl. case_spawn.
  - do 2 eexists. repeat split; try reflexivity; try discriminate; congruence.
  - do 2 eexists. repeat split; try reflexivity; try discriminate.
  - destruct (check && negb (p_status p =? 0)) eqn:Hc; simpl.
    + destruct capture_output; simpl;
        [destruct (negb (p_err p =? "")%string); simpl|];
        destruct check; simpl; try discriminate Hc;
        do 2 eexists; repeat split; try reflexivity; try discriminate.
    + do 2 eexists. split; [reflexivity|]. split; [reflexivity|].
      split; [discriminate|]. split; [discriminate|]. split; [split; discriminate|].
      intros res [= <-]. simpl. split; [|split].
      * intros ->. simpl in Hc. apply negb_false_iff, Z.eqb_eq in Hc. exact Hc.
      * destruct capture_output; split; congruence.
      * destruct capture_output; split; congruence.
Qed.

(** X2: for a command that exits with a non-zero status, [check=True]
    makes [_run_command] log an error and raise [CalledProcessError] with
    that status, while [check=False] returns the completed process with
    that status and logs no error. *)
Theorem X2_run_command_check (env : Env) (command : list string) (capture_output : bool)
    h w (p : ProcessRun) :
  spawn env (h ++ [Log DEBUG ("Running command: " +:+ join_words command)]) command = inr p ->
  p_status p <> 0 ->
  (exists t,
      _run_command env command true capture_output h w
      = (Raise (Exc (CalledProcessError (p_status p) command
                       (if capture_output then Some (p_err p) else None))), w, t)
      /\ existsb is_error t = true)
  /\ (exists t res,
        _run_command env command false capture_output h w = (Ok (Some res), w, t)
        /\ returncode res = p_status p
        /\ existsb is_error t = false).
Proof.
  intros Hs Hne. apply Z.eqb_neq in Hne.
  unfold _run_command, try_except, bind, subprocess_run, log, ret, raise_exc, sys_exit, throw.
  simpl. rewrite Hs, Hne. simpl. split.
  - destruct capture_output; simpl;
      [destruct (negb (p_err p =? "")%string); simpl|];
      eexists; split; reflexivity.
  - do 2 eexists. split; [reflexivity|]. split; reflexivity.
Qed.

Lemma X2_witness :
  exists t,
    _run_command failing_env ["defaults"; "read"] true true [] sample_world
    = (Raise (Exc (CalledProcessError 1 ["defaults"; "read"] (Some "error"))), sample_world, t)
    /\ existsb is_error t = true.
Proof.
  refine (proj1 (X2_run_command_check failing_env ["defaults"; "read"] true [] sample_world
                   (failed_run 1) _ _)).
  - reflexivity.
  - discriminate.
Defined.

(** X3: [configure_munki_repo] never changes the world and starts at
    most one command, the [defaults write] of [MUNKI_REPO]; the path it
    writes is the resolved repository path, and that path exists on disk. *)
Theorem X3_munki_repo_path_exists (env : Env) (config : Config) h w :
  exists r t,
    configure_munki_repo env config h w = (r, w, t)
    /\ (spawned t = []
        \/ (spawned t
            = [munki_repo_command (resolve_repo_path env (default "" (repo_path config)))]
            /\ truthy (repo_path config) = true
            /\ os_path_exists env (resolve_repo_path env (default "" (repo_path config))) = true))
    /\ (r = Ok tt \/ r = Raise (SystemExit 1) \/ exists e, r = Raise (Exc e)).
Proof.
  unfold configure_munki_repo.
  destruct (truthy (repo_path config)) eqn:Ht; simpl;
    [|do 2 eexists; split; [reflexivity|]; split; auto].
  destruct (os_path_exists env _) eqn:Hex; simpl;
    [|do 2 eexists; split; [reflexivity|]; split; auto].
  unfold _run_command, try_except, bind, subprocess_run, log, ret, raise_exc, sys_exit, throw.
  simpl. case_spawn.
  - do 2 eexists. split; [reflexivity|]. split; [right; auto|auto].
  - do 2 eexists. split; [reflexivity|]. split; [right; auto|eauto].
  - destruct (p_status p =? 0); simpl;
      do 2 eexists; (split; [reflexivity|]); (split; [right; auto|eauto]).
Qed.

(** ** Registering repositories: telling "already added" from a failure *)

Lemma prefix_append (s1 s2 : string) :
  String.prefix s1 s2 = true <-> exists b, s2 = s1 +:+ b.
Proof.
  revert s2. induction s1 as [|a s1 IH]; intros s2; simpl.
  - split; [intros _; exists s2; symmetry; apply append_nil_l|destruct s2; reflexivity].
  - destruct s2 as [|b s2]; simpl.
    + split; [discriminate|]. intros [x Hx]. rewrite append_cons in Hx. discriminate.
    + destruct (ascii_dec a b) as [->|Hne].
      * rewrite IH. split; intros [x Hx]; exists x.
        -- rewrite append_cons. congruence.
        -- rewrite append_cons in Hx. congruence.
      * split; [discriminate|]. intros [x Hx]. rewrite append_cons in Hx. congruence.
Qed.

(** X4: [needle in hay], as the script uses it on the repository list, is
    the substring test: it holds exactly when [hay] is some text, then
    [needle], then some text. *)
Theorem X4_contains_substring (needle hay : string) :
  contains needle hay = true <-> exists a b, hay = a +:+ needle +:+ b.
Proof.
  induction hay as [|c hay IH].
  - change (contains needle "") with (String.prefix needle "" || false).
    rewrite orb_false_r. split.
    + intros H. apply (proj1 (prefix_append _ _)) in H. destruct H as [b Hb].
      exists "", b. rewrite append_nil_l. exact Hb.
    + intros (a & b & H). destruct a as [|x a]; [|rewrite append_cons in H; discriminate].
      rewrite append_nil_l in H. apply prefix_append. eauto.
  - change (contains needle (String c hay))
      with (String.prefix needle (String c hay) || contains needle hay).
    rewrite orb_true_iff, IH. split.
    + intros [H|(a & b & H)].
      * apply (proj1 (prefix_append _ _)) in H. destruct H as [b Hb].
        exists "", b. rewrite append_nil_l. exact Hb.
      * exists (String c a), b. rewrite append_cons. congruence.
    + intros (a & b & H). destruct a as [|x a].
      * left. rewrite append_nil_l in H. apply prefix_append. eauto.
      * right. rewrite append_cons in H. injection H as _ H. eauto.
Qed.

(** X5: when [autopkg repo-add] exits non-zero and [autopkg repo-list]
    succeeds, the entry is handled without any error: both commands run, in
    that order, and a warning is logged exactly when neither the name nor
    the URL occurs in the listing (otherwise the repository counts as
    already added). *)
Theorem X5_already_added_by_listing (env : Env) (repo : Repo) h w (p_add p_list : ProcessRun) :
  valid_repo repo = true ->
  (forall h', spawn env h' (repo_add_command repo) = inr p_add) ->
  p_status p_add <> 0 ->
  (forall h', spawn env h' ["autopkg"; "repo-list"] = inr p_list) ->
  p_status p_list = 0 ->
  exists t,
    add_repository env repo h w = (Ok tt, w, t)
    /\ spawned t = [repo_add_command repo; ["autopkg"; "repo-list"]]
    /\ existsb is_error t = false
    /\ existsb is_warning t
       = negb (contains (default "" (repo_name repo)) (p_out p_list)
               || contains (default "" (repo_url repo)) (p_out p_list)).
Proof.
  intros Hv Hadd Hne Hlist Hz. apply Z.eqb_neq in Hne. apply Z.eqb_eq in Hz.
  unfold valid_repo in Hv. apply andb_true_iff in Hv. destruct Hv as [Hn Hu].
  unfold repo_add_command in *.
  unfold add_repository. rewrite Hn, Hu. simpl.
  unfold _run_command, try_except, bind, subprocess_run, log, ret, raise_exc, sys_exit, throw.
  simpl. rewrite Hadd. simpl. rewrite Hne. simpl. rewrite Hlist. simpl. rewrite Hz. simpl.
  destruct (contains _ (p_out p_list) || contains _ (p_out p_list)); simpl;
    eexists; repeat split.
Qed.

Lemma X5_witness :
  exists t,
    add_repository (env_listed "recipes (https://example.org/A)") repo_A []
      sample_world = (Ok tt, sample_world, t)
    /\ spawned t = [repo_add_command repo_A; ["autopkg"; "repo-list"]]
    /\ existsb is_error t = false
    /\ existsb is_warning t
       = negb (contains (default "" (repo_name repo_A))
                 "recipes (https://example.org/A)"
               || contains (default "" (repo_url repo_A))
                    "recipes (https://example.org/A)").
Proof.
  refine (X5_already_added_by_listing
            (env_listed "recipes (https://example.org/A)") repo_A [] sample_world
            (failed_run 1)
            {| p_status := 0; p_out := "recipes (https://example.org/A)";
               p_err := "" |} _ _ _ _ _).
  - reflexivity.
  - intros h'. reflexivity.
  - discriminate.
  - intros h'. reflexivity.
  - reflexivity.
Defined.

(** ** Which commands the registration loop starts *)

Lemma add_repository_commands (env : Env) (repo : Repo) h w :
  exists r t,
    add_repository env repo h w = (r, w, t)
    /\ (spawned t = (if valid_repo repo then [repo_add_command repo] else [])
        \/ (valid_repo repo = true
            /\ spawned t = [repo_add_command repo; ["autopkg"; "repo-list"]])).
Proof.
  destruct (add_repository_spec env repo h w) as (r & t & H & _ & _ & Hf & _ & _).
  exists r, t. split; [exact H|]. clear Hf. revert H.
  unfold add_repository, valid_repo, repo_add_command.
  destruct (truthy (repo_name repo)) eqn:Hn; simpl;
    [destruct (truthy (repo_url repo)) eqn:Hu; simpl|].
  2,3: intros [= <- <-]; left; reflexivity.
  unfold _run_command, try_except, bind, subprocess_run, log, ret, raise_exc, sys_exit, throw.
  simpl. case_spawn.
  - intros [= <- <-]. left. reflexivity.
  - intros [= <- <-]. left. reflexivity.
  - destruct (p_status p =? 0) eqn:Hs; simpl.
    + destruct (negb (p_out p =? "")%string); simpl; intros [= <- <-]; left; reflexivity.
    + case_spawn.
      * intros [= <- <-]. right. split; reflexivity.
      * intros [= <- <-]. right. split; reflexivity.
      * destruct (p_status p0 =? 0) eqn:Hs0; simpl.
        -- destruct (contains _ (p_out p0) || contains _ (p_out p0)); simpl;
             intros [= <- <-]; right; split; reflexivity.
        -- destruct (negb (p_err p0 =? "")%string); simpl;
             intros [= <- <-]; right; split; reflexivity.
Qed.

Lemma registration_command_mono (l : list Repo) (repo : Repo) (c : list string) :
  registration_command l c -> registration_command (repo :: l) c.
Proof.
  intros [H|(x & Hin & Hv & Hc)]; [left; exact H|].
  right. exists x. split; [right; exact Hin|auto].
Qed.

Lemma add_repository_loop_commands (env : Env) (l : list Repo) :
  forall h w, exists r t,
    for_each (add_repository env) l h w = (r, w, t)
    /\ Forall (registration_command l) (spawned t)
    /\ (r = Ok tt -> List.filter is_repo_add (spawned t) = repo_add_commands l).
Proof.
  induction l as [|repo l IH]; intros h w.
  - exists (Ok tt), []. repeat split; auto.
  - destruct (add_repository_commands env repo h w) as (r1 & t1 & H1 & S1).
    assert (F1 : Forall (registration_command (repo :: l)) (spawned t1)
                 /\ List.filter is_repo_add (spawned t1)
                    = (if valid_repo repo then [repo_add_command repo] else [])).
    { destruct S1 as [-> | [Hv ->]].
      - destruct (valid_repo repo) eqn:Hv; split; try reflexivity; [|constructor].
        constructor; [|constructor]. right. exists repo. split; [left; reflexivity|auto].
      - rewrite Hv. split; [|reflexivity].
        constructor; [|constructor; [left; reflexivity|constructor]].
        right. exists repo. split; [left; reflexivity|auto]. }
    destruct F1 as [F1 A1].
    destruct r1 as [[]|x].
    + destruct (IH (h ++ t1) w) as (r2 & t2 & H2 & F2 & A2).
      exists r2, (t1 ++ t2). split; [exact (bind_ok _ _ _ _ _ _ _ _ _ _ H1 H2)|].
      rewrite spawned_app. split.
      * apply Forall_app. split; [exact F1|].
        eapply Forall_impl; [exact F2|]. intros c. apply registration_command_mono.
      * intros Hr. rewrite List.filter_app, A1, (A2 Hr). unfold repo_add_commands. simpl.
        destruct (valid_repo repo); reflexivity.
    + exists (Raise x), t1. split; [exact (bind_raise _ _ _ _ _ _ _ H1)|].
      split; [exact F1|discriminate].
Qed.

Lemma invalid_entries_loop (env : Env) (l : list Repo) :
  List.filter valid_repo l = [] ->
  forall h w, exists t,
    for_each (add_repository env) l h w = (Ok tt, w, t) /\ spawned t = [].
Proof.
  induction l as [|x l IH]; intros Hnone h w.
  - exists []. split; reflexivity.
  - simpl in Hnone. destruct (valid_repo x) eqn:Hv; [discriminate|].
    assert (Hx : add_repository env x h w
                 = (Ok tt, w, [Log WARNING "Skipping invalid repo entry"])).
    { unfold add_repository. unfold valid_repo in Hv.
      destruct (truthy (repo_name x)); simpl in *; [rewrite Hv|]; reflexivity. }
    destruct (IH Hnone (h ++ [Log WARNING "Skipping invalid repo entry"]) w) as (t & Ht & St).
    eexists. split; [exact (bind_ok _ _ _ _ _ _ _ _ _ _ Hx Ht)|exact St].
Qed.

(** X6: [add_repositories] leaves the world as it is and starts nothing
    but [autopkg repo-add] for entries of the configuration that have both a
    name and a URL, and [autopkg repo-list]; when it returns, the
    [repo-add] commands it started are exactly those of the valid entries,
    in the order of the list.  An empty list, or one of invalid entries
    only, starts no command at all. *)
Theorem X6_registration_commands (env : Env) (config : Config) h w :
  exists r t,
    add_repositories env config h w = (r, w, t)
    /\ Forall (registration_command (repos config)) (spawned t)
    /\ (r = Ok tt -> List.filter is_repo_add (spawned t) = repo_add_commands (repos config))
    /\ (List.filter valid_repo (repos config) = [] -> r = Ok tt /\ spawned t = []).
Proof.
  unfold add_repositories. destruct (repos config) as [|repo l] eqn:Hr.
  - do 2 eexists. split; [reflexivity|]. simpl. repeat split; auto.
  - set (msg := Log INFO ("Adding " +:+ pretty (length (repo :: l)) +:+ " repository(ies)...")).
    destruct (add_repository_loop_commands env (repo :: l) (h ++ [msg]) w)
      as (r & t & Ht & F & A).
    exists r, ([msg] ++ t). split; [eapply bind_ok; [reflexivity|exact Ht]|].
    change (spawned ([msg] ++ t)) with (spawned t).
    split; [exact F|]. split; [exact A|].
    intros Hnone.
    destruct (invalid_entries_loop env (repo :: l) Hnone (h ++ [msg]) w) as (t' & Ht' & St').
    rewrite Ht in Ht'. injection Ht' as -> ->. split; [reflexivity|exact St'].
Qed.

(** ** The process environment *)

Lemma env_get_set (k v : string) (e : environ_t) : env_get k (env_set k v e) = Some v.
Proof.
  induction e as [|[k' v'] e IH]; simpl.
  - rewrite String.eqb_refl. reflexivity.
  - destruct (String.eqb k k') eqn:E; simpl.
    + rewrite String.eqb_refl. reflexivity.
    + rewrite E. exact IH.
Qed.

Lemma env_get_set_other (k k' v : string) (e : environ_t) :
  k' <> k -> env_get k' (env_set k v e) = env_get k' e.
Proof.
  intros Hne. apply String.eqb_neq in Hne.
  induction e as [|[k0 v0] e IH]; simpl.
  - rewrite Hne. reflexivity.
  - destruct (String.eqb k k0) eqn:E; simpl.
    + apply String.eqb_eq in E. subst k0. rewrite Hne. reflexivity.
    + rewrite IH. reflexivity.
Qed.


(** ** The environment of the recipe runs *)

Lemma child_envs_app (t1 t2 : list event) : child_envs (t1 ++ t2) = child_envs t1 ++ child_envs t2.
Proof.
  induction t1 as [|e t1 IH]; [reflexivity|].
  destruct e as [l m|c r]; simpl; [exact IH|].
  destruct c; simpl; rewrite ?IH; reflexivity.
Qed.

Lemma run_recipe_child_env (env : Env) (child_env : environ_t) (recipe : string) h w :
  exists t,
    run_recipe env child_env recipe h w = (Ok tt, w, t)
    /\ child_envs t = (if String.eqb recipe "" then [] else [child_env]).
Proof.
  unfold run_recipe.
  destruct (String.eqb recipe "") eqn:He; simpl.
  - exists []. split; reflexivity.
  - unfold bind, try_except, subprocess_run, log. simpl.
    destruct (spawn env _ _) as [err|p]; simpl.
    + eexists. split; reflexivity.
    + destruct (p_status p =? 0); simpl; eexists; split; reflexivity.
Qed.

Lemma run_recipe_loop_child_env (env : Env) (child_env : environ_t) (l : list string) :
  forall h w, exists t,
    for_each (run_recipe env child_env) l h w = (Ok tt, w, t)
    /\ child_envs t = map (fun _ => child_env) (recipe_commands l).
Proof.
  induction l as [|r l IH]; intros h w.
  - exists []. split; reflexivity.
  - destruct (run_recipe_child_env env child_env r h w) as (t1 & H1 & S1).
    destruct (IH (h ++ t1) w) as (t2 & H2 & S2).
    exists (t1 ++ t2). split.
    + simpl. exact (bind_ok _ _ _ _ _ _ _ _ _ _ H1 H2).
    + rewrite child_envs_app, S1, S2. unfold recipe_commands. simpl.
      destruct (String.eqb r ""); reflexivity.
Qed.

(** X8: [run_recipes] never changes the process environment (it works
    on a copy), and hands every recipe run the same environment: the
    process environment with [FAIL_RECIPES_WITHOUT_TRUST_INFO] set to
    [false].  There is one such run per non-empty recipe. *)
Theorem X8_recipes_child_environment (env : Env) (config : Config) h w :
  exists t,
    run_recipes env config h w = (Ok tt, w, t)
    /\ child_envs t
       = map (fun _ => env_set FAIL_RECIPES_WITHOUT_TRUST_INFO "false" (environ w))
             (recipe_commands (recipes config))
    /\ Forall (fun e =>
                 env_get FAIL_RECIPES_WITHOUT_TRUST_INFO e = Some "false"
                 /\ forall k, k <> FAIL_RECIPES_WITHOUT_TRUST_INFO ->
                      env_get k e = env_get k (environ w))
              (child_envs t).
Proof.
  assert (H : exists t,
    run_recipes env config h w = (Ok tt, w, t)
    /\ child_envs t
       = map (fun _ => env_set FAIL_RECIPES_WITHOUT_TRUST_INFO "false" (environ w))
             (recipe_commands (recipes config))).
  { unfold run_recipes. destruct (recipes config) as [|r l] eqn:Hr.
    - eexists. split; reflexivity.
    - destruct (run_recipe_loop_child_env env
                 (env_set FAIL_RECIPES_WITHOUT_TRUST_INFO "false" (environ w)) (r :: l)
                 ((h ++ [Log INFO ("Running " +:+ pretty (length (r :: l)) +:+ " recipe(s)...")])
                    ++ []) w)
        as (t & Ht & St).
      eexists. split.
      + eapply bind_ok; [reflexivity|].
        eapply bind_ok; [reflexivity|]. exact Ht.
      + simpl. exact St. }
  destruct H as (t & Ht & St). exists t. split; [exact Ht|]. split; [exact St|].
  rewrite St. apply List.Forall_forall. intros e He. apply List.in_map_iff in He.
  destruct He as (c & <- & _). split.
  - apply env_get_set.
  - intros k Hk. apply env_get_set_other. exact Hk.
Qed.

(** ** Counting failed recipes *)

Lemma run_recipe_errors (env : Env) (tool : list string -> launch_error + ProcessRun)
    (child_env : environ_t) (recipe : string) h w :
  (forall h' c, spawn env h' c = tool c) ->
  exists t,
    run_recipe env child_env recipe h w = (Ok tt, w, t)
    /\ length (List.filter is_error t)
       = (if negb (String.eqb recipe "") && recipe_fails tool recipe then 1 else 0)%nat.
Proof.
  intros Htool. unfold run_recipe, recipe_fails, recipe_command.
  destruct (String.eqb recipe "") eqn:He; simpl.
  - exists []. split; reflexivity.
  - unfold bind, try_except, subprocess_run, log. simpl.
    rewrite Htool.
    destruct (tool _) as [err|p]; simpl.
    + eexists. split; reflexivity.
    + destruct (p_status p =? 0); simpl; eexists; split; reflexivity.
Qed.

(** X9: with a tool whose answer depends on the command alone,
    [run_recipes] logs exactly one error per failing recipe: the number of
    [ERROR] lines is the number of non-empty recipes whose run exits
    non-zero or cannot be started. *)
Theorem X9_one_error_per_failed_recipe (env : Env)
    (tool : list string -> launch_error + ProcessRun) (config : Config) h w :
  (forall h' c, spawn env h' c = tool c) ->
  exists t,
    run_recipes env config h w = (Ok tt, w, t)
    /\ length (List.filter is_error t)
       = length (List.filter (fun r => negb (String.eqb r "") && recipe_fails tool r)
                   (recipes config)).
Proof.
  intros Htool.
  assert (Hloop : forall child_env l h0 w0, exists t,
            for_each (run_recipe env child_env) l h0 w0 = (Ok tt, w0, t)
            /\ length (List.filter is_error t)
               = length (List.filter (fun r => negb (String.eqb r "") && recipe_fails tool r) l)).
  { intros child_env l. induction l as [|r l IH]; intros h0 w0.
    - exists []. split; reflexivity.
    - destruct (run_recipe_errors env tool child_env r h0 w0 Htool) as (t1 & H1 & S1).
      destruct (IH (h0 ++ t1) w0) as (t2 & H2 & S2).
      exists (t1 ++ t2). split; [simpl; exact (bind_ok _ _ _ _ _ _ _ _ _ _ H1 H2)|].
      rewrite List.filter_app, length_app, S1, S2. simpl.
      destruct (negb (String.eqb r "") && recipe_fails tool r); reflexivity. }
  unfold run_recipes. destruct (recipes config) as [|r l] eqn:Hr.
  - eexists. split; reflexivity.
  - destruct (Hloop (env_set FAIL_RECIPES_WITHOUT_TRUST_INFO "false" (environ w)) (r :: l)
                ((h ++ [Log INFO ("Running " +:+ pretty (length (r :: l)) +:+ " recipe(s)...")])
                   ++ []) w) as (t & Ht & St).
    eexists. split.
    + eapply bind_ok; [reflexivity|].
      eapply bind_ok; [reflexivity|]. exact Ht.
    + simpl. exact St.
Qed.

Lemma X9_witness :
  exists t,
    run_recipes failing_env config_sample [] sample_world = (Ok tt, sample_world, t)
    /\ length (List.filter is_error t)
       = length (List.filter
                   (fun r => negb (String.eqb r "")
                             && recipe_fails (spawn failing_env []) r)
                   (recipes config_sample)).
Proof.
  refine (X9_one_error_per_failed_recipe failing_env (spawn failing_env [])
            config_sample [] sample_world _).
  intros h' c. reflexivity.
Defined.

(** ** Default mode stays on the machine *)

Lemma local_only_ret {A} (a : A) : local_only (ret a).
Proof. intros h w r w' t [= <- <- <-]. repeat split; auto. discriminate. Qed.

Lemma local_only_raise {A} (e : pyexc) : local_only (@raise_exc A e).
Proof. intros h w r w' t [= <- <- <-]. repeat split; auto. discriminate. Qed.

Lemma local_only_exit {A} : local_only (@sys_exit A 1).
Proof. intros h w r w' t [= <- <- <-]. repeat split; auto. congruence. Qed.

Lemma local_only_log lvl msg : local_only (log lvl msg).
Proof. intros h w r w' t [= <- <- <-]. repeat split; auto. discriminate. Qed.

Lemma local_only_get_environ : local_only get_environ.
Proof. intros h w r w' t [= <- <- <-]. repeat split; auto. discriminate. Qed.

Lemma local_only_set_environ k v : local_only (set_environ k v).
Proof. intros h w r w' t [= <- <- <-]. repeat split; auto. discriminate. Qed.

Lemma local_only_bind {A B} (m : Py A) (k : A -> Py B) :
  local_only m -> (forall a, local_only (k a)) -> local_only (bind m k).
Proof.
  intros Hm Hk h w r w' t H. apply bind_inv in H.
  destruct H as [(a & w1 & t1 & t2 & H1 & H2 & ->)|(x & H1 & ->)].
  - destruct (Hm _ _ _ _ _ H1) as (R1 & T1 & S1 & E1 & _).
    destruct (Hk a _ _ _ _ _ H2) as (R2 & T2 & S2 & E2 & C2).
    repeat split; try congruence; [rewrite forallb_app, E1, E2; reflexivity|exact C2].
  - destruct (Hm _ _ _ _ _ H1) as (R1 & T1 & S1 & E1 & C1).
    repeat split; auto. intros c [= ->]. apply C1. reflexivity.
Qed.

Lemma local_only_try_except {A} (m : Py A) (handler : pyexc -> Py A) :
  local_only m -> (forall e, local_only (handler e)) -> local_only (try_except m handler).
Proof.
  intros Hm Hk h w r w' t H. apply try_except_inv in H.
  destruct H as [(e & w1 & t1 & t2 & H1 & H2 & ->)|(H1 & _)].
  - destruct (Hm _ _ _ _ _ H1) as (R1 & T1 & S1 & E1 & _).
    destruct (Hk e _ _ _ _ _ H2) as (R2 & T2 & S2 & E2 & C2).
    repeat split; try congruence; [rewrite forallb_app, E1, E2; reflexivity|exact C2].
  - exact (Hm _ _ _ _ _ H1).
Qed.

Lemma local_only_for_each {A} (body : A -> Py unit) (l : list A) :
  (forall a, local_only (body a)) -> local_only (for_each body l).
Proof.
  intros Hb. induction l as [|a l IH]; simpl.
  - apply local_only_ret.
  - apply local_only_bind; [apply Hb|intros _; exact IH].
Qed.

Lemma local_only_subprocess_run (env : Env) command check capture_output child_env :
  local_only (subprocess_run env command check capture_output child_env).
Proof.
  intros h w r w' t. unfold subprocess_run.
  destruct (spawn env h command) as [err|p].
  - intros [= <- <- <-]. repeat split; auto. discriminate.
  - destruct (check && negb (p_status p =? 0));
      intros [= <- <- <-]; repeat split; auto; discriminate.
Qed.

Create HintDb local_db.
#[local] Hint Resolve local_only_ret local_only_raise local_only_exit local_only_log
  local_only_get_environ local_only_set_environ local_only_subprocess_run : local_db.

Ltac local_steps :=
  repeat first
    [ apply local_only_bind; [|intros ?]
    | apply local_only_try_except; [|intros ?]
    | apply local_only_for_each; intros ?
    | solve [auto with local_db]
    | match goal with
      | |- local_only (match ?x with _ => _ end) => destruct x
      | |- local_only (if ?b then _ else _) => destruct b
      end ].

Lemma local_only_run_command (env : Env) command check capture_output :
  local_only (_run_command env command check capture_output).
Proof. unfold _run_command. local_steps. Qed.

Lemma local_only_configure_munki_repo (env : Env) (config : Config) :
  local_only (configure_munki_repo env config).
Proof.
  unfold configure_munki_repo. simpl. local_steps; apply local_only_run_command.
Qed.

Lemma local_only_configure_trust_info (env : Env) : local_only (configure_trust_info env).
Proof.
  unfold configure_trust_info. local_steps; apply local_only_run_command.
Qed.

Lemma local_only_add_repository (env : Env) (repo : Repo) : local_only (add_repository env repo).
Proof.
  unfold add_repository. simpl.
  destruct (negb (truthy (repo_name repo)) || negb (truthy (repo_url repo)));
    [apply local_only_log|].
  apply local_only_bind; [apply local_only_log|intros _].
  apply local_only_try_except; [|intros e; apply local_only_log].
  apply local_only_bind; [apply local_only_run_command|intros [res|]]; [|apply local_only_log].
  destruct (negb (returncode res =? 0)).
  - apply local_only_bind; [apply local_only_run_command|intros l]. local_steps.
  - local_steps.
Qed.

Lemma local_only_add_repositories (env : Env) (config : Config) :
  local_only (add_repositories env config).
Proof.
  unfold add_repositories. destruct (repos config) as [|repo l]; [apply local_only_log|].
  apply local_only_bind; [apply local_only_log|intros _].
  apply local_only_for_each. intros a. apply local_only_add_repository.
Qed.

Lemma local_only_run_recipes (env : Env) (config : Config) :
  local_only (run_recipes env config).
Proof.
  unfold run_recipes. destruct (recipes config) as [|r l]; [apply local_only_log|].
  apply local_only_bind; [apply local_only_log|intros _].
  apply local_only_bind; [apply local_only_get_environ|intros child_env].
  apply local_only_for_each. intros a. unfold run_recipe. local_steps.
Qed.

Lemma local_only_run (env : Env) (config : Config) : local_only (run env config).
Proof.
  unfold run.
  apply local_only_bind; [apply local_only_log|intros _].
  apply local_only_try_except.
  - apply local_only_bind; [apply local_only_configure_munki_repo|intros _].
    apply local_only_bind; [apply local_only_configure_trust_info|intros _].
    apply local_only_bind; [apply local_only_add_repositories|intros _].
    apply local_only_bind; [apply local_only_run_recipes|intros _].
    apply local_only_log.
  - intros e. local_steps.
Qed.

Lemma run_outcome (env : Env) (config : Config) h w r w' t :
  run env config h w = (r, w', t) -> r = Ok tt \/ r = Raise (SystemExit 1).
Proof.
  intros H. pose proof (local_only_run env config _ _ _ _ _ H) as (_ & _ & _ & _ & Hc).
  unfold run in H. apply bind_inv in H.
  destruct H as [(a & w1 & t1 & t2 & H1 & H2 & ->)|(x & H1 & ->)]; [|discriminate].
  apply try_except_inv in H2.
  destruct H2 as [(e & w2 & t3 & t4 & _ & H3 & ->)|(_ & Hne)].
  - injection H3 as <- _ _. right. reflexivity.
  - destruct r as [[]|[e|c]]; [left; reflexivity|exfalso; exact (Hne e eq_refl)|].
    right. rewrite (Hc c eq_refl). reflexivity.
Qed.

(** X10: default mode never touches the network: whatever the
    environment answers, [run] performs only log lines and child processes,
    leaves the server and the connection state as they are, and ends either
    normally or with exit status 1. *)
Theorem X10_default_mode_is_local (env : Env) (config : Config) h w :
  exists r w' t,
    run env config h w = (r, w', t)
    /\ (r = Ok tt \/ r = Raise (SystemExit 1))
    /\ remote w' = remote w /\ transport w' = transport w /\ sftp w' = sftp w
    /\ forallb is_local_event t = true.
Proof.
  destruct (run env config h w) as [[r w'] t] eqn:H. exists r, w', t.
  split; [reflexivity|]. split; [exact (run_outcome _ _ _ _ _ _ _ H)|].
  destruct (local_only_run env config _ _ _ _ _ H) as (R & T & S & E & _). auto.
Qed.

Lemma munki_repo_commands (env : Env) (config : Config) h w :
  exists r t,
    configure_munki_repo env config h w = (r, w, t)
    /\ (spawned t = []
        \/ (spawned t
            = [munki_repo_command (resolve_repo_path env (default "" (repo_path config)))]
            /\ os_path_exists env (resolve_repo_path env (default "" (repo_path config))) = true)).
Proof.
  unfold configure_munki_repo.
  destruct (truthy (repo_path config)) eqn:Ht; simpl;
    [|do 2 eexists; split; [reflexivity|]; auto].
  destruct (os_path_exists env _) eqn:Hex; simpl;
    [|do 2 eexists; split; [reflexivity|]; auto].
  unfold _run_command, try_except, bind, subprocess_run, log, ret, raise_exc, sys_exit, throw.
  simpl. case_spawn.
  - do 2 eexists. split; [reflexivity|]. right; auto.
  - do 2 eexists. split; [reflexivity|]. right; auto.
  - destruct (p_status p =? 0); simpl;
      do 2 eexists; (split; [reflexivity|]); right; auto.
Qed.

Lemma add_repository_commands_all (env : Env) (config : Config) h w :
  exists r t,
    add_repositories env config h w = (r, w, t)
    /\ Forall (registration_command (repos config)) (spawned t)
    /\ (r = Ok tt -> List.filter is_repo_add (spawned t) = repo_add_commands (repos config)).
Proof.
  unfold add_repositories. destruct (repos config) as [|repo l] eqn:Hr.
  - do 2 eexists. split; [reflexivity|]. simpl. repeat split; auto.
  - set (msg := Log INFO ("Adding " +:+ pretty (length (repo :: l)) +:+ " repository(ies)...")).
    destruct (add_repository_loop_commands env (repo :: l) (h ++ [msg]) w)
      as (r & t & Ht & F & A).
    exists r, ([msg] ++ t). split; [eapply bind_ok; [reflexivity|exact Ht]|].
    change (spawned ([msg] ++ t)) with (spawned t). auto.
Qed.

(** X11: a run of default mode that ends normally has started its
    commands in this order: the [MUNKI_REPO] write (if the repository path
    is set and exists), the trust-info write, the registration commands of
    the repository list, and one [autopkg run] per non-empty recipe; and
    its last log line reports the success. *)
Theorem X11_run_command_order (env : Env) (config : Config) h w w' t :
  run env config h w = (Ok tt, w', t) ->
  exists pre regs,
    spawned t = pre ++ [trust_info_command] ++ regs ++ recipe_commands (recipes config)
    /\ (pre = []
        \/ pre = [munki_repo_command (resolve_repo_path env (default "" (repo_path config)))])
    /\ Forall (registration_command (repos config)) regs
    /\ List.filter is_repo_add regs = repo_add_commands (repos config)
    /\ last t = Some (Log INFO "AutoPkg runner completed successfully").
Proof.
  intros H. unfold run in H. apply bind_inv in H.
  destruct H as [(a & w0 & t0 & t' & H0 & H & ->)|(x & _ & Hx)]; [|discriminate].
  injection H0 as _ <- <-.
  apply try_except_inv in H.
  destruct H as [(e & w1 & t1 & t2 & _ & Hh & _)|(H & _)]; [discriminate Hh|].
  apply bind_inv in H.
  destruct H as [(a1 & w1 & t1 & t1' & H1 & H & ->)|(x & _ & Hx)]; [|discriminate].
  apply bind_inv in H.
  destruct H as [(a2 & w2 & t2 & t2' & H2 & H & ->)|(x & _ & Hx)]; [|discriminate].
  apply bind_inv in H.
  destruct H as [(a3 & w3 & t3 & t3' & H3 & H & ->)|(x & _ & Hx)]; [|discriminate].
  apply bind_inv in H.
  destruct H as [(a4 & w4 & t4 & t4' & H4 & H & ->)|(x & _ & Hx)]; [|discriminate].
  injection H as _ <-. destruct a3.
  match type of H1 with _ _ ?hh ?ww = _ =>
    destruct (munki_repo_commands env config hh ww) as (r1 & s1 & E1 & P1) end.
  rewrite H1 in E1. injection E1 as _ _ <-.
  match type of H2 with _ ?hh ?ww = _ =>
    destruct (configure_trust_info_spec env hh ww) as (r2 & w2' & s2 & E2 & _ & _ & P2) end.
  rewrite H2 in E2. injection E2 as _ _ <-.
  match type of H3 with _ _ ?hh ?ww = _ =>
    destruct (add_repository_commands_all env config hh ww) as (r3 & s3 & E3 & F3 & A3) end.
  rewrite H3 in E3. injection E3 as <- _ <-.
  match type of H4 with _ _ ?hh ?ww = _ =>
    destruct (run_recipes_spec env config hh ww) as (s4 & E4 & P4) end.
  rewrite H4 in E4. injection E4 as _ _ <-.
  exists (spawned t1), (spawned t3).
  split; [|split; [|split; [|split]]].
  - simpl. rewrite !spawned_app, P2, P4. simpl. rewrite app_nil_r. reflexivity.
  - destruct P1 as [->|[-> _]]; auto.
  - exact F3.
  - exact (A3 eq_refl).
  - rewrite !app_assoc. apply last_snoc.
Qed.

Lemma X11_witness :
  exists pre regs,
    spawned (snd (run healthy_env config_sample [] sample_world))
    = pre ++ [trust_info_command] ++ regs ++ recipe_commands (recipes config_sample)
    /\ (pre = []
        \/ pre = [munki_repo_command
                    (resolve_repo_path healthy_env (default "" (repo_path config_sample)))])
    /\ Forall (registration_command (repos config_sample)) regs
    /\ List.filter is_repo_add regs = repo_add_commands (repos config_sample)
    /\ last (snd (run healthy_env config_sample [] sample_world))
       = Some (Log INFO "AutoPkg runner completed successfully").
Proof.
  apply (X11_run_command_order healthy_env config_sample [] sample_world
           (snd (fst (run healthy_env config_sample [] sample_world)))).
  vm_compute. reflexivity.
Defined.

(** ** Upload mode starts no process *)

Lemma no_process_ret {A} (a : A) : no_process (ret a).
Proof. intros h w r w' t [= <- <- <-]. auto. Qed.

Lemma no_process_throw {A} (x : raised) : no_process (@throw A x).
Proof. intros h w r w' t [= <- <- <-]. auto. Qed.

Lemma no_process_log lvl msg : no_process (log lvl msg).
Proof. intros h w r w' t [= <- <- <-]. auto. Qed.

Lemma no_process_set_transport b : no_process (set_transport b).
Proof. intros h w r w' t [= <- <- <-]. auto. Qed.

Lemma no_process_set_sftp b : no_process (set_sftp b).
Proof. intros h w r w' t [= <- <- <-]. auto. Qed.

Lemma no_process_get_transport : no_process get_transport.
Proof. intros h w r w' t [= <- <- <-]. auto. Qed.

Lemma no_process_get_sftp : no_process get_sftp.
Proof. intros h w r w' t [= <- <- <-]. auto. Qed.

Lemma no_process_bind {A B} (m : Py A) (k : A -> Py B) :
  no_process m -> (forall a, no_process (k a)) -> no_process (bind m k).
Proof.
  intros Hm Hk h w r w' t H. apply bind_inv in H.
  destruct H as [(a & w1 & t1 & t2 & H1 & H2 & ->)|(x & H1 & ->)].
  - destruct (Hm _ _ _ _ _ H1) as (E1 & S1). destruct (Hk a _ _ _ _ _ H2) as (E2 & S2).
    rewrite spawned_app, S1, S2. split; [congruence|reflexivity].
  - exact (Hm _ _ _ _ _ H1).
Qed.

Lemma no_process_try_except {A} (m : Py A) (handler : pyexc -> Py A) :
  no_process m -> (forall e, no_process (handler e)) -> no_process (try_except m handler).
Proof.
  intros Hm Hk h w r w' t H. apply try_except_inv in H.
  destruct H as [(e & w1 & t1 & t2 & H1 & H2 & ->)|(H1 & _)].
  - destruct (Hm _ _ _ _ _ H1) as (E1 & S1). destruct (Hk e _ _ _ _ _ H2) as (E2 & S2).
    rewrite spawned_app, S1, S2. split; [congruence|reflexivity].
  - exact (Hm _ _ _ _ _ H1).
Qed.

Lemma no_process_try_pass (m : Py unit) : no_process m -> no_process (try_pass m).
Proof.
  intros Hm h w r w' t. unfold try_pass.
  destruct (m h w) as [[r1 w1] t1] eqn:H1. intros [= <- <- <-].
  exact (Hm _ _ _ _ _ H1).
Qed.

Lemma no_process_try_finally {A} (m : Py A) (f : Py unit) :
  no_process m -> no_process f -> no_process (try_finally m f).
Proof.
  intros Hm Hf h w r w' t. unfold try_finally.
  destruct (m h w) as [[r1 w1] t1] eqn:H1.
  destruct (f (h ++ t1) w1) as [[r2 w2] t2] eqn:H2.
  destruct (Hm _ _ _ _ _ H1) as (E1 & S1). destruct (Hf _ _ _ _ _ H2) as (E2 & S2).
  destruct r2; intros [= <- <- <-]; rewrite spawned_app, S1, S2;
    (split; [congruence|reflexivity]).
Qed.

Lemma no_process_remote_call (env : Env) c sem :
  (forall cmd e, c <> Spawn cmd e) -> no_process (remote_call env c sem).
Proof.
  intros Hc h w r w' t. unfold remote_call.
  destruct (fault env h c) as [e|].
  - intros [= <- <- <-]. split; [reflexivity|]. destruct c; try reflexivity.
    exfalso. exact (Hc _ _ eq_refl).
  - destruct (sem (remote w)) as [o fs]. intros [= <- <- <-]. split; [reflexivity|].
    destruct c; try reflexivity. exfalso. exact (Hc _ _ eq_refl).
Qed.

Lemma sftp_steps_no_spawn (env : Env) h fs t fs' :
  sftp_steps env h fs t fs' -> spawned t = [] /\ forallb is_mirror_event t = true.
Proof.
  induction 1 as [|h1 fs e1 fs1 t1 fs2 Hstep _ [IH1 IH2]]; [split; reflexivity|].
  destruct Hstep as [| c e2 r2 Hsem _ | c r2 fs' _ Hsem]; simpl; [auto| |];
    destruct c; simpl in Hsem; try discriminate; auto.
Qed.

Lemma no_process_sftp_only {A} (env : Env) (m : Py A) : sftp_only env m -> no_process m.
Proof.
  intros Hm h w r w' t H. destruct (Hm _ _ _ _ _ H) as (Hs & He & _).
  split; [exact He|]. exact (proj1 (sftp_steps_no_spawn _ _ _ _ _ Hs)).
Qed.

Lemma no_process_session_finally (env : Env) : no_process (session_finally env).
Proof.
  unfold session_finally.
  apply no_process_bind; [apply no_process_get_sftp|intros b1].
  apply no_process_bind.
  { destruct b1; [apply no_process_try_pass, no_process_remote_call; discriminate
                 |apply no_process_ret]. }
  intros _. apply no_process_bind; [apply no_process_get_transport|intros b2].
  destruct b2; [apply no_process_try_pass, no_process_remote_call; discriminate
               |apply no_process_ret].
Qed.

Lemma no_process_session_handler (e : pyexc) : no_process (session_handler e).
Proof.
  destruct e; simpl;
    (apply no_process_bind; [apply no_process_log|intros _; apply no_process_throw]).
Qed.

Lemma no_process_sftp_session (env : Env) host port user password local path :
  no_process (sftp_session env host port user password local path).
Proof.
  unfold sftp_session.
  apply no_process_bind; [apply no_process_set_transport|intros _].
  apply no_process_bind; [apply no_process_set_sftp|intros _].
  apply no_process_try_finally; [|apply no_process_session_finally].
  apply no_process_try_except; [|apply no_process_session_handler].
  apply no_process_bind; [apply no_process_remote_call; discriminate|intros _].
  apply no_process_bind; [apply no_process_set_transport|intros _].
  apply no_process_bind; [apply no_process_remote_call; discriminate|intros _].
  apply no_process_bind; [apply no_process_remote_call; discriminate|intros _].
  apply no_process_bind; [apply no_process_remote_call; discriminate|intros _].
  apply no_process_bind; [apply no_process_set_sftp|intros _].
  apply no_process_bind; [apply no_process_log|intros _].
  apply no_process_bind; [apply (no_process_sftp_only env), sftp_only_upload|intros _].
  apply no_process_log.
Qed.

Lemma logs_spawn_nothing (t : list event) : forallb is_log t = true -> spawned t = [].
Proof.
  induction t as [|e t IH]; [reflexivity|]. simpl. intros H.
  apply andb_true_iff in H as [He Ht]. destruct e; [exact (IH Ht)|discriminate].
Qed.

Lemma upload_repo_no_process (env : Env) (config : Config) h w r w' t :
  upload_repo env config h w = (r, w', t) -> spawned t = [] /\ environ w' = environ w.
Proof.
  intros H. destruct (upload_ready env config) eqn:Hready.
  - destruct (upload_repo_ready env config h w Hready) as (local & _ & E).
    rewrite E in H.
    assert (Hn : no_process
                   (log INFO ("Connecting to SFTP server: " +:+ default "" (sftp_user config)
                                +:+ "@" +:+ default "" (sftp_host config) +:+ ":"
                                +:+ pretty (default 22 (sftp_port config)));;
                    log INFO "Authenticating with username/password from config file";;
                    sftp_session env (default "" (sftp_host config))
                      (default 22 (sftp_port config)) (default "" (sftp_user config))
                      (default "" (sftp_password config)) local
                      (resolve_repo_path env (default "" (repo_path config))))).
    { apply no_process_bind; [apply no_process_log|intros _].
      apply no_process_bind; [apply no_process_log|intros _].
      apply no_process_sftp_session. }
    destruct (Hn _ _ _ _ _ H) as (He & Hs). auto.
  - destruct (upload_repo_not_ready env config h w Hready) as (t' & H' & _ & Hlog).
    rewrite H' in H. injection H as <- <- <-.
    split; [exact (logs_spawn_nothing _ Hlog)|reflexivity].
Qed.

(** X12: upload mode never starts a process and never changes the
    process environment, whatever the configuration, the local disk and the
    network do. *)
Theorem X12_upload_starts_no_process (env : Env) (config : Config) h w :
  exists r w' t,
    upload_repo env config h w = (r, w', t)
    /\ spawned t = []
    /\ environ w' = environ w.
Proof.
  destruct (upload_repo env config h w) as [[r w'] t] eqn:H. exists r, w', t.
  split; [reflexivity|]. exact (upload_repo_no_process env config h w r w' t H).
Qed.

(** ** File operations come after authentication *)

Lemma session_work_files (env : Env) host port user password local path h w r w1 work :
  session_work env host port user password local path h w = (r, w1, work) ->
  existsb is_file_op work = true ->
  exists rest, work = session_prefix host port user password ++ rest.
Proof.
  unfold session_work, try_except, bind, remote_call, no_effect, set_transport,
    set_sftp, set_remote, log.
  simpl.
  destruct (fault env h (Connect host port)) as [e|] eqn:F1; simpl.
  { destruct (session_handler_exits e (h ++ [Op (Connect host port) (Some e)]) w) as (msg & ->).
    intros [= <- <- <-]. discriminate. }
  destruct (fault env _ StartClient) as [e|] eqn:F2; simpl.
  { match goal with |- context [session_handler e ?h ?w] =>
      destruct (session_handler_exits e h w) as (msg & ->) end.
    intros [= <- <- <-]. discriminate. }
  destruct (fault env _ (AuthPassword user password)) as [e|] eqn:F3; simpl.
  { match goal with |- context [session_handler e ?h ?w] =>
      destruct (session_handler_exits e h w) as (msg & ->) end.
    intros [= <- <- <-]. discriminate. }
  destruct (fault env _ OpenSftp) as [e|] eqn:F4; simpl.
  { match goal with |- context [session_handler e ?h ?w] =>
      destruct (session_handler_exits e h w) as (msg & ->) end.
    intros [= <- <- <-]. discriminate. }
  match goal with |- context [_upload_directory env local path "/" ?h0 ?w0] =>
    destruct (_upload_directory env local path "/" h0 w0) as [[ru wu] tu] eqn:Hu
  end.
  destruct ru as [[]|[e|c]].
  - intros [= <- <- <-] _. eexists. reflexivity.
  - match goal with |- context [session_handler e ?h ?w] =>
      destruct (session_handler_exits e h w) as (msg & ->) end.
    intros [= <- <- <-] _. eexists. reflexivity.
  - intros [= <- <- <-] _. eexists. reflexivity.
Qed.

Lemma logs_no_file_op (t : list event) : forallb is_log t = true -> existsb is_file_op t = false.
Proof.
  induction t as [|e t IH]; [reflexivity|]. simpl. intros H.
  apply andb_true_iff in H as [He Ht]. rewrite (IH Ht).
  destruct e; [reflexivity|discriminate].
Qed.

Lemma closes_no_file_op (t : list event) : forallb is_close t = true -> existsb is_file_op t = false.
Proof.
  induction t as [|e t IH]; [reflexivity|]. simpl. intros H.
  apply andb_true_iff in H as [He Ht]. rewrite (IH Ht).
  destruct e as [?|[] ?]; try reflexivity; discriminate.
Qed.

Lemma files_after_prefix (env : Env) (config : Config) h w r w' t :
  upload_repo env config h w = (r, w', t) ->
  existsb is_file_op t = true ->
  exists rest,
    t = connect_banner config
        ++ session_prefix (default "" (sftp_host config)) (default 22 (sftp_port config))
             (default "" (sftp_user config)) (default "" (sftp_password config))
        ++ rest.
Proof.
  intros H Hop. destruct (upload_ready env config) eqn:Hready.
  - destruct (upload_repo_session env config h w r w' t Hready H)
      as (local & w1 & work & _ & Hw & -> & _).
    rewrite !existsb_app in Hop.
    rewrite (closes_no_file_op _ (closing_closes env _ work)), orb_false_r in Hop.
    change (existsb is_file_op (connect_banner config)) with false in Hop.
    simpl in Hop.
    destruct (session_work_files env _ _ _ _ _ _ _ _ _ _ _ Hw Hop) as (rest & ->).
    eexists. rewrite <- !app_assoc. reflexivity.
  - destruct (upload_repo_not_ready env config h w Hready) as (t' & H' & _ & Hlog).
    rewrite H' in H. injection H as <- <- <-.
    rewrite (logs_no_file_op _ Hlog) in Hop. discriminate.
Qed.

(** X13: the server sees no probe, creation or transfer before the
    session is fully set up: a run of upload mode that performs any file
    operation begins with the two connection log lines, the successful
    connection, client start, password authentication with the configured
    user and password, and the opening of the file-transfer channel. *)
Theorem X13_file_operations_after_authentication (env : Env) (config : Config) h w r w' t :
  upload_repo env config h w = (r, w', t) ->
  existsb is_file_op t = true ->
  exists rest,
    t = connect_banner config
        ++ session_prefix (default "" (sftp_host config)) (default 22 (sftp_port config))
             (default "" (sftp_user config)) (default "" (sftp_password config))
        ++ rest.
Proof. exact (files_after_prefix env config h w r w' t). Qed.

Lemma X13_witness :
  exists rest,
    snd (upload_repo healthy_env config_sample [] sample_world)
    = connect_banner config_sample
      ++ session_prefix "sftp.example.org" 22 "munki" "secret" ++ rest.
Proof.
  apply (X13_file_operations_after_authentication healthy_env config_sample [] sample_world
           (fst (fst (upload_repo healthy_env config_sample [] sample_world)))
           (snd (fst (upload_repo healthy_env config_sample [] sample_world)))).
  - vm_compute. reflexivity.
  - vm_compute. reflexivity.
Defined.

(** ** What upload mode does to the server *)

Lemma closes_open_nothing (t : list event) :
  forallb is_close t = true -> opened_sftp t = false /\ puts t = [].
Proof.
  unfold opened_sftp. induction t as [|e l IH]; [split; reflexivity|]. simpl. intros H.
  apply andb_true_iff in H as [He Hl]. destruct (IH Hl) as [I1 I2]. rewrite I1.
  destruct e as [?|[] []]; try discriminate; auto.
Qed.

Lemma logs_no_puts (t : list event) : forallb is_log t = true -> puts t = [].
Proof.
  induction t as [|e l IH]; [reflexivity|]. simpl. intros H.
  apply andb_true_iff in H as [He Hl]. destruct e; [exact (IH Hl)|discriminate].
Qed.

Lemma upload_repo_server (env : Env) (config : Config) h w r w' t :
  upload_repo env config h w = (r, w', t) ->
  (r = Raise (SystemExit 1) /\ remote w' = remote w /\ opened_sftp t = false /\ puts t = [])
  \/ exists local ru hu wu tu pre post,
      local_fs env (resolve_repo_path env (default "" (repo_path config))) = Some local
      /\ _upload_directory env local (resolve_repo_path env (default "" (repo_path config))) "/"
           hu (connected (disconnected w)) = (ru, wu, tu)
      /\ t = pre ++ tu ++ post
      /\ puts pre = [] /\ puts post = []
      /\ existsb is_file_op pre = false /\ existsb is_file_op post = false
      /\ opened_sftp pre = true
      /\ remote w' = remote wu
      /\ (ru = Ok tt -> r = Ok tt)
      /\ (ru <> Ok tt -> r = Raise (SystemExit 1)).
Proof.
  intros H. destruct (upload_ready env config) eqn:Hready.
  - destruct (upload_repo_session env config h w r w' t Hready H)
      as (local & w1 & work & Hl & Hw & -> & Hr).
    destruct (session_work_spec env _ _ _ _ _ _ _ (disconnected w) _ _ _ eq_refl eq_refl Hw)
      as (_ & _ & _ & _ & [(-> & Hrw & Ho & Hp)
                          |(ru & wu & tu & post & Hu & -> & Hpost & Hrw & Hok & Hko)]).
    + left. split; [reflexivity|]. split; [rewrite Hr; exact Hrw|].
      destruct (closes_open_nothing _ (closing_closes env (h ++ connect_banner config) work))
        as [C1 C2].
      unfold opened_sftp in *. rewrite !existsb_app, !puts_app, Ho, Hp, C1, C2.
      split; reflexivity.
    + right. exists local, ru.
      exists ((h ++ connect_banner config)
              ++ session_prefix (default "" (sftp_host config)) (default 22 (sftp_port config))
                   (default "" (sftp_user config)) (default "" (sftp_password config))).
      exists wu, tu.
      exists (connect_banner config
              ++ session_prefix (default "" (sftp_host config)) (default 22 (sftp_port config))
                   (default "" (sftp_user config)) (default "" (sftp_password config))).
      eexists. split; [exact Hl|]. split; [exact Hu|]. split.
      { rewrite <- !app_assoc. reflexivity. }
      split; [reflexivity|]. split.
      { rewrite puts_app, (logs_no_puts _ Hpost).
        exact (proj2 (closes_open_nothing _ (closing_closes env _ _))). }
      split; [reflexivity|]. split.
      { rewrite existsb_app, (logs_no_file_op _ Hpost).
        exact (closes_no_file_op _ (closing_closes env _ _)). }
      split; [reflexivity|]. split; [congruence|]. split; assumption.
  - destruct (upload_repo_not_ready env config h w Hready) as (t' & H' & _ & Hlog).
    rewrite H' in H. injection H as <- <- <-. left.
    split; [reflexivity|]. split; [reflexivity|].
    destruct (logs_open_nothing _ Hlog) as [H1 _]. split; [exact H1|].
    exact (logs_no_puts _ Hlog).
Qed.

Lemma upload_ok_files (env : Env) (local : node) local_dir remote_dir h w w' t :
  wf_node local = true ->
  _upload_directory env local local_dir remote_dir h w = (Ok tt, w', t) ->
  puts t = expected_puts local remote_dir
  /\ forall names content,
       In (names, content) (tree_files local) ->
       remote w' !! remote_under remote_dir names = Some (RFile content).
Proof.
  intros Hwf H.
  destruct (upload_puts env _ Hwf _ _ _ _ _ _ _ H) as (E & _). specialize (E eq_refl).
  split; [exact E|]. intros names content Hin.
  destruct local as [c|entries]; [destruct Hin|].
  assert (Hp : In (remote_under remote_dir names, content) (puts t)).
  { rewrite E. unfold expected_puts.
    apply (in_map (fun f : list string * bytes => (remote_under remote_dir (fst f), snd f))
             _ _ Hin). }
  apply puts_in_inv in Hp as (l & o & Hp).
  pose proof (mirror_like_upload env _ entries _ _ eq_refl _ _ _ _ _ H) as Hc. simpl in Hc.
  rewrite (clean_put_ok _ _ _ _ _ Hc Hp) in Hp.
  exact (upload_put_persists env _ _ _ _ _ _ _ _ _ _ _ Hwf H Hp).
Qed.

(** X14: when upload mode ends normally, the whole repository is on the
    server: every file of the local tree is at the root of the server under
    its own relative path, with the bytes of the local file, and the
    transfers performed are exactly those of the tree, in listing order. *)
Theorem X14_upload_mode_mirrors_repository (env : Env) (config : Config) h w w' t :
  wf_local env config ->
  upload_repo env config h w = (Ok tt, w', t) ->
  exists local,
    local_fs env (resolve_repo_path env (default "" (repo_path config))) = Some local
    /\ puts t = map (fun f : list string * bytes => (join_path (fst f), snd f)) (tree_files local)
    /\ forall names content,
         In (names, content) (tree_files local) ->
         remote w' !! join_path names = Some (RFile content).
Proof.
  intros Hwf H.
  destruct (upload_repo_server env config h w _ w' t H)
    as [([=] & _)|(local & ru & hu & wu & tu & pre & post & Hl & Hu & -> & Hpre & Hpost & _
                   & _ & _ & Hr & _ & Hko)].
  assert (ru = Ok tt) as ->.
  { destruct ru as [[]|x]; [reflexivity|]. discriminate Hko. discriminate. }
  destruct (upload_ok_files env local _ _ _ _ _ _ (Hwf _ Hl) Hu) as (Hp & Hf).
  assert (Hroot : forall names, remote_under "/" names = join_path names).
  { intros names. rewrite remote_under_join. apply append_nil_l. }
  exists local. split; [exact Hl|]. split.
  - rewrite !puts_app, Hpre, Hpost, app_nil_r, Hp. simpl. unfold expected_puts.
    apply map_ext. intros f. rewrite Hroot. reflexivity.
  - intros names content Hin. rewrite Hr, <- Hroot. exact (Hf names content Hin).
Qed.

Lemma X14_witness :
  exists local,
    local_fs healthy_env (resolve_repo_path healthy_env (default "" (repo_path config_sample)))
    = Some local
    /\ puts (snd (upload_repo healthy_env config_sample [] sample_world))
       = map (fun f : list string * bytes => (join_path (fst f), snd f)) (tree_files local)
    /\ forall names content,
         In (names, content) (tree_files local) ->
         remote (snd (fst (upload_repo healthy_env config_sample [] sample_world)))
           !! join_path names = Some (RFile content).
Proof.
  apply (X14_upload_mode_mirrors_repository healthy_env config_sample [] sample_world).
  - intros local Hl. vm_compute in Hl. injection Hl as <-. reflexivity.
  - vm_compute. reflexivity.
Defined.

Lemma srv_step_keeps_dir (env : Env) h fs e fs' q x :
  sftp_step env h fs e fs' ->
  fs !! q = Some x ->
  fs' !! q <> None /\ (x = RDir -> fs' !! q = Some RDir).
Proof.
  intros Hs Hq.
  assert (Hsame : fs !! q <> None /\ (x = RDir -> fs !! q = Some RDir)).
  { split; [congruence|]. intros ->. exact Hq. }
  destruct Hs as [lvl msg|c e r Hsem Hf|c r fs' Hf Hsem]; try exact Hsame.
  destruct c; simpl in Hsem; try discriminate; injection Hsem as Hsem.
  - subst. exact Hsame.
  - unfold srv_mkdir in Hsem. destruct (fs !! path) eqn:Hp; [injection Hsem as <- <-; exact Hsame|].
    destruct (fs !! dirname path) as [[|]|]; injection Hsem as <- <-; try exact Hsame.
    rewrite lookup_insert_ne; [exact Hsame|]. intros ->. congruence.
  - unfold srv_put in Hsem.
    destruct (String.eqb_spec remotepath q) as [->|Hne].
    + rewrite Hq in Hsem. destruct x.
      * destruct (fs !! dirname q) as [[|]|]; injection Hsem as <- <-; try exact Hsame.
        rewrite lookup_insert_eq. split; [discriminate|intros [=]].
      * injection Hsem as <- <-. exact Hsame.
    + destruct (fs !! remotepath) as [[|]|];
        try (injection Hsem as <- <-; exact Hsame);
        destruct (fs !! dirname remotepath) as [[|]|];
        injection Hsem as <- <-; try exact Hsame;
        rewrite lookup_insert_ne; auto.
Qed.

Lemma sftp_steps_keep_dir (env : Env) h fs t fs' q x :
  sftp_steps env h fs t fs' ->
  fs !! q = Some x ->
  fs' !! q <> None /\ (x = RDir -> fs' !! q = Some RDir).
Proof.
  intros Hs. revert x. induction Hs as [h fs|h fs e fs1 t fs2 Hs Ht IH]; intros x Hq.
  - split; [congruence|]. intros ->. exact Hq.
  - destruct (srv_step_keeps_dir env _ _ _ _ _ _ Hs Hq) as [Hne Hd].
    destruct (fs1 !! q) as [y|] eqn:Hy; [|congruence].
    destruct (IH y eq_refl) as [I1 I2]. split; [exact I1|].
    intros ->. apply I2. specialize (Hd eq_refl). congruence.
Qed.

(** X15: upload mode never deletes anything on the server: an entry
    that was there before the run is still there afterwards; a directory is
    still a directory; and an entry the run did not transfer to is
    unchanged. *)
Theorem X15_upload_never_removes (env : Env) (config : Config) h w r w' t q x :
  upload_repo env config h w = (r, w', t) ->
  remote w !! q = Some x ->
  remote w' !! q <> None
  /\ (x = RDir -> remote w' !! q = Some RDir)
  /\ (~ In q (map fst (puts t)) -> remote w' !! q = Some x).
Proof.
  intros H Hq.
  destruct (upload_repo_server env config h w _ w' t H)
    as [(_ & Hr & _ & _)|(local & ru & hu & wu & tu & pre & post & Hl & Hu & -> & Hpre & Hpost
                          & _ & _ & _ & Hr & _ & _)].
  - rewrite Hr, Hq. split; [discriminate|]. split; [intros ->; reflexivity|reflexivity].
  - destruct (sftp_only_upload env local _ _ _ _ _ _ _ Hu) as (Hs & _).
    simpl in Hs. rewrite Hr.
    destruct (sftp_steps_keep_dir env _ _ _ _ _ _ Hs Hq) as [K1 K2].
    split; [exact K1|]. split; [exact K2|].
    intros Hn. eapply sftp_steps_keep; [exact Hs|exact Hq|].
    rewrite !puts_app, Hpre, Hpost, app_nil_r in Hn. exact Hn.
Qed.

Lemma X15_witness :
  remote (snd (fst (upload_repo healthy_env config_sample [] sample_world))) !! "/" <> None
  /\ (RDir = RDir ->
      remote (snd (fst (upload_repo healthy_env config_sample [] sample_world))) !! "/"
      = Some RDir)
  /\ (~ In "/" (map fst (puts (snd (upload_repo healthy_env config_sample [] sample_world)))) ->
      remote (snd (fst (upload_repo healthy_env config_sample [] sample_world))) !! "/"
      = Some RDir).
Proof.
  apply (X15_upload_never_removes healthy_env config_sample [] sample_world
           (fst (fst (upload_repo healthy_env config_sample [] sample_world)))).
  - vm_compute. reflexivity.
  - reflexivity.
Defined.

(** X16: when the file-transfer channel is never opened (the connection,
    the client start, the authentication or the channel itself fails, or a
    precondition is missing), upload mode ends with exit status 1, leaves
    the server exactly as it was, and performs no file operation. *)
Theorem X16_failed_connection_leaves_server (env : Env) (config : Config) h w r w' t :
  upload_repo env config h w = (r, w', t) ->
  opened_sftp t = false ->
  r = Raise (SystemExit 1) /\ exit_code r = 1
  /\ remote w' = remote w
  /\ existsb is_file_op t = false.
Proof.
  intros H Ho.
  assert (Hnf : existsb is_file_op t = false).
  { destruct (existsb is_file_op t) eqn:E; [|reflexivity].
    destruct (files_after_prefix env config h w r w' t H E) as (rest & ->).
    unfold opened_sftp in Ho. rewrite !existsb_app in Ho. simpl in Ho. discriminate. }
  destruct (upload_repo_server env config h w _ w' t H)
    as [(-> & Hr & _ & _)|(local & ru & hu & wu & tu & pre & post & Hl & Hu & -> & Hpre & Hpost
                           & _ & _ & Hop & _)].
  - auto.
  - unfold opened_sftp in *. rewrite existsb_app, Hop in Ho. discriminate.
Qed.

Lemma X16_witness :
  fst (fst (upload_repo env_auth_rejected config_sample [] sample_world))
  = Raise (SystemExit 1)
  /\ exit_code (fst (fst (upload_repo env_auth_rejected config_sample [] sample_world))) = 1
  /\ remote (snd (fst (upload_repo env_auth_rejected config_sample [] sample_world)))
     = remote sample_world
  /\ existsb is_file_op (snd (upload_repo env_auth_rejected config_sample [] sample_world))
     = false.
Proof.
  apply (X16_failed_connection_leaves_server env_auth_rejected config_sample [] sample_world).
  - vm_compute. reflexivity.
  - vm_compute. reflexivity.
Defined.

(** ** The mirror transfers each file once *)

(** X17: [_upload_directory] attempts the transfers of the tree in
    listing order and never transfers to the same remote path twice: the
    transfers of a run are a prefix of those the tree calls for, all of them
    when the run returns normally, each to a distinct path. *)
Theorem X17_each_file_transferred_once (env : Env) (local : node) local_dir remote_dir
    h w r w' t :
  wf_node local = true ->
  _upload_directory env local local_dir remote_dir h w = (r, w', t) ->
  NoDup (map fst (puts t))
  /\ (exists rest, expected_puts local remote_dir = puts t ++ rest)
  /\ (r = Ok tt -> puts t = expected_puts local remote_dir
                   /\ length (puts t) = length (tree_files local)).
Proof.
  intros Hwf H.
  destruct (upload_puts env local Hwf _ _ _ _ _ _ _ H) as (Hok & rest & E).
  pose proof (expected_paths_nodup local remote_dir Hwf) as Hnd.
  split; [|split].
  - rewrite E, map_app in Hnd. apply NoDup_app in Hnd as (Hnd & _). exact Hnd.
  - exists rest. exact E.
  - intros Hr. split; [exact (Hok Hr)|]. rewrite (Hok Hr). unfold expected_puts.
    apply length_map.
Qed.

Lemma X17_witness :
  NoDup (map fst (puts (snd (_upload_directory env_broken_transfer sample_tree2
                               "/opt/autopkg/munki_repo" "/" [] sample_world))))
  /\ (exists rest,
        expected_puts sample_tree2 "/"
        = puts (snd (_upload_directory env_broken_transfer sample_tree2
                       "/opt/autopkg/munki_repo" "/" [] sample_world)) ++ rest)
  /\ (fst (fst (_upload_directory env_broken_transfer sample_tree2
                  "/opt/autopkg/munki_repo" "/" [] sample_world)) = Ok tt ->
      puts (snd (_upload_directory env_broken_transfer sample_tree2
                   "/opt/autopkg/munki_repo" "/" [] sample_world))
      = expected_puts sample_tree2 "/"
      /\ length (puts (snd (_upload_directory env_broken_transfer sample_tree2
                              "/opt/autopkg/munki_repo" "/" [] sample_world)))
         = length (tree_files sample_tree2)).
Proof.
  apply (X17_each_file_transferred_once env_broken_transfer sample_tree2
           "/opt/autopkg/munki_repo" "/" [] sample_world _
           (snd (fst (_upload_directory env_broken_transfer sample_tree2
                        "/opt/autopkg/munki_repo" "/" [] sample_world)))).
  - reflexivity.
  - vm_compute. reflexivity.
Defined.

(** ** Ensuring the server root *)

Lemma ensure_root_spec (env : Env) (remote_dir : string) h w r w' t :
  rstrip_slash remote_dir = "" ->
  _ensure_remote_directory env remote_dir h w = (r, w', t) ->
  exists o,
    t = [Op (Stat remote_dir) o]
    /\ remote w' = remote w
    /\ (o = None \/ o = Some FileNotFoundError -> r = Ok tt)
    /\ (forall e, o = Some e -> e <> FileNotFoundError -> r = Raise (Exc e)).
Proof.
  intros Hroot. unfold _ensure_remote_directory, try_except, sftp_stat, remote_call.
  rewrite Hroot. simpl.
  destruct (fault env h (Stat remote_dir)) as [e|].
  - destruct e; simpl; intros [= <- <- <-]; eexists; (split; [reflexivity|]);
      (split; [reflexivity|]); split;
      try (intros [|]; [discriminate|try reflexivity; congruence]);
      try (intros e' [= <-] He; try reflexivity; congruence).
  - unfold srv_stat. destruct (remote w !! remote_dir); simpl; intros [= <- <- <-];
      eexists; (split; [reflexivity|]); (split; [reflexivity|]); split;
      try (intros _; reflexivity); try (intros e' [= <-] He; congruence);
      intros e' [=].
Qed.

(** X18: ensuring the server root (a path made of slashes only, or the
    empty path) is a single probe: nothing is created, the server is
    unchanged, and the call returns normally whether the probe succeeds or
    reports the path absent; only another error of the probe is raised. *)
Theorem X18_ensure_root_only_probes (env : Env) (remote_dir : string) h w :
  rstrip_slash remote_dir = "" ->
  exists r w' o,
    _ensure_remote_directory env remote_dir h w = (r, w', [Op (Stat remote_dir) o])
    /\ remote w' = remote w
    /\ (o = None \/ o = Some FileNotFoundError -> r = Ok tt)
    /\ (forall e, o = Some e -> e <> FileNotFoundError -> r = Raise (Exc e)).
Proof.
  intros Hroot.
  destruct (_ensure_remote_directory env remote_dir h w) as [[r w'] t] eqn:H.
  destruct (ensure_root_spec env remote_dir h w r w' t Hroot H) as (o & -> & Hr & Ho & He).
  exists r, w', o. auto.
Qed.

Lemma X18_witness :
  exists r w' o,
    _ensure_remote_directory env_racing "//" [] sample_world = (r, w', [Op (Stat "//") o])
    /\ remote w' = remote sample_world
    /\ (o = None \/ o = Some FileNotFoundError -> r = Ok tt)
    /\ (forall e, o = Some e -> e <> FileNotFoundError -> r = Raise (Exc e)).
Proof.
  apply (X18_ensure_root_only_probes env_racing "//" [] sample_world). reflexivity.
Defined.

Lemma no_file_op_no_mkdir (t : list event) :
  existsb is_file_op t = false -> forall p o, ~ In (Op (Mkdir p) o) t.
Proof.
  intros Hn p o Hin.
  assert (Hf : existsb is_file_op t = true).
  { apply existsb_exists. exists (Op (Mkdir p) o). split; [exact Hin|reflexivity]. }
  congruence.
Qed.

(** X19: when the repository path of the configuration is a plain file,
    upload mode ends with exit status 1 without transferring or creating
    anything: the server is exactly as before. *)
Theorem X19_repo_path_is_a_file (env : Env) (config : Config) (content : bytes) h w r w' t :
  local_fs env (resolve_repo_path env (default "" (repo_path config))) = Some (File content) ->
  upload_repo env config h w = (r, w', t) ->
  r = Raise (SystemExit 1)
  /\ remote w' = remote w
  /\ puts t = []
  /\ forall p o, ~ In (Op (Mkdir p) o) t.
Proof.
  intros Hfile H.
  destruct (upload_repo_server env config h w _ w' t H)
    as [(-> & Hr & Ho & Hp)|(local & ru & hu & wu & tu & pre & post & Hl & Hu & -> & Hpre & Hpost
                             & Hfpre & Hfpost & Hop & Hr & _ & Hko)].
  - split; [reflexivity|]. split; [exact Hr|]. split; [exact Hp|].
    intros p o Hin.
    assert (Hf : existsb is_file_op t = true).
    { apply existsb_exists. exists (Op (Mkdir p) o). split; [exact Hin|reflexivity]. }
    destruct (files_after_prefix env config h w _ w' t H Hf) as (rest & ->).
    unfold opened_sftp in Ho. rewrite !existsb_app in Ho. simpl in Ho. discriminate.
  - rewrite Hfile in Hl. injection Hl as <-.
    destruct (upload_file_fails env _ _ _ _ _ _ _ _ Hu) as (e & ->).
    pose proof (upload_file_no_puts env _ _ _ _ _ _ _ _ Hu) as Hpu.
    assert (Hshape : remote wu = remote w
                     /\ forall p o, ~ In (Op (Mkdir p) o) tu).
    { rewrite upload_directory_eq in Hu.
      apply bind_inv in Hu as [(a & w1 & t1 & t2 & [= <- <- <-] & Hu & ->)|(x & [=] & _)].
      apply bind_inv in Hu as [(a' & w2 & t3 & t4 & He & Hu & ->)|(x & He & _)].
      - destruct (ensure_root_spec env "/" _ _ _ _ _ eq_refl He) as (o' & -> & Hrw & _).
        injection Hu as _ <- <-. split; [exact Hrw|].
        intros p o [Hin|[Hin|[]]]; discriminate.
      - destruct (ensure_root_spec env "/" _ _ _ _ _ eq_refl He) as (o' & -> & Hrw & _).
        split; [exact Hrw|]. intros p o [Hin|[Hin|[]]]; discriminate. }
    destruct Hshape as [Hrw Hmk].
    split; [apply Hko; discriminate|]. split; [congruence|]. split.
    + rewrite !puts_app, Hpre, Hpost, Hpu. reflexivity.
    + intros p o Hin. apply in_app_or in Hin as [Hin|Hin].
      * exact (no_file_op_no_mkdir _ Hfpre _ _ Hin).
      * apply in_app_or in Hin as [Hin|Hin]; [exact (Hmk _ _ Hin)|].
        exact (no_file_op_no_mkdir _ Hfpost _ _ Hin).
Qed.

Lemma X19_witness :
  fst (fst (upload_repo env_file_repo config_sample [] sample_world)) = Raise (SystemExit 1)
  /\ remote (snd (fst (upload_repo env_file_repo config_sample [] sample_world)))
     = remote sample_world
  /\ puts (snd (upload_repo env_file_repo config_sample [] sample_world)) = []
  /\ forall p o,
       ~ In (Op (Mkdir p) o) (snd (upload_repo env_file_repo config_sample [] sample_world)).
Proof.
  apply (X19_repo_path_is_a_file env_file_repo config_sample [] [] sample_world).
  - reflexivity.
  - vm_compute. reflexivity.
Defined.

(** ** The paths the walk probes and creates *)

Lemma walk_next (done : list string) (part : string) :
  (if negb (String.eqb (join_path done) "") then join_path done +:+ "/" +:+ part
   else "/" +:+ part)
  = join_path (done ++ [part]).
Proof.
  rewrite join_path_app. change (join_path [part]) with ("/" +:+ part +:+ "").
  rewrite append_nil_r.
  destruct (String.eqb (join_path done) "") eqn:E; cbn [negb]; [|reflexivity].
  apply String.eqb_eq in E. rewrite E, append_nil_l. reflexivity.
Qed.

Lemma ensure_walk_paths (env : Env) (parts : list string) :
  forall done h w r w' t,
    ensure_walk env parts (join_path done) h w = (r, w', t) ->
    forall e p, In e t -> ensure_path e = Some p ->
      exists k, (0 < k <= length (List.filter (fun s => negb (String.eqb s "")) parts))%nat
                /\ p = join_path
                         (done ++ take k (List.filter (fun s => negb (String.eqb s "")) parts)).
Proof.
  induction parts as [|part rest IH]; intros done h w r w' t H e p Hin Hp; simpl in H.
  - injection H as <- <- <-. destruct Hin.
  - cbn [List.filter]. destruct (String.eqb part "") eqn:Ep; cbn [negb].
    + exact (IH _ _ _ _ _ _ H e p Hin Hp).
    + rewrite walk_next in H.
      assert (Hfirst : forall r1 w1 t1 h1 w0,
                 try_except (sftp_stat env (join_path (done ++ [part])))
                   (fun e =>
                      match e with
                      | FileNotFoundError =>
                          try_except
                            (sftp_mkdir env (join_path (done ++ [part]));;
                             log DEBUG ("Created remote directory: "
                                          +:+ join_path (done ++ [part])))
                            (fun e => log DEBUG ("Directory may already exist or mkdir failed: "
                                                   +:+ show_exc e))
                      | _ => raise_exc e
                      end) h1 w0 = (r1, w1, t1) ->
                 In e t1 -> p = join_path (done ++ [part])).
      { intros r1 w1 t1 h1 w0 Hs Hi.
        apply walk_step_cases in Hs as [(_ & ->)|[(x & _ & ->)|(_ & o & m & ->)]].
        - destruct Hi as [<-|[]]. simpl in Hp. congruence.
        - destruct Hi as [<-|[]]. simpl in Hp. congruence.
        - destruct Hi as [<-|[<-|[<-|[]]]]; simpl in Hp; congruence. }
      apply bind_inv in H as [(a & w1 & t1 & t2 & H1 & H2 & ->)|(x & H1 & ->)].
      * apply in_app_or in Hin as [Hin|Hin].
        -- exists 1%nat. split; [simpl; lia|]. simpl. rewrite take_0.
           exact (Hfirst _ _ _ _ _ H1 Hin).
        -- destruct (IH (done ++ [part]) _ _ _ _ _ H2 e p Hin Hp) as (k & Hk & ->).
           exists (S k). split; [simpl; lia|]. simpl. rewrite <- app_assoc. reflexivity.
      * exists 1%nat. split; [simpl; lia|]. simpl. rewrite take_0.
        exact (Hfirst _ _ _ _ _ H1 Hin).
Qed.

(** X20: whatever [remote_dir] looks like (relative, with doubled or
    trailing slashes), the paths [_ensure_remote_directory] probes after
    the first probe, and every path it creates, are absolute and normalised:
    each is a slash followed by the first [k] non-empty components of
    [remote_dir], joined by single slashes. *)
Theorem X20_created_paths_are_normalised (env : Env) (remote_dir : string) h w r w' t :
  _ensure_remote_directory env remote_dir h w = (r, w', t) ->
  exists o rest,
    t = Op (Stat remote_dir) o :: rest
    /\ (forall e p, In e rest -> ensure_path e = Some p ->
          exists k, (0 < k <= length (path_parts remote_dir))%nat
                    /\ p = join_path (take k (path_parts remote_dir)))
    /\ (forall p o', In (Op (Mkdir p) o') t ->
          exists k, (0 < k <= length (path_parts remote_dir))%nat
                    /\ p = join_path (take k (path_parts remote_dir))).
Proof.
  intros H. unfold _ensure_remote_directory in H.
  assert (Hshape : exists o rest,
             t = Op (Stat remote_dir) o :: rest
             /\ forall e p, In e rest -> ensure_path e = Some p ->
                  exists k, (0 < k <= length (path_parts remote_dir))%nat
                            /\ p = join_path (take k (path_parts remote_dir))).
  { apply try_except_inv in H as [(e & w1 & t1 & t2 & H & Hh & ->)|[H _]];
      apply remote_call_inv in H as (o & -> & E).
    - exists o, t2. split; [reflexivity|].
      destruct e; try (injection Hh as _ _ <-; intros e0 p []).
      intros e0 p Hin Hp.
      exact (ensure_walk_paths env _ [] _ _ _ _ _ Hh e0 p Hin Hp).
    - exists o, []. split; [reflexivity|]. intros e0 p []. }
  destruct Hshape as (o & rest & -> & Hrest). exists o, rest.
  split; [reflexivity|]. split; [exact Hrest|].
  intros p o' [Hin|Hin]; [discriminate|]. exact (Hrest _ p Hin eq_refl).
Qed.

Lemma X20_witness :
  exists o rest,
    snd (_ensure_remote_directory healthy_env "repo//A/" [] sample_world)
    = Op (Stat "repo//A/") o :: rest
    /\ (forall e p, In e rest -> ensure_path e = Some p ->
          exists k, (0 < k <= length (path_parts "repo//A/"))%nat
                    /\ p = join_path (take k (path_parts "repo//A/")))
    /\ (forall p o',
          In (Op (Mkdir p) o')
             (snd (_ensure_remote_directory healthy_env "repo//A/" [] sample_world)) ->
          exists k, (0 < k <= length (path_parts "repo//A/"))%nat
                    /\ p = join_path (take k (path_parts "repo//A/"))).
Proof.
  apply (X20_created_paths_are_normalised healthy_env "repo//A/" [] sample_world
           (fst (fst (_ensure_remote_directory healthy_env "repo//A/" [] sample_world)))
           (snd (fst (_ensure_remote_directory healthy_env "repo//A/" [] sample_world)))).
  vm_compute. reflexivity.
Defined.

(** ** The walk creates the directory *)

Lemma join_path_cons_nonempty (n : string) (l : list string) :
  String.eqb (join_path (n :: l)) "" = false.
Proof. reflexivity. Qed.

Lemma dirname_next (done : list string) (part : string) :
  Forall (fun n => valid_name n = true) done ->
  valid_name part = true ->
  dirname (join_path (done ++ [part])) = abs_path done.
Proof.
  intros Hd Hp. destruct (valid_name_inv _ Hp) as [_ Hs].
  rewrite join_path_app. change (join_path [part]) with ("/" +:+ part +:+ "").
  rewrite append_nil_r, (dirname_child _ _ Hs (join_no_trailing _ Hd)).
  destruct done as [|n l]; [reflexivity|]. rewrite join_path_cons_nonempty. reflexivity.
Qed.

Lemma walk_creates (env : Env) (names : list string) :
  fault_free env ->
  Forall (fun n => valid_name n = true) names ->
  forall done h w,
    Forall (fun n => valid_name n = true) done ->
    remote w !! abs_path done = Some RDir ->
    (forall k c, (0 < k)%nat -> remote w !! join_path (done ++ take k names) <> Some (RFile c)) ->
    exists w' t,
      ensure_walk env names (join_path done) h w = (Ok tt, w', t)
      /\ remote w' !! abs_path (done ++ names) = Some RDir.
Proof.
  intros Hff Hv. induction Hv as [|part rest Hpart Hrest IH]; intros done h w Hd Hdir Hnf.
  - exists w, []. split; [reflexivity|]. rewrite app_nil_r. exact Hdir.
  - destruct (valid_name_inv _ Hpart) as [Hne Hns].
    assert (Ep : String.eqb part "" = false) by (apply String.eqb_neq; exact Hne).
    cbn [ensure_walk]. rewrite Ep, walk_next.
    set (p := join_path (done ++ [part])).
    assert (Habs : abs_path (done ++ [part]) = p).
    { unfold p. destruct done; reflexivity. }
    assert (Hstep : exists w1 t1,
               try_except (sftp_stat env p)
                 (fun e =>
                    match e with
                    | FileNotFoundError =>
                        try_except
                          (sftp_mkdir env p;; log DEBUG ("Created remote directory: " +:+ p))
                          (fun e => log DEBUG ("Directory may already exist or mkdir failed: "
                                                 +:+ show_exc e))
                    | _ => raise_exc e
                    end) h w = (Ok tt, w1, t1)
               /\ remote w1 !! p = Some RDir
               /\ forall q c, remote w1 !! q = Some (RFile c) -> remote w !! q = Some (RFile c)).
    { unfold try_except, sftp_stat, sftp_mkdir, remote_call, bind, log. rewrite Hff.
      unfold srv_stat. destruct (remote w !! p) as [x|] eqn:Ex; simpl.
      - do 2 eexists. split; [reflexivity|]. simpl. split; [|auto].
        destruct x as [c|]; [|exact Ex]. exfalso.
        apply (Hnf 1%nat c); [lia|]. simpl. rewrite take_0. exact Ex.
      - rewrite Hff. unfold srv_mkdir. rewrite Ex.
        unfold p at 1. rewrite (dirname_next done part Hd Hpart), Hdir. simpl.
        do 2 eexists. split; [reflexivity|]. simpl. split; [apply lookup_insert_eq|].
        intros q c Hq. destruct (String.eqb_spec p q) as [<-|Hpq].
        + rewrite lookup_insert_eq in Hq. discriminate.
        + rewrite lookup_insert_ne in Hq by exact Hpq. exact Hq. }
    destruct Hstep as (w1 & t1 & H1 & Hp1 & Hfiles).
    destruct (IH (done ++ [part]) (h ++ t1) w1) as (w2 & t2 & H2 & Hp2).
    + apply Forall_app. split; [exact Hd|]. constructor; [exact Hpart|constructor].
    + rewrite Habs. exact Hp1.
    + intros k c Hk Hq. apply Hfiles in Hq.
      apply (Hnf (S k) c); [lia|]. simpl. rewrite <- app_assoc in Hq. exact Hq.
    + exists w2, (t1 ++ t2). split; [exact (bind_ok _ _ _ _ _ _ _ _ _ _ H1 H2)|].
      rewrite <- app_assoc in Hp2. exact Hp2.
Qed.

(** X21: on a connection that does not fail by itself, against a server
    whose root is a directory and which holds no plain file at the path or
    at one of its parents, [_ensure_remote_directory] returns normally and
    the directory exists afterwards. *)
Theorem X21_ensure_creates_directory (env : Env) (names : list string) h w :
  fault_free env ->
  Forall (fun n => valid_name n = true) names ->
  remote w !! "/" = Some RDir ->
  (forall k c, (0 < k)%nat -> remote w !! join_path (take k names) <> Some (RFile c)) ->
  exists w' t,
    _ensure_remote_directory env (abs_path names) h w = (Ok tt, w', t)
    /\ remote w' !! abs_path names = Some RDir.
Proof.
  intros Hff Hv Hroot Hnf.
  unfold _ensure_remote_directory, try_except, sftp_stat, remote_call. rewrite Hff.
  unfold srv_stat. destruct (remote w !! abs_path names) as [x|] eqn:Ex; simpl.
  - do 2 eexists. split; [reflexivity|]. simpl.
    destruct x as [c|]; [|exact Ex]. exfalso.
    destruct names as [|n names]; [simpl in Ex; congruence|].
    apply (Hnf (length (n :: names)) c); [simpl; lia|].
    rewrite firstn_all. exact Ex.
  - destruct names as [|n names]; [simpl in Ex; congruence|].
    change (abs_path (n :: names)) with (join_path (n :: names)) in *.
    rewrite (rstrip_slash_id _ (join_no_trailing _ Hv)).
    rewrite (split_join _ (valid_names_slash_free _ Hv)) by discriminate.
    change (ensure_walk env ("" :: n :: names) "")
      with (ensure_walk env (n :: names) (join_path [])).
    destruct (walk_creates env (n :: names) Hff Hv []
                (h ++ [Op (Stat (join_path (n :: names))) (Some FileNotFoundError)])
                (set_remote (remote w) w) (List.Forall_nil _) Hroot Hnf)
      as (w' & t & H & Hp).
    rewrite H. do 2 eexists. split; [reflexivity|]. exact Hp.
Qed.

Lemma X21_witness :
  exists w' t,
    _ensure_remote_directory healthy_env (abs_path ["repo"; "A"]) [] sample_world
    = (Ok tt, w', t)
    /\ remote w' !! abs_path ["repo"; "A"] = Some RDir.
Proof.
  apply (X21_ensure_creates_directory healthy_env ["repo"; "A"] [] sample_world).
  - intros h c. reflexivity.
  - repeat constructor.
  - reflexivity.
  - intros k c Hk. destruct k as [|[|[|k]]]; vm_compute; discriminate.
Defined.

(** ** The command line and the configuration file *)

Lemma unusable_config (env : Env) (loader : Loader) (args : Args) h w :
  (forall config,
      read_config loader (chosen_config_path env loader args) <> Loaded (Some config)) ->
  exists r t,
    main_cli env loader args h w = (r, w, t)
    /\ exit_code r = 1
    /\ forallb is_log t = true
    /\ t <> [].
Proof.
  intros Hbad. unfold main_cli. fold (chosen_config_path env loader args).
  unfold _load_config.
  destruct (read_config loader (chosen_config_path env loader args)) as [|msg|msg|[config|]].
  - do 2 eexists. split; [reflexivity|]. repeat split. discriminate.
  - do 2 eexists. split; [reflexivity|]. repeat split. discriminate.
  - do 2 eexists. split; [reflexivity|]. repeat split. discriminate.
  - exfalso. exact (Hbad config eq_refl).
  - destruct (arg_upload args); unfold upload_loaded, run_loaded.
    + destruct (have_paramiko env); simpl;
        do 2 eexists; (split; [reflexivity|]); repeat split; discriminate.
    + do 2 eexists. split; [reflexivity|]. repeat split. discriminate.
Qed.

(** X22: a configuration that cannot be used ends the run with exit
    status 1 before anything else happens, in default mode and in upload
    mode alike: when the file is missing, is rejected by the YAML parser,
    cannot be read, or holds no mapping, the run only logs, and the world is
    untouched. *)
Theorem X22_unusable_config_is_fatal (env : Env) (loader : Loader) (args : Args) h w :
  (forall config,
      read_config loader (chosen_config_path env loader args) <> Loaded (Some config)) ->
  exists r t,
    main_cli env loader args h w = (r, w, t)
    /\ exit_code r = 1
    /\ forallb is_log t = true
    /\ t <> [].
Proof. exact (unusable_config env loader args h w). Qed.

Lemma X22_witness :
  exists r t,
    main_cli healthy_env sample_loader
      {| arg_upload := true; arg_config := Some "/etc/empty.yaml" |} [] sample_world
    = (r, sample_world, t)
    /\ exit_code r = 1
    /\ forallb is_log t = true
    /\ t <> [].
Proof.
  apply (X22_unusable_config_is_fatal healthy_env sample_loader
           {| arg_upload := true; arg_config := Some "/etc/empty.yaml" |} [] sample_world).
  intros config. vm_compute. discriminate.
Defined.


Lemma main_cli_loaded (env : Env) (loader : Loader) (args : Args) (config : Config) h w :
  read_config loader (chosen_config_path env loader args) = Loaded (Some config) ->
  main_cli env loader args h w
  = (log INFO ("Loaded configuration from " +:+ chosen_config_path env loader args);;
     main env config (arg_upload args)) h w.
Proof.
  intros Hl. unfold main_cli. fold (chosen_config_path env loader args).
  unfold _load_config. rewrite Hl. unfold bind, log, ret, main. simpl.
  destruct (arg_upload args); reflexivity.
Qed.


Lemma local_events_no_network (t : list event) :
  forallb is_local_event t = true -> existsb is_network t = false.
Proof.
  induction t as [|e t IH]; [reflexivity|]. simpl. intros H.
  apply andb_true_iff in H as [He Ht]. rewrite (IH Ht), orb_false_r.
  destruct e as [?|[] ?]; try reflexivity; discriminate.
Qed.

(** X24: the two modes exclude each other.  With [--upload] the run
    starts no process and leaves the process environment alone; without it
    the run performs no network operation and leaves the server alone. *)
Theorem X24_modes_are_exclusive (env : Env) (loader : Loader) (args : Args) h w :
  exists r w' t,
    main_cli env loader args h w = (r, w', t)
    /\ (arg_upload args = true -> spawned t = [] /\ environ w' = environ w)
    /\ (arg_upload args = false -> existsb is_network t = false /\ remote w' = remote w).
Proof.
  destruct (read_config loader (chosen_config_path env loader args)) as [|msg|msg|[config|]] eqn:E.
  1,2,3,5:
    destruct (unusable_config env loader args h w) as (r & t & H & _ & Hlog & _);
    [intros config; congruence
    |exists r, w, t; split; [exact H|];
     split; intros _;
       [split; [exact (logs_spawn_nothing _ Hlog)|reflexivity]
       |split; [|reflexivity]; apply local_events_no_network;
        clear - Hlog; induction t as [|e t IH]; [reflexivity|]; simpl in *;
        apply andb_true_iff in Hlog as [He Ht]; rewrite (IH Ht), andb_true_r;
        destruct e; [reflexivity|discriminate]]].
  destruct (main_cli env loader args h w) as [[r w'] t] eqn:H. exists r, w', t.
  split; [reflexivity|].
  rewrite (main_cli_loaded env loader args config h w E) in H.
  apply bind_inv in H as [(a & w1 & t1 & t2 & [= <- <- <-] & H & ->)|(x & [=] & _)].
  unfold main in H. destruct (arg_upload args); split; try discriminate; intros _.
  - destruct (upload_repo_no_process env config _ _ _ _ _ H) as (Hs & He). simpl. auto.
  - destruct (local_only_run env config _ _ _ _ _ H) as (R & _ & _ & Ev & _).
    split; [|exact R]. apply local_events_no_network. simpl. exact Ev.
Qed.

(** ** Building and splitting remote paths *)

Lemma filter_valid_names (names : list string) :
  Forall (fun n => valid_name n = true) names ->
  List.filter (fun s => negb (String.eqb s "")) names = names.
Proof.
  induction 1 as [|n names Hn _ IH]; [reflexivity|]. simpl.
  unfold valid_name in Hn. apply andb_true_iff in Hn as [Hn _]. rewrite Hn, IH. reflexivity.
Qed.

(** X25: building a remote path and splitting it again is a round
    trip: the components [_ensure_remote_directory] walks through for the
    path the mirror builds from a list of entry names are exactly those
    names, with or without a trailing slash; the server root has none. *)
Theorem X25_path_round_trip (names : list string) :
  Forall (fun n => valid_name n = true) names ->
  path_parts (abs_path names) = names
  /\ path_parts (abs_path names +:+ "/") = names.
Proof.
  intros Hv.
  assert (H1 : path_parts (abs_path names) = names).
  { destruct names as [|n names]; [reflexivity|].
    unfold path_parts. change (abs_path (n :: names)) with (join_path (n :: names)).
    rewrite (rstrip_slash_id _ (join_no_trailing _ Hv)).
    rewrite (split_join _ (valid_names_slash_free _ Hv)) by discriminate.
    change (List.filter (fun s => negb (String.eqb s "")) ("" :: n :: names))
      with (List.filter (fun s => negb (String.eqb s "")) (n :: names)).
    exact (filter_valid_names _ Hv). }
  split; [exact H1|].
  unfold path_parts in *. rewrite rstrip_slash_snoc. exact H1.
Qed.

Lemma X25_witness :
  path_parts (abs_path ["repo"; "A"]) = ["repo"; "A"]
  /\ path_parts (abs_path ["repo"; "A"] +:+ "/") = ["repo"; "A"].
Proof.
  apply (X25_path_round_trip ["repo"; "A"]). repeat constructor.
Defined.

(** ** The mirror succeeds on a server that is ready for it *)

Lemma join_path_not_root (n : string) (l : list string) :
  n <> "" -> join_path (n :: l) <> "/".
Proof.
  intros Hn. cbn [join_path].
  change ("/" +:+ n +:+ join_path l) with (String slash (n +:+ join_path l)).
  intros [= E]. destruct n; [contradiction|]. rewrite append_cons in E. discriminate.
Qed.

Lemma join_path_take_neq (names : list string) (k : nat) :
  Forall (fun n => has_slash n = false) names ->
  (k < length names)%nat ->
  join_path (take k names) <> join_path names.
Proof.
  intros Hs Hk E. apply join_path_inj in E; [|apply Forall_take; exact Hs|exact Hs].
  apply (f_equal length) in E. rewrite length_take in E. lia.
Qed.

Lemma walk_result (env : Env) (names : list string) :
  fault_free env ->
  Forall (fun n => valid_name n = true) names ->
  forall done h w,
    Forall (fun n => valid_name n = true) done ->
    remote w !! abs_path done = Some RDir ->
    (forall k c, (0 < k)%nat -> remote w !! join_path (done ++ take k names) <> Some (RFile c)) ->
    exists w' t,
      ensure_walk env names (join_path done) h w = (Ok tt, w', t)
      /\ remote w' !! abs_path (done ++ names) = Some RDir
      /\ forall q,
           remote w' !! q = remote w !! q
           \/ (remote w !! q = None
               /\ exists k, (0 < k <= length names)%nat /\ q = join_path (done ++ take k names)).
Proof.
  intros Hff Hv. induction Hv as [|part rest Hpart Hrest IH]; intros done h w Hd Hdir Hnf.
  - exists w, []. split; [reflexivity|]. rewrite app_nil_r. split; [exact Hdir|]. auto.
  - destruct (valid_name_inv _ Hpart) as [Hne Hns].
    assert (Ep : String.eqb part "" = false) by (apply String.eqb_neq; exact Hne).
    cbn [ensure_walk]. rewrite Ep, walk_next.
    set (p := join_path (done ++ [part])).
    assert (Habs : abs_path (done ++ [part]) = p).
    { unfold p. destruct done; reflexivity. }
    assert (Hstep : exists w1 t1,
               try_except (sftp_stat env p)
                 (fun e =>
                    match e with
                    | FileNotFoundError =>
                        try_except
                          (sftp_mkdir env p;; log DEBUG ("Created remote directory: " +:+ p))
                          (fun e => log DEBUG ("Directory may already exist or mkdir failed: "
                                                 +:+ show_exc e))
                    | _ => raise_exc e
                    end) h w = (Ok tt, w1, t1)
               /\ remote w1 !! p = Some RDir
               /\ (remote w1 = remote w
                   \/ (remote w !! p = None /\ remote w1 = <[p := RDir]> (remote w)))).
    { unfold try_except, sftp_stat, sftp_mkdir, remote_call, bind, log. rewrite Hff.
      unfold srv_stat. destruct (remote w !! p) as [x|] eqn:Ex; simpl.
      - do 2 eexists. split; [reflexivity|]. simpl. split; [|auto].
        destruct x as [c|]; [|exact Ex]. exfalso.
        apply (Hnf 1%nat c); [lia|]. simpl. rewrite take_0. exact Ex.
      - rewrite Hff. unfold srv_mkdir. rewrite Ex.
        unfold p at 1. rewrite (dirname_next done part Hd Hpart), Hdir. simpl.
        do 2 eexists. split; [reflexivity|]. simpl. split; [apply lookup_insert_eq|].
        right. split; reflexivity. }
    destruct Hstep as (w1 & t1 & H1 & Hp1 & Hw1).
    assert (Hfiles : forall q c, remote w1 !! q = Some (RFile c) -> remote w !! q = Some (RFile c)).
    { intros q c Hq. destruct Hw1 as [E|[_ E]]; rewrite E in Hq; [exact Hq|].
      destruct (String.eqb_spec p q) as [<-|Hpq].
      - rewrite lookup_insert_eq in Hq. discriminate.
      - rewrite lookup_insert_ne in Hq by exact Hpq. exact Hq. }
    destruct (IH (done ++ [part]) (h ++ t1) w1) as (w2 & t2 & H2 & Hp2 & Hfr).
    + apply Forall_app. split; [exact Hd|]. constructor; [exact Hpart|constructor].
    + rewrite Habs. exact Hp1.
    + intros k c Hk Hq. apply Hfiles in Hq.
      apply (Hnf (S k) c); [lia|]. simpl. rewrite <- app_assoc in Hq. exact Hq.
    + exists w2, (t1 ++ t2). split; [exact (bind_ok _ _ _ _ _ _ _ _ _ _ H1 H2)|].
      split; [rewrite <- app_assoc in Hp2; exact Hp2|].
      intros q.
      assert (Hq1 : remote w1 !! q = remote w !! q
                    \/ (remote w !! q = None /\ q = p)).
      { destruct Hw1 as [E|[Ex E]]; [left; rewrite E; reflexivity|].
        destruct (String.eqb_spec p q) as [<-|Hpq]; [right; auto|].
        left. rewrite E, lookup_insert_ne by exact Hpq. reflexivity. }
      destruct Hq1 as [Hq1|[Hq1 ->]].
      * destruct (Hfr q) as [Hq2|(Hq2 & k & Hk & ->)].
        -- left. congruence.
        -- right. split; [congruence|]. exists (S k). split; [simpl; lia|].
           simpl. rewrite <- app_assoc. reflexivity.
      * right. split; [exact Hq1|]. exists 1%nat. split; [simpl; lia|].
        simpl. rewrite take_0. reflexivity.
Qed.

Lemma ensure_result (env : Env) (names : list string) h w :
  fault_free env ->
  Forall (fun n => valid_name n = true) names ->
  dirs_ready (remote w) names (length names - 1) ->
  (forall c, remote w !! abs_path names <> Some (RFile c)) ->
  exists w' t,
    _ensure_remote_directory env (abs_path names) h w = (Ok tt, w', t)
    /\ remote w' !! abs_path names = Some RDir
    /\ forall q, q <> abs_path names -> remote w' !! q = remote w !! q.
Proof.
  intros Hff Hv [Hroot Hpre] Hnf.
  unfold _ensure_remote_directory, try_except, sftp_stat, remote_call. rewrite Hff.
  unfold srv_stat. destruct (remote w !! abs_path names) as [x|] eqn:Ex; simpl.
  - do 2 eexists. split; [reflexivity|]. simpl. split; [|auto].
    destruct x as [c|]; [|exact Ex]. exfalso. exact (Hnf c eq_refl).
  - destruct names as [|n names]; [simpl in Ex; congruence|].
    change (abs_path (n :: names)) with (join_path (n :: names)) in *.
    rewrite (rstrip_slash_id _ (join_no_trailing _ Hv)).
    rewrite (split_join _ (valid_names_slash_free _ Hv)) by discriminate.
    change (ensure_walk env ("" :: n :: names) "")
      with (ensure_walk env (n :: names) (join_path [])).
    destruct (walk_result env (n :: names) Hff Hv []
                (h ++ [Op (Stat (join_path (n :: names))) (Some FileNotFoundError)])
                (set_remote (remote w) w) (List.Forall_nil _) Hroot)
      as (w' & t & H & Hp & Hfr).
    { intros k c Hk. change ([] ++ take k (n :: names)) with (take k (n :: names)).
      destruct (Nat.lt_ge_cases k (length (n :: names))) as [Hlt|Hge].
      - simpl remote. rewrite (Hpre k) by (simpl in *; lia). discriminate.
      - rewrite take_ge by exact Hge. simpl remote. rewrite Ex. discriminate. }
    rewrite H. do 2 eexists. split; [reflexivity|]. split; [exact Hp|].
    intros q Hq. destruct (Hfr q) as [E|(Hnone & k & Hk & ->)]; [exact E|]. exfalso.
    change ([] ++ take k (n :: names)) with (take k (n :: names)) in *.
    destruct (Nat.lt_ge_cases k (length (n :: names))) as [Hlt|Hge].
    + simpl remote in Hnone. rewrite (Hpre k) in Hnone by (simpl in *; lia). discriminate.
    + rewrite take_ge in Hq by exact Hge. contradiction.
Qed.

Lemma changes_below_child (fs fs' : gmap string rnode) (names : list string) (item : string) :
  has_slash item = false ->
  changes_below fs fs' (names ++ [item]) -> changes_below fs fs' names.
Proof.
  intros Hs Hc q Hq. apply Hc. intros l Hl. rewrite <- app_assoc.
  apply (Hq ([item] ++ l)). constructor; [exact Hs|exact Hl].
Qed.

Lemma changes_below_trans (fs1 fs2 fs3 : gmap string rnode) (names : list string) :
  changes_below fs1 fs2 names -> changes_below fs2 fs3 names -> changes_below fs1 fs3 names.
Proof. intros H1 H2 q Hq. rewrite (H2 q Hq). exact (H1 q Hq). Qed.

Lemma fresh_kept (fs fs' : gmap string rnode) (names : list string) (item item' : string) :
  Forall (fun n => has_slash n = false) names ->
  has_slash item = false -> has_slash item' = false -> item <> item' ->
  changes_below fs fs' (names ++ [item]) ->
  fresh_below fs (names ++ [item']) ->
  fresh_below fs' (names ++ [item']).
Proof.
  intros Hn Hi Hi' Hne Hc Hf l Hl. rewrite (Hc _); [exact (Hf l Hl)|].
  intros l0 Hl0 E. apply join_path_inj in E.
  - rewrite <- !app_assoc in E. apply app_inv_head in E. injection E as E _. congruence.
  - apply Forall_app. split; [|exact Hl]. apply Forall_app. split; [exact Hn|].
    constructor; [exact Hi'|constructor].
  - apply Forall_app. split; [|exact Hl0]. apply Forall_app. split; [exact Hn|].
    constructor; [exact Hi|constructor].
Qed.

Lemma wf_dir_names (entries : list (string * node)) :
  wf_node (Dir entries) = true ->
  forall item, In item (map fst entries) -> valid_name item = true.
Proof.
  induction entries as [|[i c] entries IH]; intros Hwf item Hin; [destruct Hin|].
  apply wf_dir_cons in Hwf as (_ & Hv & _ & Hwe).
  destruct Hin as [<-|Hin]; [exact Hv|exact (IH Hwe item Hin)].
Qed.

Lemma abs_path_snoc (names : list string) (item : string) :
  abs_path (names ++ [item]) = join_path (names ++ [item]).
Proof. destruct names; reflexivity. Qed.

Lemma put_entry_succeeds (env : Env) (names : list string) (item : string) (content : bytes)
    local_dir h w :
  fault_free env ->
  Forall (fun n => valid_name n = true) names ->
  valid_name item = true ->
  remote w !! abs_path names = Some RDir ->
  fresh_below (remote w) (names ++ [item]) ->
  exists w' t,
    upload_entry env local_dir (abs_path names) (item, File content) h w = (Ok tt, w', t)
    /\ remote w' = <[join_path (names ++ [item]) := RFile content]> (remote w)
    /\ remote w !! join_path (names ++ [item]) = None.
Proof.
  intros Hff Hv Hi Hdir Hfresh.
  pose proof (Hfresh [] (List.Forall_nil _)) as Hnone. rewrite app_nil_r in Hnone.
  unfold upload_entry. rewrite (abs_path_child names item Hv), abs_path_snoc.
  unfold bind, log, sftp_put, remote_call. rewrite Hff. unfold srv_put.
  rewrite Hnone, (dirname_next names item Hv Hi), Hdir. simpl.
  do 2 eexists. split; [reflexivity|]. split; reflexivity.
Qed.

Lemma mirror_succeeds (env : Env) (local : node) :
  fault_free env ->
  wf_node local = true ->
  forall entries, local = Dir entries ->
  forall names local_dir h w,
    Forall (fun n => valid_name n = true) names ->
    mirror_ready (remote w) names entries ->
    exists w' t,
      _upload_directory env local local_dir (abs_path names) h w = (Ok tt, w', t)
      /\ changes_below (remote w) (remote w') names
      /\ (forall q, remote w !! q = Some RDir -> remote w' !! q = Some RDir).
Proof.
  intros Hff. induction local as [content|entries0 IH] using node_ind;
    intros Hwf entries Eq names local_dir h w Hv Hready; [discriminate|].
  injection Eq as <-.
  assert (Hslash : Forall (fun n => has_slash n = false) names)
    by exact (valid_names_slash_free _ Hv).
  destruct Hready as (Hdirs & Hnf & Hfresh).
  rewrite upload_directory_eq.
  set (msg := Log INFO ("Uploading " +:+ local_dir +:+ " -> " +:+ abs_path names)).
  destruct (ensure_result env names (h ++ [msg]) w Hff Hv Hdirs Hnf)
    as (w1 & t1 & He & Hd1 & Hfr1).
  (* the state after the directory is ensured *)
  assert (Hready1 : dirs_ready (remote w1) names (length names)
                    /\ forall item, In item (map fst entries0) ->
                                    fresh_below (remote w1) (names ++ [item])).
  { destruct Hdirs as [Hroot Hpre]. split; [split|].
    - destruct names as [|n names]; [exact Hd1|].
      rewrite Hfr1; [exact Hroot|]. intros E. symmetry in E. revert E.
      apply join_path_not_root. inversion Hv as [|? ? Hn _]; subst.
      apply valid_name_inv in Hn as [Hn _]. exact Hn.
    - intros k Hk. destruct (Nat.lt_ge_cases k (length names)) as [Hlt|Hge].
      + rewrite Hfr1; [apply Hpre; lia|].
        destruct names as [|n names]; [simpl in Hlt; lia|].
        exact (join_path_take_neq _ k Hslash Hlt).
      + rewrite take_ge by exact Hge.
        destruct names as [|n names]; [simpl in Hk; lia|]. exact Hd1.
    - intros item Hin l Hl. rewrite Hfr1; [exact (Hfresh item Hin l Hl)|].
      pose proof (wf_dir_names _ Hwf item Hin) as Hvi.
      apply valid_name_inv in Hvi as [Hne Hsi].
      destruct names as [|n names].
      + simpl. apply join_path_not_root. exact Hne.
      + change (abs_path (n :: names)) with (join_path (n :: names)).
        intros E. apply join_path_inj in E; [| |exact Hslash].
        * apply (f_equal length) in E. rewrite !length_app in E. simpl in E. lia.
        * apply Forall_app. split; [|exact Hl]. apply Forall_app. split; [exact Hslash|].
          constructor; [exact Hsi|constructor]. }
  assert (Hbelow1 : changes_below (remote w) (remote w1) names).
  { intros q Hq. apply Hfr1. destruct names as [|n names].
    - simpl. apply (Hq [""]). constructor; [reflexivity|constructor].
    - change (abs_path (n :: names)) with (join_path (n :: names)).
      specialize (Hq [] (List.Forall_nil _)). rewrite app_nil_r in Hq. exact Hq. }
  (* the loop over the entries *)
  assert (Hloop : forall h1 w2,
             dirs_ready (remote w2) names (length names) ->
             (forall item, In item (map fst entries0) ->
                           fresh_below (remote w2) (names ++ [item])) ->
             exists w' t,
               for_each (upload_entry env local_dir (abs_path names)) entries0 h1 w2
               = (Ok tt, w', t)
               /\ changes_below (remote w2) (remote w') names).
  { clear He Hd1 Hfr1 Hready1 Hbelow1 Hdirs Hnf Hfresh.
    induction IH as [|[item child] entries Hc _ IHe]; intros h1 w2 Hdirs Hfresh.
    - exists w2, []. split; [reflexivity|]. intros q _. reflexivity.
    - apply wf_dir_cons in Hwf as (Hnotin & Hvi & Hwc & Hwe).
      destruct (valid_name_inv _ Hvi) as [_ Hsi].
      assert (Hparent : remote w2 !! abs_path names = Some RDir).
      { destruct Hdirs as [Hroot Hpre]. destruct names as [|n names]; [exact Hroot|].
        change (abs_path (n :: names)) with (join_path (n :: names)).
        rewrite <- (firstn_all (n :: names)). apply Hpre. simpl. lia. }
      assert (Hentry : exists w3 t3,
                 upload_entry env local_dir (abs_path names) (item, child) h1 w2
                 = (Ok tt, w3, t3)
                 /\ changes_below (remote w2) (remote w3) (names ++ [item])
                 /\ (forall q, remote w2 !! q = Some RDir -> remote w3 !! q = Some RDir)).
      { destruct child as [content|sub].
        - destruct (put_entry_succeeds env names item content local_dir h1 w2 Hff Hv Hvi
                      Hparent (Hfresh item (or_introl eq_refl)))
            as (w3 & t3 & H3 & E3 & Hnone).
          exists w3, t3. split; [exact H3|]. rewrite E3. split.
          + intros q Hq. apply lookup_insert_ne. intros E. apply (Hq [] (List.Forall_nil _)).
            rewrite app_nil_r. symmetry. exact E.
          + intros q Hq. rewrite lookup_insert_ne; [exact Hq|]. intros E. congruence.
        - unfold upload_entry. rewrite (abs_path_child names item Hv).
          apply (Hc Hwc sub eq_refl (names ++ [item])).
          + apply Forall_app. split; [exact Hv|]. constructor; [exact Hvi|constructor].
          + split; [|split].
            * destruct Hdirs as [Hroot Hpre]. split; [exact Hroot|].
              intros k Hk. rewrite length_app in Hk. simpl in Hk.
              rewrite take_app_le by lia. apply Hpre. lia.
            * intros c. rewrite abs_path_snoc.
              pose proof (Hfresh item (or_introl eq_refl) [] (List.Forall_nil _)) as Hn.
              rewrite app_nil_r in Hn. rewrite Hn. discriminate.
            * intros i' Hin l Hl. rewrite <- app_assoc.
              apply (Hfresh item (or_introl eq_refl)).
              constructor; [|exact Hl].
              apply valid_name_inv with (s := i'); exact (wf_dir_names _ Hwc i' Hin). }
      destruct Hentry as (w3 & t3 & H3 & Hb3 & Hk3).
      destruct (IHe Hwe (h1 ++ t3) w3) as (w' & t & H & Hb).
      + destruct Hdirs as [Hroot Hpre]. split; [exact (Hk3 _ Hroot)|].
        intros k Hk. exact (Hk3 _ (Hpre k Hk)).
      + intros item' Hin.
        apply (fresh_kept (remote w2) (remote w3) names item item' Hslash Hsi).
        * apply valid_name_inv with (s := item'); exact (wf_dir_names _ Hwe item' Hin).
        * intros ->. apply Hnotin. apply list_elem_of_In. exact Hin.
        * exact Hb3.
        * apply Hfresh. right. exact Hin.
      + exists w', (t3 ++ t). split; [exact (bind_ok _ _ _ _ _ _ _ _ _ _ H3 H)|].
        eapply changes_below_trans; [|exact Hb].
        exact (changes_below_child _ _ _ _ Hsi Hb3). }
  destruct Hready1 as [Hdirs1 Hfresh1].
  destruct (Hloop ((h ++ [msg]) ++ t1) w1 Hdirs1 Hfresh1) as (w' & t & H & Hb).
  assert (Hall : _upload_directory env (Dir entries0) local_dir (abs_path names) h w
                 = (Ok tt, w', [msg] ++ t1 ++ t)).
  { rewrite upload_directory_eq. eapply bind_ok; [reflexivity|].
    eapply bind_ok; [exact He|exact H]. }
  pose proof Hall as Hall'. rewrite upload_directory_eq in Hall'.
  exists w', ([msg] ++ t1 ++ t).
  split; [exact Hall'|]. split; [exact (changes_below_trans _ _ _ _ Hbelow1 Hb)|].
  intros q Hq.
  destruct (sftp_only_upload env _ _ _ _ _ _ _ _ Hall) as (Hs & _).
  exact (proj2 (sftp_steps_keep_dir env _ _ _ _ _ _ Hs Hq) eq_refl).
Qed.

Lemma rstrip_abs_path (names : list string) :
  Forall (fun n => valid_name n = true) names ->
  rstrip_slash (abs_path names) = join_path names.
Proof.
  intros Hv. destruct names as [|n names]; [reflexivity|].
  change (abs_path (n :: names)) with (join_path (n :: names)).
  exact (rstrip_slash_id _ (join_no_trailing _ Hv)).
Qed.

Lemma empty_server_ready (fs : gmap string rnode) (entries : list (string * node)) :
  wf_node (Dir entries) = true ->
  fs = {[ "/" := RDir ]} ->
  mirror_ready fs [] entries.
Proof.
  intros Hwf ->. split; [split|split].
  - reflexivity.
  - intros k Hk. simpl in Hk. lia.
  - intros c. simpl. rewrite lookup_singleton_eq. discriminate.
  - intros item Hin l Hl. apply lookup_singleton_ne. intros E. symmetry in E. revert E.
    apply join_path_not_root.
    apply valid_name_inv with (s := item). exact (wf_dir_names _ Hwf item Hin).
Qed.

(** X26: the mirror succeeds on a server that is ready for it.  On a
    connection that never fails by itself, when the parents of the remote
    directory exist, no plain file is in its place and the server holds
    nothing at or below the names of the directory's entries,
    [_upload_directory] returns normally, every file of the tree is on the
    server with its bytes, and nothing outside the remote directory has
    changed. *)
Theorem X26_mirror_succeeds_when_ready (env : Env) (entries : list (string * node))
    (names : list string) local_dir h w :
  fault_free env ->
  wf_node (Dir entries) = true ->
  Forall (fun n => valid_name n = true) names ->
  mirror_ready (remote w) names entries ->
  exists w' t,
    _upload_directory env (Dir entries) local_dir (abs_path names) h w = (Ok tt, w', t)
    /\ (forall fnames content,
          In (fnames, content) (tree_files (Dir entries)) ->
          remote w' !! join_path (names ++ fnames) = Some (RFile content))
    /\ changes_below (remote w) (remote w') names.
Proof.
  intros Hff Hwf Hv Hready.
  destruct (mirror_succeeds env (Dir entries) Hff Hwf entries eq_refl names local_dir h w
              Hv Hready) as (w' & t & H & Hb & _).
  exists w', t. split; [exact H|]. split; [|exact Hb].
  intros fnames content Hin.
  destruct (upload_ok_files env _ _ _ _ _ _ _ Hwf H) as (_ & Hf).
  specialize (Hf fnames content Hin).
  rewrite remote_under_join, (rstrip_abs_path names Hv), <- join_path_app in Hf. exact Hf.
Qed.

Lemma X26_witness :
  exists w' t,
    _upload_directory healthy_env sample_tree2 "/opt/autopkg/munki_repo" (abs_path []) []
      sample_world = (Ok tt, w', t)
    /\ (forall fnames content,
          In (fnames, content) (tree_files sample_tree2) ->
          remote w' !! join_path ([] ++ fnames) = Some (RFile content))
    /\ changes_below (remote sample_world) (remote w') [].
Proof.
  apply (X26_mirror_succeeds_when_ready healthy_env _ [] "/opt/autopkg/munki_repo" []
           sample_world).
  - intros h c. reflexivity.
  - reflexivity.
  - constructor.
  - apply empty_server_ready; reflexivity.
Defined.

Lemma session_work_healthy (env : Env) host port user password local path h w wu tu :
  fault_free env ->
  _upload_directory env local path "/" (h ++ session_prefix host port user password)
    (connected w) = (Ok tt, wu, tu) ->
  session_work env host port user password local path h w
  = (Ok tt, wu,
     session_prefix host port user password ++ tu
       ++ [Log INFO "Repository upload completed successfully"]).
Proof.
  intros Hff Hu.
  unfold session_work, try_except, bind, remote_call, no_effect, set_transport,
    set_sftp, set_remote, log.
  simpl. rewrite !Hff. simpl.
  match goal with |- context [_upload_directory env local path "/" ?h0 ?w0] =>
    replace h0 with (h ++ session_prefix host port user password)
      by (unfold session_prefix; rewrite <- !app_assoc; reflexivity);
    change w0 with (connected w)
  end.
  rewrite Hu. reflexivity.
Qed.

(** X27: upload mode succeeds on a healthy connection to a server that
    is ready for the repository.  When the preconditions of the upload
    hold, the connection never fails by itself, the repository path is a
    well-formed directory tree, the server root is a directory and the
    server holds nothing at or below the names of the top-level entries,
    [upload_repo] returns normally, every file of the repository is on the
    server with its bytes, and the run ends by closing the SFTP channel and
    then the transport. *)
Theorem X27_upload_succeeds_when_healthy (env : Env) (config : Config)
    (entries : list (string * node)) h w :
  fault_free env ->
  upload_ready env config = true ->
  local_fs env (resolve_repo_path env (default "" (repo_path config))) = Some (Dir entries) ->
  wf_node (Dir entries) = true ->
  mirror_ready (remote w) [] entries ->
  exists w' body,
    upload_repo env config h w
    = (Ok tt, w', body ++ [Op CloseSftp None; Op CloseTransport None])
    /\ forall names content,
         In (names, content) (tree_files (Dir entries)) ->
         remote w' !! join_path names = Some (RFile content).
Proof.
  intros Hff Hready Hl Hwf Hmr.
  destruct (upload_repo env config h w) as [[r w'] t] eqn:H.
  destruct (upload_repo_session env config h w r w' t Hready H)
    as (local & w1 & work & Hl' & Hw & -> & Hr).
  rewrite Hl in Hl'. injection Hl' as <-.
  set (prefix := session_prefix (default "" (sftp_host config)) (default 22 (sftp_port config))
                   (default "" (sftp_user config)) (default "" (sftp_password config))) in *.
  destruct (mirror_succeeds env (Dir entries) Hff Hwf entries eq_refl []
              (resolve_repo_path env (default "" (repo_path config)))
              ((h ++ connect_banner config) ++ prefix) (connected (disconnected w))
              (List.Forall_nil _) Hmr) as (wu & tu & Hu & _ & _).
  change (abs_path []) with "/" in Hu.
  rewrite (session_work_healthy env _ _ _ _ _ _ _ _ _ _ Hff Hu) in Hw.
  injection Hw as <- <- <-.
  exists w', (connect_banner config
              ++ prefix ++ tu ++ [Log INFO "Repository upload completed successfully"]).
  split.
  - assert (Hclose : forall h0 work,
               opened_sftp work = true -> opened_transport work = true ->
               closing env h0 work = [Op CloseSftp None; Op CloseTransport None]).
    { intros h0 work Hs Ht. unfold closing. rewrite Hs, Ht, !Hff. reflexivity. }
    rewrite Hclose by reflexivity. unfold prefix, session_prefix.
    simpl. rewrite <- !app_assoc. reflexivity.
  - intros names content Hin. rewrite Hr.
    destruct (upload_ok_files env _ _ _ _ _ _ _ Hwf Hu) as (_ & Hf).
    specialize (Hf names content Hin).
    rewrite remote_under_join in Hf. exact Hf.
Qed.

Lemma X27_witness :
  exists w' body,
    upload_repo healthy_env config_sample [] sample_world
    = (Ok tt, w', body ++ [Op CloseSftp None; Op CloseTransport None])
    /\ forall names content,
         In (names, content) (tree_files sample_tree) ->
         remote w' !! join_path names = Some (RFile content).
Proof.
  apply (X27_upload_succeeds_when_healthy healthy_env config_sample _ [] sample_world).
  - intros h c. reflexivity.
  - reflexivity.
  - reflexivity.
  - reflexivity.
  - apply empty_server_ready; reflexivity.
Defined.

(** ** Mirroring onto an existing copy *)

Lemma tree_dirs_root (entries : list (string * node)) : In [] (tree_dirs (Dir entries)).
Proof. left. reflexivity. Qed.

Lemma tree_dirs_head (item : string) (child : node) (entries : list (string * node))
    (d : list string) :
  In d (tree_dirs child) -> In (item :: d) (tree_dirs (Dir ((item, child) :: entries))).
Proof.
  intros Hin. right. simpl. apply in_or_app. left.
  exact (in_map (fun d => item :: d) _ _ Hin).
Qed.

Lemma tree_dirs_tail (e : string * node) (entries : list (string * node)) (d : list string) :
  In d (tree_dirs (Dir entries)) -> In d (tree_dirs (Dir (e :: entries))).
Proof.
  intros [<-|Hin]; [left; reflexivity|]. right. simpl. apply in_or_app. right. exact Hin.
Qed.

Lemma tree_files_in_head (item : string) (child : node) (entries : list (string * node))
    (f : list string) (c : bytes) :
  In (f, c) (tree_files child) -> In (item :: f, c) (tree_files (Dir ((item, child) :: entries))).
Proof.
  intros Hin. rewrite tree_files_cons. apply in_or_app. left.
  destruct child as [content|sub]; [destruct Hin|].
  exact (in_map (fun f : list string * bytes => (item :: fst f, snd f)) _ _ Hin).
Qed.

Lemma tree_files_in_tail (e : string * node) (entries : list (string * node))
    (f : list string) (c : bytes) :
  In (f, c) (tree_files (Dir entries)) -> In (f, c) (tree_files (Dir (e :: entries))).
Proof.
  intros Hin. destruct e as [item child]. rewrite tree_files_cons.
  apply in_or_app. right. exact Hin.
Qed.

Lemma ensure_existing (env : Env) (remote_dir : string) h w x :
  fault_free env ->
  remote w !! remote_dir = Some x ->
  exists w',
    _ensure_remote_directory env remote_dir h w = (Ok tt, w', [Op (Stat remote_dir) None])
    /\ remote w' = remote w.
Proof.
  intros Hff Hx. unfold _ensure_remote_directory, try_except, sftp_stat, remote_call.
  rewrite Hff. unfold srv_stat. rewrite Hx. simpl. eexists. split; reflexivity.
Qed.

Lemma put_entry_overwrites (env : Env) (names : list string) (item : string) (content : bytes)
    local_dir h w :
  fault_free env ->
  Forall (fun n => valid_name n = true) names ->
  valid_name item = true ->
  remote w !! abs_path names = Some RDir ->
  remote w !! join_path (names ++ [item]) <> Some RDir ->
  exists w' o1 o2 o3,
    upload_entry env local_dir (abs_path names) (item, File content) h w
    = (Ok tt, w', [Log DEBUG o1; Op (Put o2 (join_path (names ++ [item])) content) None;
                   Log DEBUG o3])
    /\ remote w' = <[join_path (names ++ [item]) := RFile content]> (remote w).
Proof.
  intros Hff Hv Hi Hdir Hnd.
  unfold upload_entry. rewrite (abs_path_child names item Hv), abs_path_snoc.
  unfold bind, log, sftp_put, remote_call. rewrite Hff. unfold srv_put.
  rewrite (dirname_next names item Hv Hi), Hdir.
  destruct (remote w !! join_path (names ++ [item])) as [[c|]|] eqn:E; simpl;
    try (exfalso; apply Hnd; reflexivity);
    do 4 eexists; split; reflexivity.
Qed.

Lemma remirror_succeeds (env : Env) (local : node) :
  fault_free env ->
  wf_node local = true ->
  forall entries, local = Dir entries ->
  forall names local_dir h w,
    Forall (fun n => valid_name n = true) names ->
    holds_shape (remote w) names local ->
    exists w' t,
      _upload_directory env local local_dir (abs_path names) h w = (Ok tt, w', t)
      /\ (forall p o, ~ In (Op (Mkdir p) o) t)
      /\ (forall q, remote w' !! q = Some RDir <-> remote w !! q = Some RDir).
Proof.
  intros Hff. induction local as [content|entries0 IH] using node_ind;
    intros Hwf entries Eq names local_dir h w Hv [Hdirs Hfiles]; [discriminate|].
  injection Eq as <-.
  rewrite upload_directory_eq.
  set (msg := Log INFO ("Uploading " +:+ local_dir +:+ " -> " +:+ abs_path names)).
  assert (Hroot : remote w !! abs_path names = Some RDir).
  { rewrite <- (app_nil_r names) at 1. apply Hdirs. apply tree_dirs_root. }
  destruct (ensure_existing env (abs_path names) (h ++ [msg]) w RDir Hff Hroot)
    as (w1 & He & Hr1).
  assert (Hloop : forall h1 w2,
             holds_shape (remote w2) names (Dir entries0) ->
             exists w' t,
               for_each (upload_entry env local_dir (abs_path names)) entries0 h1 w2
               = (Ok tt, w', t)
               /\ (forall p o, ~ In (Op (Mkdir p) o) t)
               /\ (forall q, remote w' !! q = Some RDir <-> remote w2 !! q = Some RDir)).
  { clear He Hr1 Hroot Hdirs Hfiles.
    induction IH as [|[item child] entries Hc _ IHe]; intros h1 w2 [Hdirs Hfiles].
    - exists w2, []. split; [reflexivity|]. split; [intros p o []|tauto].
    - apply wf_dir_cons in Hwf as (Hnotin & Hvi & Hwc & Hwe).
      assert (Hparent : remote w2 !! abs_path names = Some RDir).
      { rewrite <- (app_nil_r names) at 1. apply Hdirs. apply tree_dirs_root. }
      assert (Hentry : exists w3 t3,
                 upload_entry env local_dir (abs_path names) (item, child) h1 w2
                 = (Ok tt, w3, t3)
                 /\ (forall p o, ~ In (Op (Mkdir p) o) t3)
                 /\ (forall q, remote w3 !! q = Some RDir <-> remote w2 !! q = Some RDir)).
      { destruct child as [content|sub].
        - destruct (put_entry_overwrites env names item content local_dir h1 w2 Hff Hv Hvi
                      Hparent) as (w3 & o1 & o2 & o3 & H3 & E3).
          { apply (Hfiles [item] content). left. reflexivity. }
          exists w3. eexists. split; [exact H3|]. split.
          + intros p o [Hin|[Hin|[Hin|[]]]]; discriminate.
          + intros q. rewrite E3.
            destruct (String.eqb_spec (join_path (names ++ [item])) q) as [<-|Hne].
            * rewrite lookup_insert_eq. split; [discriminate|].
              intros Hq. exfalso. apply (Hfiles [item] content); [left; reflexivity|exact Hq].
            * rewrite lookup_insert_ne by exact Hne. tauto.
        - unfold upload_entry. rewrite (abs_path_child names item Hv).
          apply (Hc Hwc sub eq_refl (names ++ [item])).
          + apply Forall_app. split; [exact Hv|]. constructor; [exact Hvi|constructor].
          + split.
            * intros d Hd. rewrite <- app_assoc. apply Hdirs.
              exact (tree_dirs_head item (Dir sub) entries d Hd).
            * intros f c Hf. rewrite <- app_assoc. apply (Hfiles (item :: f) c).
              exact (tree_files_in_head item (Dir sub) entries f c Hf). }
      destruct Hentry as (w3 & t3 & H3 & Hm3 & Hd3).
      destruct (IHe Hwe (h1 ++ t3) w3) as (w' & t & H & Hm & Hd).
      + split.
        * intros d Hin. apply Hd3. apply Hdirs. apply tree_dirs_tail. exact Hin.
        * intros f c Hin Hq. apply Hd3 in Hq. revert Hq. apply (Hfiles f c).
          apply tree_files_in_tail. exact Hin.
      + exists w', (t3 ++ t). split; [exact (bind_ok _ _ _ _ _ _ _ _ _ _ H3 H)|]. split.
        * intros p o Hin. apply in_app_or in Hin as [Hin|Hin];
            [exact (Hm3 _ _ Hin)|exact (Hm _ _ Hin)].
        * intros q. rewrite Hd. apply Hd3. }
  destruct (Hloop ((h ++ [msg]) ++ [Op (Stat (abs_path names)) None]) w1) as (w' & t & H & Hm & Hd).
  { rewrite Hr1. split; assumption. }
  exists w', ([msg] ++ [Op (Stat (abs_path names)) None] ++ t). split.
  - eapply bind_ok; [reflexivity|]. eapply bind_ok; [exact He|exact H].
  - split.
    + intros p o [Hin|[Hin|Hin]]; try discriminate. exact (Hm _ _ Hin).
    + intros q. rewrite Hd, Hr1. tauto.
Qed.

Lemma sftp_steps_untouched (env : Env) h fs t fs' q :
  sftp_steps env h fs t fs' ->
  (forall o, ~ In (Op (Mkdir q) o) t) ->
  ~ In q (map fst (puts t)) ->
  fs' !! q = fs !! q.
Proof.
  induction 1 as [h fs|h fs e fs1 t fs2 Hs Ht IH]; intros Hm Hp; [reflexivity|].
  rewrite IH.
  - destruct Hs as [lvl msg|c e r Hsem Hf|c r fs' Hf Hsem]; try reflexivity.
    destruct c; simpl in Hsem; try discriminate; injection Hsem as Hsem.
    + congruence.
    + assert (Hne : path <> q) by (intros ->; apply (Hm r); left; reflexivity).
      unfold srv_mkdir in Hsem. destruct (fs !! path); [congruence|].
      destruct (fs !! dirname path) as [[|]|]; injection Hsem as <- <-; try reflexivity.
      apply lookup_insert_ne. exact Hne.
    + assert (Hne : remotepath <> q) by (intros ->; apply Hp; left; reflexivity).
      unfold srv_put in Hsem.
      destruct (fs !! remotepath) as [[|]|];
        try (injection Hsem as <- <-; reflexivity);
        destruct (fs !! dirname remotepath) as [[|]|];
        injection Hsem as <- <-; try reflexivity;
        apply lookup_insert_ne; exact Hne.
  - intros o Hin. apply (Hm o). right. exact Hin.
  - intros Hin. apply Hp. change (e :: t) with ([e] ++ t).
    rewrite puts_app, map_app. apply in_or_app. right. exact Hin.
Qed.

Lemma sftp_steps_same (env : Env) h fs t fs' :
  sftp_steps env h fs t fs' ->
  (forall p o, ~ In (Op (Mkdir p) o) t) ->
  (forall l q c, In (Op (Put l q c) None) t -> fs !! q = Some (RFile c)) ->
  fs' = fs.
Proof.
  induction 1 as [h fs|h fs e fs1 t fs2 Hs Ht IH]; intros Hm Hp; [reflexivity|].
  assert (E : fs1 = fs).
  { destruct Hs as [lvl msg|c e r Hsem Hf|c r fs' Hf Hsem]; try reflexivity.
    destruct c; simpl in Hsem; try discriminate; injection Hsem as Hsem.
    - congruence.
    - exfalso. apply (Hm path r). left. reflexivity.
    - unfold srv_put in Hsem.
      destruct r as [x|].
      + destruct (fs !! remotepath) as [[|]|];
          destruct (fs !! dirname remotepath) as [[|]|];
          try discriminate Hsem; injection Hsem as _ <-; reflexivity.
      + pose proof (Hp localpath remotepath content (or_introl eq_refl)) as Hq.
        rewrite Hq in Hsem.
        destruct (fs !! dirname remotepath) as [[|]|]; try discriminate.
        injection Hsem as <-. apply insert_id. exact Hq. }
  subst fs1. apply IH.
  - intros p o Hin. apply (Hm p o). right. exact Hin.
  - intros l q c Hin. apply (Hp l q c). right. exact Hin.
Qed.

(** X28: mirroring onto a server that already holds the shape of the
    tree overwrites the files and creates nothing.  On a connection that
    never fails by itself, when every directory of the tree is already a
    directory of the server and no directory is in the place of a file,
    [_upload_directory] returns normally, attempts no directory creation,
    leaves every file of the tree on the server with the local bytes, and
    changes no path it did not transfer to. *)
Theorem X28_mirror_overwrites_existing (env : Env) (entries : list (string * node))
    (names : list string) local_dir h w :
  fault_free env ->
  wf_node (Dir entries) = true ->
  Forall (fun n => valid_name n = true) names ->
  holds_shape (remote w) names (Dir entries) ->
  exists w' t,
    _upload_directory env (Dir entries) local_dir (abs_path names) h w = (Ok tt, w', t)
    /\ (forall p o, ~ In (Op (Mkdir p) o) t)
    /\ (forall f c, In (f, c) (tree_files (Dir entries)) ->
                    remote w' !! join_path (names ++ f) = Some (RFile c))
    /\ (forall q, ~ In q (map fst (puts t)) -> remote w' !! q = remote w !! q).
Proof.
  intros Hff Hwf Hv Hshape.
  destruct (remirror_succeeds env (Dir entries) Hff Hwf entries eq_refl names local_dir h w
              Hv Hshape) as (w' & t & H & Hm & _).
  exists w', t. split; [exact H|]. split; [exact Hm|]. split.
  - intros f c Hin.
    destruct (upload_ok_files env _ _ _ _ _ _ _ Hwf H) as (_ & Hf).
    specialize (Hf f c Hin).
    rewrite remote_under_join, (rstrip_abs_path names Hv), <- join_path_app in Hf. exact Hf.
  - intros q Hq.
    destruct (sftp_only_upload env _ _ _ _ _ _ _ _ H) as (Hs & _).
    exact (sftp_steps_untouched env _ _ _ _ q Hs (fun o => Hm q o) Hq).
Qed.

Lemma X28_witness :
  exists w' t,
    _upload_directory healthy_env sample_tree2 "/opt/autopkg/munki_repo" (abs_path []) []
      world_mirrored = (Ok tt, w', t)
    /\ (forall p o, ~ In (Op (Mkdir p) o) t)
    /\ (forall f c, In (f, c) (tree_files sample_tree2) ->
                    remote w' !! join_path ([] ++ f) = Some (RFile c))
    /\ (forall q, ~ In q (map fst (puts t)) -> remote w' !! q = remote world_mirrored !! q).
Proof.
  apply (X28_mirror_overwrites_existing healthy_env _ [] "/opt/autopkg/munki_repo" []
           world_mirrored).
  - intros h c. reflexivity.
  - reflexivity.
  - constructor.
  - split.
    + intros d [<-|[<-|[]]]; vm_compute; reflexivity.
    + intros f c [[= <- <-]|[[= <- <-]|[[= <- <-]|[[= <- <-]|[]]]]]; vm_compute; discriminate.
Defined.

(** X29: mirroring is idempotent.  On a connection that never fails by
    itself, when the server already holds every directory of the tree and
    every file of the tree with the bytes of the local file,
    [_upload_directory] returns normally and leaves the server exactly as
    it was. *)
Theorem X29_mirror_is_idempotent (env : Env) (entries : list (string * node))
    (names : list string) local_dir h w :
  fault_free env ->
  wf_node (Dir entries) = true ->
  Forall (fun n => valid_name n = true) names ->
  holds_shape (remote w) names (Dir entries) ->
  holds_files (remote w) names (Dir entries) ->
  exists w' t,
    _upload_directory env (Dir entries) local_dir (abs_path names) h w = (Ok tt, w', t)
    /\ remote w' = remote w.
Proof.
  intros Hff Hwf Hv Hshape Hfiles.
  destruct (remirror_succeeds env (Dir entries) Hff Hwf entries eq_refl names local_dir h w
              Hv Hshape) as (w' & t & H & Hm & _).
  exists w', t. split; [exact H|].
  destruct (sftp_only_upload env _ _ _ _ _ _ _ _ H) as (Hs & _).
  apply (sftp_steps_same env _ _ _ _ Hs Hm).
  intros l q c Hin. apply put_in_puts in Hin.
  destruct (upload_ok_files env _ _ _ _ _ _ _ Hwf H) as (Hp & _).
  rewrite Hp in Hin. unfold expected_puts in Hin. apply List.in_map_iff in Hin.
  destruct Hin as ([f c'] & [= <- <-] & Hin). simpl.
  rewrite remote_under_join, (rstrip_abs_path names Hv), <- join_path_app.
  exact (Hfiles f c' Hin).
Qed.

Lemma X29_witness :
  exists w' t,
    _upload_directory healthy_env sample_tree2 "/opt/autopkg/munki_repo" (abs_path []) []
      world_mirrored = (Ok tt, w', t)
    /\ remote w' = remote world_mirrored.
Proof.
  apply (X29_mirror_is_idempotent healthy_env _ [] "/opt/autopkg/munki_repo" []
           world_mirrored).
  - intros h c. reflexivity.
  - reflexivity.
  - constructor.
  - split.
    + intros d [<-|[<-|[]]]; vm_compute; reflexivity.
    + intros f c [[= <- <-]|[[= <- <-]|[[= <- <-]|[[= <- <-]|[]]]]]; vm_compute; discriminate.
  - intros f c [[= <- <-]|[[= <- <-]|[[= <- <-]|[[= <- <-]|[]]]]]; vm_compute; reflexivity.
Defined.
